(** * TerrAInav-Sim: raster mission planner and tile stitcher

    A shallow embedding of [src/data/terrainav.py] (the resumable grid walk
    of class [terrAInav]) and of the geometry of [src/utils/geo_helper.py].

    Number model.  Python floats are idealised as exact numbers:
    - the planner only adds, multiplies, divides, compares and truncates, so
      its floats are rationals ([Q]) and every definition below computes;
    - [get_map_dim_m], [get_zoom_from_bounds] and [collect_tiles] call
      [tan], [sin], [atan], [log], [log2]; they are embedded over the real
      numbers ([R]) in [Module Geo].
    Rounding error of binary64 (of float32 in [haversine_distance], a
    tensorflow function) is outside both models.  Where a result passes
    through [int()], a value within one rounding of an integer can come out
    one less in the program than here. *)

From Stdlib Require Import ZArith QArith Qround Qabs List String Ascii Bool Lia.
From Stdlib Require Import Reals Psatz.
Import ListNotations.

(** ** The Python runtime the code relies on *)

Module Py.

Inductive exn : Type :=
| ValueError        (* failed unpack, int(), float(), math domain, PIL size *)
| TypeError
| OverflowError     (* int() of an infinity *)
| ZeroDivisionError
| OutOfBounds.      (* matplotlib.streamplot.OutOfBounds, raised by the repo *)

Inductive result (A : Type) : Type :=
| Ok (a : A)
| Raise (e : exn).
Arguments Ok {A} a.
Arguments Raise {A} e.

Definition Qltb (a b : Q) : bool := negb (Qle_bool b a).

(** [int(x)] on a float: truncation toward zero. *)
Definition int_of_float (q : Q) : Z := Z.quot (Qnum q) (Zpos (Qden q)).

(** [round(x, nd)] on a float, as the integer [round(x * 10^nd)]: Python
    rounds the exact value to the nearest multiple of [10^-nd], ties to the
    even one. *)
Definition round_half_even (q : Q) : Z :=
  let f := Qfloor q in
  match Qcompare (q - inject_Z f) (1 # 2) with
  | Lt => f
  | Gt => (f + 1)%Z
  | Eq => if Z.even f then f else (f + 1)%Z
  end.

Definition round_scaled (q : Q) (nd : nat) : Z :=
  round_half_even (q * inject_Z (10 ^ Z.of_nat nd)).

(** [range(lo, hi)]. *)
Definition range (lo hi : Z) : list Z :=
  map (fun k => (lo + Z.of_nat k)%Z) (seq 0 (Z.to_nat (hi - lo))).

(** *** Strings *)

Definition underscore : ascii := "_"%char.

Definition digit_char (d : Z) : ascii :=
  ascii_of_nat (48 + Z.to_nat (d mod 10)).

Definition is_digit (c : ascii) : bool :=
  let n := nat_of_ascii c in (48 <=? n)%nat && (n <=? 57)%nat.

(** Decimal digits of a natural number, most significant first; [fuel]
    bounds the number of digits. *)
Fixpoint digits_fuel (fuel : nat) (n : Z) (acc : string) : string :=
  match fuel with
  | O => acc
  | S k =>
      let acc' := String (digit_char n) acc in
      if (n / 10 =? 0)%Z then acc' else digits_fuel k (n / 10)%Z acc'
  end.

Definition str_nat (n : Z) : string :=
  digits_fuel (S (Z.to_nat (Z.log2 n))) n EmptyString.

(** [str(i)] for an [int]. *)
Definition str_int (i : Z) : string :=
  if (i <? 0)%Z then String "-"%char (str_nat (- i)) else str_nat i.

(** The [k] low decimal digits of [r], zero padded, most significant first. *)
Fixpoint frac_digits (k : nat) (r : Z) : string :=
  match k with
  | O => EmptyString
  | S k' => String (digit_char (r / 10 ^ Z.of_nat k')) (frac_digits k' r)
  end.

Fixpoint strip_trailing_zeros (s : string) : string :=
  match s with
  | EmptyString => EmptyString
  | String c r =>
      match strip_trailing_zeros r with
      | EmptyString => if Ascii.eqb c "0" then EmptyString else String c EmptyString
      | r' => String c r'
      end
  end.

(** [repr] of the float nearest to [a / 10^7], [a > 0], in fixed notation:
    the shortest digit string, with at least one fractional digit. *)
Definition repr_fixed7 (a : Z) : string :=
  let ip := (a / 10 ^ 7)%Z in
  let fr := strip_trailing_zeros (frac_digits 7 (a mod 10 ^ 7)) in
  str_nat ip ++ "." ++ (match fr with EmptyString => "0" | _ => fr end).

(** [repr] switches to exponent notation below [1e-4]: [0 < a < 1000]. *)
Definition repr_sci7 (a : Z) : string :=
  let ds := str_nat a in
  let e := (8 - Z.of_nat (String.length ds))%Z in
  match strip_trailing_zeros ds with
  | EmptyString => "0"
  | String d EmptyString => String d EmptyString
  | String d rest => String d ("." ++ rest)
  end ++ "e-0" ++ str_nat e.

(** [str(round(x, 7))].  Faithful for [|x| < 10^8], which covers every
    geographic coordinate; beyond [10^16] Python prints an exponent. *)
Definition str_round7 (x : Q) : string :=
  let a := Z.abs (round_scaled x 7) in
  (if Qltb x 0 then "-" else "") ++
  (if (a =? 0)%Z then "0.0"
   else if (a <? 1000)%Z then repr_sci7 a
   else repr_fixed7 a).

(** [s.split(sep)] for a one-character separator. *)
Fixpoint split_on (sep : ascii) (s : string) : list string :=
  match s with
  | EmptyString => [EmptyString]
  | String c r =>
      if Ascii.eqb c sep then EmptyString :: split_on sep r
      else match split_on sep r with
           | h :: t => String c h :: t
           | [] => [String c EmptyString]
           end
  end.

(** [s[:-4]]. *)
Definition drop_last4 (s : string) : string :=
  substring 0 (String.length s - 4) s.

Fixpoint ends_with (suffix s : string) : bool :=
  if String.eqb s suffix then true
  else match s with
       | EmptyString => false
       | String _ r => ends_with suffix r
       end.

Definition is_space (c : ascii) : bool :=
  let n := nat_of_ascii c in
  (n =? 32)%nat || ((9 <=? n)%nat && (n <=? 13)%nat).

Fixpoint lstrip (s : string) : string :=
  match s with
  | String c r => if is_space c then lstrip r else s
  | EmptyString => EmptyString
  end.

Fixpoint rstrip (s : string) : string :=
  match s with
  | EmptyString => EmptyString
  | String c r =>
      match rstrip r with
      | EmptyString => if is_space c then EmptyString else String c EmptyString
      | r' => String c r'
      end
  end.

Fixpoint digits_value (s : string) (acc : Z) : option Z :=
  match s with
  | EmptyString => Some acc
  | String c r =>
      if is_digit c
      then digits_value r (10 * acc + Z.of_nat (nat_of_ascii c - 48))%Z
      else None
  end.

(** [int(s)] for an ASCII string: surrounding white space, an optional
    sign, then one or more decimal digits. *)
Definition int_of_string (s : string) : option Z :=
  match lstrip (rstrip s) with
  | EmptyString => None
  | String c r =>
      if Ascii.eqb c "-" then
        match r with
        | EmptyString => None
        | _ => option_map Z.opp (digits_value r 0)
        end
      else if Ascii.eqb c "+" then
        match r with
        | EmptyString => None
        | _ => digits_value r 0
        end
      else digits_value (String c r) 0
  end.

(** Every character of [s] satisfies [p]. *)
Fixpoint all_chars (p : ascii -> bool) (s : string) : bool :=
  match s with
  | EmptyString => true
  | String c r => p c && all_chars p r
  end.

Definition not_underscore (c : ascii) : bool := negb (Ascii.eqb c underscore).

Definition not_space (c : ascii) : bool := negb (is_space c).

(** [s.split(sep)[0]] for a separator that is not empty: the text before
    the first occurrence of [sep], all of [s] when there is none. *)
Fixpoint before_first (sep s : string) : string :=
  match s with
  | EmptyString => EmptyString
  | String c r =>
      if String.prefix sep s then EmptyString
      else String c (before_first sep r)
  end.

Definition not_j (c : ascii) : bool := negb (Ascii.eqb c "j").

(** A number below 100 written with two digits. *)
Definition two_digits (z : Z) : string :=
  String (digit_char (z / 10)) (String (digit_char z) EmptyString).

(** The characters [str(round(x, 7))] is made of. *)
Definition float_char (c : ascii) : bool :=
  is_digit c || Ascii.eqb c "-" || Ascii.eqb c "." || Ascii.eqb c "e".



End Py.
Export Py.

(** ** [natsort.natsorted], as [complete_download] uses it

    The default key splits a string into maximal digit runs, read as
    numbers, and the text between them; keys compare chunk by chunk. *)

Module NatSort.

Inductive chunk : Type :=
| CText (s : string)
| CNum (digits : string).

Fixpoint chunks (s : string) : list chunk :=
  match s with
  | EmptyString => []
  | String c r =>
      let rest := chunks r in
      if is_digit c then
        match rest with
        | CNum ds :: more => CNum (String c ds) :: more
        | _ => CNum (String c EmptyString) :: rest
        end
      else
        match rest with
        | CText t :: more => CText (String c t) :: more
        | _ => CText (String c EmptyString) :: rest
        end
  end.

(** A key always starts with text, so that numbers meet numbers. *)
Definition key (s : string) : list chunk :=
  match chunks s with
  | CNum ds :: more => CText EmptyString :: CNum ds :: more
  | cs => cs
  end.

Definition num_value (ds : string) : Z :=
  match digits_value ds 0 with Some n => n | None => 0%Z end.

Definition chunk_compare (a b : chunk) : comparison :=
  match a, b with
  | CText s, CText t => String.compare s t
  | CNum m, CNum n => Z.compare (num_value m) (num_value n)
  | CNum _, CText _ => Lt
  | CText _, CNum _ => Gt
  end.

Fixpoint key_compare (k1 k2 : list chunk) : comparison :=
  match k1, k2 with
  | [], [] => Eq
  | [], _ :: _ => Lt
  | _ :: _, [] => Gt
  | a :: r1, b :: r2 =>
      match chunk_compare a b with
      | Eq => key_compare r1 r2
      | c => c
      end
  end.

Definition nat_lt (s t : string) : bool :=
  match key_compare (key s) (key t) with Lt => true | _ => false end.

(** [natsorted(names, reverse=True)[0]]: the greatest name, the earliest
    one in [names] among equals (the sort is stable). *)
Definition greatest (names : list string) : option string :=
  match names with
  | [] => None
  | n :: rest =>
      Some (fold_left (fun best s => if nat_lt best s then s else best) rest n)
  end.

End NatSort.

(** ** The planner: [terrAInav.check_data], [complete_download],
       [gen_raster_from_map] *)

Module Planner.

(** (latitude, longitude) in degrees. *)
Definition geo : Type := (Q * Q)%type.

(** What the planner calls and does not compute itself: pyproj behind
    [geo2utm]/[utm2geo], geopy behind [calc_bbox_m], the tile service behind
    [collect_tiles], Python's [float()].  [get_zoom_from_bounds] and
    [collect_tiles] are embedded on their own in [Module Geo]; the planner
    only needs their results. *)
Class World : Type := {
  Image : Type;
  geo2utm : Q -> Q -> string -> Q * Q;          (* lat lon epsg -> x, y *)
  utm2geo : Q -> Q -> string -> Q * Q;          (* x y epsg -> lat, lon *)
  calc_bbox_m : geo -> Q * Q -> geo * geo;
  get_zoom_from_bounds : geo -> geo -> result (Z * (Z * Z));
  collect_tiles : geo -> geo -> Z -> string -> Z -> result Image;
  float_of_string : string -> option Q
}.

(** The configuration [self.args] / [self] carries when [config] runs. *)
Record args : Type := {
  top_left : geo;                 (* coords[0], coords[1] *)
  bottom_right : geo;             (* coords[2], coords[3] *)
  single_img_size_m : Q * Q;      (* log.single_img_size.(x_m, y_m) *)
  overlap : Q;
  map_type : string;
  res_level : Z
}.

(** What [check_data] stores in [self.log] and [self.args.utm]. *)
Record log : Type := {
  utm : string;
  map_size_m : Q * Q;             (* log.map_size.(x_m, y_m) *)
  n_raster_imgs : Z * Z           (* log.n_raster_imgs.(x, y) *)
}.

Inductive event : Type :=
| EvStitch (i j : Z) (center : geo) (x y : Q) (zoom : Z)
| EvSave (name : string).

Section WithWorld.
Context {W : World}.

(** The raster directory and what the run did so far. *)
Record pstate : Type := {
  disk : list (string * Image);
  trace : list event
}.

(** State that survives an exception, and the exception. *)
Definition M (A : Type) : Type := pstate -> result A * pstate.

Definition ret {A} (a : A) : M A := fun s => (Ok a, s).
Definition raise {A} (e : exn) : M A := fun s => (Raise e, s).
Definition bind {A B} (m : M A) (k : A -> M B) : M B :=
  fun s => match m s with
           | (Ok a, s') => k a s'
           | (Raise e, s') => (Raise e, s')
           end.
Definition lift {A} (r : result A) : M A := fun s => (r, s).
Definition emit (e : event) : M unit :=
  fun s => (Ok tt, {| disk := disk s; trace := trace s ++ [e] |}).

(** [img.save(path)]: creates the file or replaces its content. *)
Definition save (name : string) (img : Image) : M unit :=
  fun s =>
    (Ok tt,
     {| disk := (name, img)
                :: filter (fun f => negb (String.eqb (fst f) name)) (disk s);
        trace := trace s ++ [EvSave name] |}).

Definition listdir : M (list string) := fun s => (Ok (map fst (disk s)), s).

End WithWorld.

Declare Scope py_scope.
Delimit Scope py_scope with py.
Notation "x <- m ;; k" := (bind m (fun x => k))
  (at level 61, m at next level, right associativity) : py_scope.
Notation "m ;;; k" := (bind m (fun _ => k))
  (at level 61, right associativity) : py_scope.

Section Walk.
Context {W : World}.
Local Open Scope py_scope.
Local Open Scope Q_scope.

(** [get_utm_epsg]; [{zone_number:02d}] pads a single digit with a zero. *)
Definition get_utm_epsg (coords : geo) : string :=
  let zone := (int_of_float ((snd coords + 180) / 6) + 1)%Z in
  let zz := ((if ((0 <=? zone) && (zone <? 10))%Z then "0" else "")
             ++ str_int zone)%string in
  if Qle_bool 0 (fst coords) then ("EPSG:326" ++ zz)%string
  else ("EPSG:327" ++ zz)%string.

(** [np.round(v, 3)]. *)
Definition np_round3 (v : Q) : Q := inject_Z (round_scaled v 3) / 1000.

(** One axis of [log.n_raster_imgs] ([check_data], the loop over [x], [y]):
    [int(map_m / (single_m * (1 - overlap)))].  The operands are numpy
    floats: a zero divisor yields an infinity (or a nan), which [int]
    refuses. *)
Definition n_raster_imgs_axis (map_m single_m ov : Q) : result Z :=
  let d := single_m * (1 - ov) in
  if Qeq_bool d 0
  then (if Qeq_bool map_m 0 then Raise ValueError else Raise OverflowError)
  else Ok (int_of_float (map_m / d)).

(** [check_data]: the zoom of the whole map, the size of the map in metres,
    the grid, and then the overview image of the whole map, stitched by
    [collect_tiles] at the map's zoom.  An exception of any of these is the
    function's.  The log file and the overview image are written into
    [data_dir], beside the raster directory and outside the state modelled
    here: what the function contributes to the walk is the [log]. *)
Definition check_data (a : args) : result log :=
  match get_zoom_from_bounds (top_left a) (bottom_right a) with
  | Raise e => Raise e
  | Ok map_zs =>
      let center := ((fst (top_left a) + fst (bottom_right a)) / 2,
                     (snd (top_left a) + snd (bottom_right a)) / 2) in
      let epsg := get_utm_epsg center in
      let map_tlm := geo2utm (fst (top_left a)) (snd (top_left a)) epsg in
      let map_brm := geo2utm (fst (bottom_right a)) (snd (bottom_right a)) epsg in
      let x_m := np_round3 (Qabs (fst map_tlm - fst map_brm)) in
      let y_m := np_round3 (Qabs (snd map_tlm - snd map_brm)) in
      match n_raster_imgs_axis x_m (fst (single_img_size_m a)) (overlap a) with
      | Raise e => Raise e
      | Ok nx =>
          match n_raster_imgs_axis y_m (snd (single_img_size_m a)) (overlap a) with
          | Raise e => Raise e
          | Ok ny =>
              match collect_tiles (top_left a) (bottom_right a) (fst map_zs)
                      (map_type a) (res_level a) with
              | Raise e => Raise e
              | Ok _ =>
                  Ok {| utm := epsg; map_size_m := (x_m, y_m);
                        n_raster_imgs := (nx, ny) |}
              end
          end
      end
  end.

(** [meters2geo]. *)
Definition meters2geo (center : geo) (img_size : Q * Q) (epsg : string)
  : geo * geo :=
  let img_w_m := fst img_size / 2 in
  let img_h_m := snd img_size / 2 in
  let c := geo2utm (fst center) (snd center) epsg in
  let brm := (fst c + img_w_m, snd c - img_h_m) in
  let tlm := (fst c - img_w_m, snd c + img_h_m) in
  (utm2geo (fst tlm) (snd tlm) epsg, utm2geo (fst brm) (snd brm) epsg).

(** The loop variables [x], [y], [phi], [lamda]. *)
Record cursor : Type := { cx : Q; cy : Q; phi : Q; lamda : Q }.

Definition step (width ov : Q) : Q := width * (100 - ov) / 100.

(** The guard at the head of the [while] body. *)
Definition out_of_bounds (br : geo) (raster_wx raster_wy : Q) (c : cursor)
  : bool :=
  Qltb (phi c) (fst br - raster_wx - (2 # 100))
  || Qltb (snd br + raster_wy + (2 # 100)) (lamda c).

Definition out_name (i j : Z) (c : cursor) (raster_zoom : Z) : string :=
  (str_int i ++ "_" ++ str_int j ++ "_" ++ str_round7 (phi c) ++ "_"
   ++ str_round7 (lamda c) ++ "_" ++ str_int raster_zoom ++ ".jpg")%string.

(** One pass through the body of [while i < n_images_x]. *)
Definition cell (a : args) (epsg : string) (br : geo) (ov : Q)
  (raster_zoom : Z) (i j : Z) (c : cursor) : M cursor :=
  let wx := fst (single_img_size_m a) in
  let wy := snd (single_img_size_m a) in
  if out_of_bounds br wx wy c then raise OutOfBounds
  else
    let name := out_name i j c raster_zoom in
    let bb := calc_bbox_m (phi c, lamda c) (wx, wy) in
    emit (EvStitch i j (phi c, lamda c) (cx c) (cy c) raster_zoom) ;;;
    img <- lift (collect_tiles (fst bb) (snd bb) raster_zoom (map_type a)
                   (res_level a)) ;;
    save name img ;;;
    let x' := cx c + step wx ov in
    ret {| cx := x'; cy := cy c; phi := phi c;
           lamda := snd (utm2geo x' (cy c) epsg) |}.

(** [while i < n_images_x]: [fuel] is [n_images_x - i]. *)
Fixpoint walk_row (fuel : nat) (a : args) (epsg : string) (br : geo)
  (ov : Q) (raster_zoom : Z) (i j : Z) (c : cursor) : M cursor :=
  match fuel with
  | O => ret c
  | S k =>
      c' <- cell a epsg br ov raster_zoom i j c ;;
      walk_row k a epsg br ov raster_zoom (i + 1)%Z j c'
  end.

(** The three statements after the [while]. *)
Definition next_row (a : args) (epsg : string) (ov x_left : Q) (c : cursor)
  : cursor :=
  let y' := cy c - step (snd (single_img_size_m a)) ov in
  let g := utm2geo x_left y' epsg in
  {| cx := x_left; cy := y'; phi := fst g; lamda := snd g |}.

(** [for j in range(j_last, n_images_y)]: [fuel] is [n_images_y - j]. *)
Fixpoint walk_rows (fuel : nat) (a : args) (epsg : string) (br : geo)
  (ov x_left : Q) (raster_zoom : Z) (n_images_x : Z) (i_last j_last j : Z)
  (c : cursor) : M cursor :=
  match fuel with
  | O => ret c
  | S k =>
      let i := if (j =? j_last)%Z then i_last else 0%Z in
      c' <- walk_row (Z.to_nat (n_images_x - i)) a epsg br ov raster_zoom
              i j c ;;
      walk_rows k a epsg br ov x_left raster_zoom n_images_x i_last j_last
        (j + 1)%Z (next_row a epsg ov x_left c')
  end.

(** The same two loops, flattened: the cells in the order the loops reach
    them, and the row change after each row.  [walk_rows_schedule] below
    shows that [walk_rows] runs exactly this list. *)
Inductive action : Type :=
| ACell (i j : Z)
| ANextRow.

Definition row_cells (fuel : nat) (i j : Z) : list action :=
  map (fun k => ACell (i + Z.of_nat k)%Z j) (seq 0 fuel).

Fixpoint schedule (fuel : nat) (n_images_x i_last j_last j : Z)
  : list action :=
  match fuel with
  | O => []
  | S k =>
      let i := if (j =? j_last)%Z then i_last else 0%Z in
      row_cells (Z.to_nat (n_images_x - i)) i j
      ++ ANextRow :: schedule k n_images_x i_last j_last (j + 1)%Z
  end.

Fixpoint run_actions (acts : list action) (a : args) (epsg : string)
  (br : geo) (ov x_left : Q) (raster_zoom : Z) (c : cursor) : M cursor :=
  match acts with
  | [] => ret c
  | ACell i j :: rest =>
      c' <- cell a epsg br ov raster_zoom i j c ;;
      run_actions rest a epsg br ov x_left raster_zoom c'
  | ANextRow :: rest =>
      run_actions rest a epsg br ov x_left raster_zoom
        (next_row a epsg ov x_left c)
  end.

(** [i_last, j_last, phi, lamda, _ = last_img_name[:-4].split('_')] and the
    four conversions. *)
Definition parse_name (name : string) : result (Z * Z * Q * Q) :=
  match split_on underscore (drop_last4 name) with
  | [f1; f2; f3; f4; _] =>
      match int_of_string f1 with
      | None => Raise ValueError
      | Some i =>
          match int_of_string f2 with
          | None => Raise ValueError
          | Some j =>
              match float_of_string f3 with
              | None => Raise ValueError
              | Some p =>
                  match float_of_string f4 with
                  | None => Raise ValueError
                  | Some l => Ok (i, j, p, l)
                  end
              end
          end
      end
  | _ => Raise ValueError
  end.

(** The name, without its extension, is not five fields of which the first
    two read as integers and the next two as floats. *)
Definition malformed (name : string) : Prop :=
  match split_on underscore (drop_last4 name) with
  | [f1; f2; f3; f4; _] =>
      int_of_string f1 = None \/ int_of_string f2 = None
      \/ float_of_string f3 = None \/ float_of_string f4 = None
  | _ => True
  end.

(** Where the walk starts: [None] when everything is already there. *)
Definition resume (a : args) (l : log) (ov x_left : Q) (p : Z * Z * Q * Q)
  : option (Z * Z * cursor) :=
  let '(i_last, j_last, ph, la) := p in
  let n_images_x := fst (n_raster_imgs l) in
  let n_images_y := snd (n_raster_imgs l) in
  let xy := geo2utm ph la (utm l) in
  if ((i_last + 1 =? n_images_x) && (j_last + 1 =? n_images_y))%Z then None
  else if (i_last <? n_images_x - 1)%Z then
    let x := fst xy + step (fst (single_img_size_m a)) ov in
    let g := utm2geo x (snd xy) (utm l) in
    Some ((i_last + 1)%Z, j_last,
          {| cx := x; cy := snd xy; phi := fst g; lamda := snd g |})
  else
    let y := snd xy - step (snd (single_img_size_m a)) ov in
    let g := utm2geo x_left y (utm l) in
    Some (0%Z, (j_last + 1)%Z,
          {| cx := x_left; cy := y; phi := fst g; lamda := snd g |}).

(** [gen_raster_from_map].  [last_img_name] is [None] for the source's
    [-1]; [proceed] tells whether the operator answered [y] or [yes]. *)
Definition gen_raster_from_map (a : args) (l : log)
  (top_left_coords bottom_right_coords : geo) (ov : Q)
  (last_img_name : option string) (proceed : bool) : M unit :=
  let corners := meters2geo (top_left a) (single_img_size_m a) (utm l) in
  let tl := fst corners in
  let br := snd corners in
  zs <- lift (get_zoom_from_bounds tl br) ;;
  let raster_zoom := fst zs in
  let tlm := geo2utm (fst tl) (snd tl) (utm l) in
  let n_images_x := fst (n_raster_imgs l) in
  let n_images_y := snd (n_raster_imgs l) in
  let x_left := fst tlm in
  start <- match last_img_name with
           | Some name =>
               p <- lift (parse_name name) ;;
               ret (resume a l ov x_left p)
           | None =>
               ret (Some (0%Z, 0%Z,
                          {| cx := fst tlm; cy := snd tlm;
                             phi := fst top_left_coords;
                             lamda := snd top_left_coords |}))
           end ;;
  match start with
  | None => ret tt
  | Some (i_last, j_last, c) =>
      if proceed then
        walk_rows (Z.to_nat (n_images_y - j_last)) a (utm l)
          bottom_right_coords ov x_left raster_zoom n_images_x i_last j_last
          j_last c ;;;
        ret tt
      else ret tt
  end.


(** [s'] continues [s]: the run only appended events, each satisfying [P],
    and every file it left that was not there before was saved under a name
    [P] accepts. *)
Definition grows (P : event -> Prop) (s s' : pstate) : Prop :=
  (exists evs, trace s' = (trace s ++ evs)%list /\ Forall P evs)
  /\ (forall f, In f (disk s') -> In f (disk s) \/ P (EvSave (fst f))).

(** [P] accepts the events of every cell that passes the guard. *)
Definition cell_events_ok (P : event -> Prop) (a : args) (br : geo) : Prop :=
  forall i j c zoom,
    out_of_bounds br (fst (single_img_size_m a)) (snd (single_img_size_m a)) c
    = false ->
    P (EvStitch i j (phi c, lamda c) (cx c) (cy c) zoom)
    /\ P (EvSave (out_name i j c zoom)).

(** The stitches of cells within the guard's bounds, and any save. *)
Definition within_bounds (a : args) (br : geo) (e : event) : Prop :=
  match e with
  | EvStitch _ _ center x y _ =>
      out_of_bounds br (fst (single_img_size_m a))
        (snd (single_img_size_m a))
        {| cx := x; cy := y; phi := fst center; lamda := snd center |} = false
  | EvSave _ => True
  end.


(** The cells a list of events stitched, in order. *)
Definition stitched_cells (evs : list event) : list (Z * Z) :=
  flat_map (fun e => match e with
                     | EvStitch i j _ _ _ _ => [(i, j)]
                     | EvSave _ => []
                     end) evs.

(** The cells the walk owes when it enters row [j] with [fuel] rows to go:
    row [j_last] from column [i_last], every later row from column 0. *)
Definition cells_from (fuel : nat) (n_images_x i_last j_last j : Z)
  : list (Z * Z) :=
  flat_map
    (fun k =>
       let j' := (j + Z.of_nat k)%Z in
       let i0 := if (j' =? j_last)%Z then i_last else 0%Z in
       map (fun m => ((i0 + Z.of_nat m)%Z, j'))
         (seq 0 (Z.to_nat (n_images_x - i0))))
    (seq 0 fuel).

(** The cells of a flattened schedule. *)
Definition cells_of (acts : list action) : list (Z * Z) :=
  flat_map (fun act => match act with
                       | ACell i j => [(i, j)]
                       | ANextRow => []
                       end) acts.

(** The names a list of events saved, in order. *)
Definition saved_names (evs : list event) : list string :=
  flat_map (fun e => match e with
                     | EvSave name => [name]
                     | EvStitch _ _ _ _ _ _ => []
                     end) evs.

(** The names of [names] that are not among [saved]. *)
Definition kept (saved names : list string) : list string :=
  filter (fun n => negb (existsb (String.eqb n) saved)) names.

(** The cell a file name stands for: its first two fields, read as
    [gen_raster_from_map] reads them on resumption. *)
Definition name_cell (name : string) : option (Z * Z) :=
  match split_on underscore (drop_last4 name) with
  | f1 :: f2 :: _ =>
      match int_of_string f1, int_of_string f2 with
      | Some i, Some j => Some (i, j)
      | _, _ => None
      end
  | _ => None
  end.

(** [list(map(float, fields))]. *)
Fixpoint floats_of (fields : list string) : option (list Q) :=
  match fields with
  | [] => Some []
  | f :: rest =>
      match float_of_string f, floats_of rest with
      | Some x, Some xs => Some (x :: xs)
      | _, _ => None
      end
  end.

(** One row of the metadata [config_output] builds from a file's base
    name: the name, then its fields as floats, under the headers
    [img_names], [columns], [row], [Lat], [Lon], [Alt]. *)
Definition meta_row (name : string) : result (string * list Q) :=
  match floats_of (split_on underscore (before_first ".jpg" name)) with
  | Some values => Ok (name, values)
  | None => Raise ValueError
  end.

(** The whole grid, row by row. *)
Definition grid (n_images_x n_images_y : Z) : list (Z * Z) :=
  flat_map (fun j => map (fun i => (i, j)) (range 0 n_images_x))
    (range 0 n_images_y).

(** A stitch of column [i] happened at x cursor [x_left + i * st]. *)
Definition cursor_ok (x_left st : Q) (e : event) : Prop :=
  match e with
  | EvStitch i _ _ x _ _ => x == x_left + inject_Z i * st
  | EvSave _ => True
  end.

(** The left edge [gen_raster_from_map] walks from: the x of the top-left
    corner of the image centred on the map's top-left corner. *)
Definition x_left_of (a : args) (l : log) : Q :=
  let tl := fst (meters2geo (top_left a) (single_img_size_m a) (utm l)) in
  fst (geo2utm (fst tl) (snd tl) (utm l)).

(** [glob("*.jpg")] on the raster directory. *)
Definition glob_jpg (names : list string) : list string :=
  filter (fun n => ends_with ".jpg" n
                   && negb (match n with
                            | String c _ => Ascii.eqb c "."
                            | EmptyString => false
                            end)) names.

Definition complete_download (a : args) (l : log) (proceed : bool) : M unit :=
  names <- listdir ;;
  gen_raster_from_map a l (top_left a) (bottom_right a) (overlap a)
    (NatSort.greatest (glob_jpg names)) proceed.

(** [config(download_raster=True)], up to and including the download: the
    listing of the input files and the parent classes' [config] that follow
    are not part of it. *)
Definition config (a : args) (proceed : bool) : M unit :=
  l <- lift (check_data a) ;;
  complete_download a l proceed.

End Walk.

End Planner.

(** ** [find_overlap], [overlapped] (geo_helper.py)

    Rectangles are [(top left lat, top left lon, bottom right lat, bottom
    right lon)], as the docstring has them; the floats are Python's, so a
    zero divisor raises.  The percentage is the integer part of an exact
    quotient here and of a rounded one in the program: the two can differ
    by one. *)

Module Overlap.
Local Open Scope Q_scope.

Definition rect : Type := (Q * Q * Q * Q)%type.

(** [max(a, b)] and [min(a, b)]: the first argument wins a tie. *)
Definition py_max (a b : Q) : Q := if Qltb a b then b else a.
Definition py_min (a b : Q) : Q := if Qltb b a then b else a.

Definition find_overlap (coords_a coords_b : rect) : result Z :=
  let '(top_left_lat_a, top_left_lon_a, bottom_right_lat_a,
        bottom_right_lon_a) := coords_a in
  let '(top_left_lat_b, top_left_lon_b, bottom_right_lat_b,
        bottom_right_lon_b) := coords_b in
  let y_overlap :=
    py_max 0 (py_min top_left_lat_a top_left_lat_b
              - py_max bottom_right_lat_a bottom_right_lat_b) in
  let x_overlap :=
    py_max 0 (py_min bottom_right_lon_a bottom_right_lon_b
              - py_max top_left_lon_a top_left_lon_b) in
  let rect1_area := Qabs (bottom_right_lat_a - top_left_lat_a)
                    * Qabs (bottom_right_lon_a - top_left_lon_a) in
  let rect2_area := Qabs (bottom_right_lat_b - top_left_lat_b)
                    * Qabs (bottom_right_lon_b - top_left_lon_b) in
  let d := rect1_area + rect2_area - x_overlap * y_overlap in
  if Qeq_bool d 0 then Raise ZeroDivisionError
  else Ok (int_of_float (x_overlap * y_overlap / d * 100)).

Definition overlapped (coords_a coords_b : rect) (overlap : Z) : result bool :=
  match find_overlap coords_a coords_b with
  | Ok p => Ok (overlap <=? p)%Z
  | Raise e => Raise e
  end.

(** A rectangle with its top above its bottom and its left before its
    right. *)
Definition proper (r : rect) : Prop :=
  let '(tl_lat, tl_lon, br_lat, br_lon) := r in
  br_lat <= tl_lat /\ tl_lon <= br_lon.

Definition area (r : rect) : Q :=
  let '(tl_lat, tl_lon, br_lat, br_lon) := r in
  (tl_lat - br_lat) * (br_lon - tl_lon).

(** The same rectangle, corner by corner. *)
Definition same (r1 r2 : rect) : Prop :=
  let '(tl_lat1, tl_lon1, br_lat1, br_lon1) := r1 in
  let '(tl_lat2, tl_lon2, br_lat2, br_lon2) := r2 in
  tl_lat1 == tl_lat2 /\ tl_lon1 == tl_lon2
  /\ br_lat1 == br_lat2 /\ br_lon1 == br_lon2.

(** Two rectangles that share no area: one ends where the other begins, or
    before, in latitude or in longitude. *)
Definition apart (r1 r2 : rect) : Prop :=
  let '(tl_lat1, tl_lon1, br_lat1, br_lon1) := r1 in
  let '(tl_lat2, tl_lon2, br_lat2, br_lon2) := r2 in
  br_lon1 <= tl_lon2 \/ br_lon2 <= tl_lon1
  \/ tl_lat1 <= br_lat2 \/ tl_lat2 <= br_lat1.

End Overlap.

(** ** [get_map_image] (geo_helper.py)

    The file system is a list of paths with their content; a response is
    what [requests] handed back. *)

Module Http.

(** What a call can raise: an exception of [exn], or the one Python raises
    when a loop variable is read after a loop that never ran. *)
Inductive raised : Type :=
| Known (e : exn)
| UnboundLocalError.

Inductive outcome (A : Type) : Type :=
| Returns (a : A)
| Fails (e : raised).
Arguments Returns {A} a.
Arguments Fails {A} e.

Record response : Type := {
  status_code : Z;
  content : string;
  url : string
}.

Definition fs : Type := list (string * string).

(** [open(path, "wb")] and [write]. *)
Definition write_file (path data : string) (f : fs) : fs :=
  (path, data) :: filter (fun e => negb (String.eqb (fst e) path)) f.

(** The [for i in range(retry)] loop: [Some] when it returned from inside.
    The response is the one the caller passed; the loop does not ask for
    another. *)
Fixpoint get_map_image_loop (trials : list Z) (r : response)
  (data_dir : string) (f : fs) : option fs :=
  match trials with
  | [] => None
  | _ :: rest =>
      if (status_code r =? 200)%Z
      then Some (write_file data_dir (content r) f)
      else get_map_image_loop rest r data_dir f
  end.

(** [get_map_image]; after a loop that never ran, the [i] in the error
    message is unbound. *)
Definition get_map_image (r : response) (data_dir : string) (retry : Z)
  (f : fs) : outcome unit * fs :=
  match get_map_image_loop (range 0 retry) r data_dir f with
  | Some f' => (Returns tt, f')
  | None =>
      if negb (status_code r =? 200)%Z
      then (Fails (if (0 <? retry)%Z then Known ValueError
                   else UnboundLocalError),
            f)
      else (Returns tt, f)
  end.

End Http.

(** ** [wait_for_files] (io_helper.py) *)

Module Io.

(** How the wait ended, with the number of 0.1 s sleeps before it. *)
Inductive waited : Type :=
| Appeared (sleeps : nat)
| TimeoutError (sleeps : nat).

(** [all(os.path.exists(d) for d in expected_files)] at poll [k];
    [present k path] is what the file system answers then. *)
Definition all_exist (present : nat -> string -> bool) (k : nat)
  (expected_files : list string) : bool :=
  forallb (present k) expected_files.

(** [for _ in range(timeout * 10)], from poll [k] on, [todo] polls left. *)
Fixpoint wait_loop (present : nat -> string -> bool)
  (expected_files : list string) (k todo : nat) : waited :=
  match todo with
  | O => TimeoutError k
  | S n =>
      if all_exist present k expected_files then Appeared k
      else wait_loop present expected_files (S k) n
  end.

Definition wait_for_files (present : nat -> string -> bool)
  (expected_files : list string) (timeout : Z) : waited :=
  wait_loop present expected_files 0 (List.length (range 0 (timeout * 10))).

End Io.

(** ** A concrete world, to run the planner on concrete missions

    A flat stand-in for the external services: 100 km per degree on both
    axes, a fixed zoom, and a tile service that returns the footprint it was
    asked for.  Theorems quantify over every [World]; this one only feeds
    the executable examples. *)

Module Demo.
Import Planner.
Local Open Scope Q_scope.

Definition scale : Q := 100000.

Fixpoint frac_value (s : string) (num den : Z) : option Q :=
  match s with
  | EmptyString => Some (Qred (Qmake num (Z.to_pos den)))
  | String c r =>
      if is_digit c
      then frac_value r (10 * num + Z.of_nat (nat_of_ascii c - 48))%Z
             (10 * den)%Z
      else None
  end.

Definition unsigned_decimal (s : string) : option Q :=
  match split_on "."%char s with
  | [ip] =>
      match ip with
      | EmptyString => None
      | _ => option_map inject_Z (digits_value ip 0)
      end
  | [ip; fp] =>
      match ip, fp with
      | EmptyString, EmptyString => None
      | _, _ =>
          match digits_value ip 0, frac_value fp 0 1 with
          | Some i, Some f => Some (Qred (inject_Z i + f))
          | _, _ => None
          end
      end
  | _ => None
  end.

(** [float(s)] on plain decimal literals (no exponent, no [inf], no [nan]). *)
Definition decimal_of_string (s : string) : option Q :=
  match lstrip (rstrip s) with
  | EmptyString => None
  | String c r =>
      if Ascii.eqb c "-" then option_map Qopp (unsigned_decimal r)
      else if Ascii.eqb c "+" then unsigned_decimal r
      else unsigned_decimal (String c r)
  end.

#[global] Instance world : World := {|
  Image := geo * geo;
  geo2utm := fun lat lon _ => (Qred (scale * lon), Qred (scale * lat));
  utm2geo := fun x y _ => (Qred (y / scale), Qred (x / scale));
  calc_bbox_m := fun c sz =>
    ((Qred (fst c + snd sz / 2 / scale), Qred (snd c - fst sz / 2 / scale)),
     (Qred (fst c - snd sz / 2 / scale), Qred (snd c + fst sz / 2 / scale)));
  get_zoom_from_bounds := fun _ _ => Ok (18%Z, (640%Z, 480%Z));
  collect_tiles := fun tl br _ _ _ => Ok (tl, br);
  float_of_string := decimal_of_string
|}.

(** A 3000 m by 2000 m box tiled by 1000 m cells: a 3 by 2 grid. *)
Definition mission (ov : Q) : args := {|
  top_left := (3516 # 100, -(8990 # 100));
  bottom_right := (3514 # 100, -(8987 # 100));
  single_img_size_m := (1000, 1000);
  overlap := ov;
  map_type := "satellite";
  res_level := 2
|}.

Definition empty : pstate := {| disk := []; trace := [] |}.

Definition file_names (s : pstate) : list string := map fst (disk s).

(** The cells stitched during a run, in order. *)
Definition stitched (s : pstate) : list (Z * Z) := stitched_cells (trace s).

(** The footprint the tile service was asked for under [name]. *)
Definition footprint (name : string) (s : pstate) : option (geo * geo) :=
  option_map snd
    (find (fun f => String.eqb (fst f) name) (disk s)).

(** The reference box made 999 m wider: 3999 m by 2000 m. *)
Definition wide_mission : args := {|
  top_left := (3516 # 100, -(8990 # 100));
  bottom_right := (3514 # 100, -(8986001 # 100000));
  single_img_size_m := (1000, 1000);
  overlap := 0;
  map_type := "satellite";
  res_level := 2
|}.

(** The x cursors at which the cells of row [j] were stitched. *)
Definition row_cursors (j : Z) (s : pstate) : list Q :=
  flat_map (fun e => match e with
                     | EvStitch _ j' _ x _ _ =>
                         if (j' =? j)%Z then [Qred x] else []
                     | EvSave _ => []
                     end) (trace s).

(** What [check_data] logs for [mission ov] when the grid is 3 by 2. *)
Definition log32 : log := {|
  utm := "EPSG:32616";
  map_size_m := (3000, 2000);
  n_raster_imgs := (3%Z, 2%Z)
|}.

(** The raster directory a first run of [mission 0] leaves when it is
    stopped after its fourth cell ([disk] lists the newest file first). *)
Definition interrupted : pstate := {|
  disk := skipn 2 (disk (snd (config (mission 0) true empty)));
  trace := []
|}.

End Demo.

(** ** Geometry: [get_map_dim_m], [get_zoom_from_bounds], [collect_tiles] *)

Module Geo.
Local Open Scope R_scope.

(** [math.radians], [np.radians]. *)
Definition radians (d : R) : R := d * PI / 180.

Definition log2 (x : R) : R := ln x / ln 2.

(** [int(x)] on a float: truncation toward zero. *)
Definition trunc (x : R) : Z :=
  if Rle_dec 0 x then Int_part x else (- Int_part (- x))%Z.

(** [get_map_dim_m].  The body has no [raise] and numpy's functions return
    a value on every float, so the result is always [Ok]. *)
Definition get_map_dim_m (fov_d agl_m aspect_ratio : R) : result (R * R * R) :=
  let d_m := 2 * agl_m * tan (radians (fov_d / 2)) in
  Ok (d_m * sin (atan aspect_ratio), d_m * cos (atan aspect_ratio), agl_m).

(** [src/utils/consts.py] is not among the sources: its values are a
    parameter of the functions that read them. *)
Record Consts : Type := {
  tile_size : R;
  tile_center_p : R * R;
  pixel_per_degree : R;
  pixel_per_radian : R
}.

(** Modelled from the spec: the constants of [consts.py], which is missing.
    The spec fixes the maximum canvas at 640 px; the Mercator constants are
    those of the 256 px world of the reference [calc_bbox_api] cites. *)
Definition consts_ref : Consts := {|
  tile_size := 640;
  tile_center_p := (128, 128);
  pixel_per_degree := 256 / 360;
  pixel_per_radian := 256 / (2 * PI)
|}.

(** The closure [latlonToPt] of [get_zoom_from_bounds]. *)
Definition latlonToPt (C : Consts) (lat lon : R) : R * R :=
  let a := Rmin (Rmax (sin (radians lat)) (- (1 - 1e-15))) (1 - 1e-15) in
  (fst (tile_center_p C) + lon * pixel_per_degree C,
   snd (tile_center_p C)
   + 0.5 * ln ((1 + a) / (1 - a)) * - pixel_per_radian C).

Definition half_pw (C : Consts) (top_left bottom_right : R * R) : R * R :=
  let cp_top_left := latlonToPt C (fst top_left) (snd top_left) in
  let cp_bottom_right := latlonToPt C (fst bottom_right) (snd bottom_right) in
  ((fst cp_bottom_right - fst cp_top_left) / 2,
   (snd cp_bottom_right - snd cp_top_left) / 2).

(** [int(-math.log2(max(half_pw_x, half_pw_y) / img_size) - 1)]. *)
Definition zoom_of (C : Consts) (hp : R * R) : Z :=
  trunc (- log2 (Rmax (fst hp) (snd hp) / tile_size C) - 1).

(** [get_zoom_from_bounds].  [math.log2] raises [ValueError] unless its
    argument is positive. *)
Definition get_zoom_from_bounds (C : Consts) (top_left bottom_right : R * R)
  (zoom_bound : Z) : result (Z * (Z * Z)) :=
  let hp := half_pw C top_left bottom_right in
  if Req_dec_T (tile_size C) 0 then Raise ZeroDivisionError
  else if Rle_dec (Rmax (fst hp) (snd hp) / tile_size C) 0
  then Raise ValueError
  else
    let zoom := zoom_of C hp in
    let scaling_factor := powerRZ 2 (zoom + 1) in
    let img_w := trunc (fst hp * scaling_factor) in
    let img_h := trunc (snd hp * scaling_factor) in
    if (zoom >? zoom_bound)%Z then Raise OutOfBounds
    else Ok (zoom, (img_w, img_h)).

(** The closure [generate_tile_info] of [collect_tiles]: tile indices and
    the pixel offsets inside the tile.  [1.0 / math.cos(..)] needs a
    non-zero cosine and [math.log] a positive argument. *)
Definition generate_tile_info (loc : R * R) (zoom : Z)
  : result (Z * Z * Z * Z) :=
  let n := powerRZ 2 zoom in
  let lat := fst loc in
  let lon := snd loc in
  let tile_x := (lon + 180) / 360 * n in
  let arg := tan (radians lat) + 1 / cos (radians lat) in
  if Req_dec_T (cos (radians lat)) 0 then Raise ZeroDivisionError
  else if Rle_dec arg 0 then Raise ValueError
  else
    let tile_y := (1 - ln arg / PI) / 2 * n in
    let pixel_x := trunc (tile_x * 256 - IZR (trunc tile_x) * 256) in
    let pixel_y := trunc (tile_y * 256 - IZR (trunc tile_y) * 256) in
    Ok (trunc tile_x, trunc tile_y, pixel_x, pixel_y).

(** One task handed to the executor: [fetch_and_paste] with the zoom its
    URL is built from. *)
Record tile_request : Type := {
  tile_id_x : Z;
  tile_id_y : Z;
  request_zoom : Z;
  request_map_type : string
}.

(** What [collect_tiles] did: the canvas it allocated, the tasks it
    submitted (in submission order) and the crop box of the result. *)
Record stitch : Type := {
  effective_zoom : Z;
  tl_info : Z * Z * Z * Z;
  br_info : Z * Z * Z * Z;
  canvas : Z * Z;
  requests : list tile_request;
  crop_box : Z * Z * Z * Z
}.

(** [collect_tiles].  [Image.new] (PIL) raises [ValueError] on a negative
    width or height and accepts zero.  [resolution] is an integer here: the
    default [res_level] of [config.py] is the [int] 2; a value given on the
    command line is parsed as a float, and the zoom is then the float
    [min(zoom + resolution, 22)] with the same value as long as the
    resolution is a whole number. *)
Definition collect_tiles (tl br : R * R) (zoom : Z) (map_type : string)
  (resolution : Z) : result stitch :=
  let zoom := Z.min (zoom + resolution) 22 in
  match generate_tile_info tl zoom with
  | Raise e => Raise e
  | Ok tli =>
      match generate_tile_info br zoom with
      | Raise e => Raise e
      | Ok bri =>
          let '(tl_x, tl_y, tl_px, tl_py) := tli in
          let '(br_x, br_y, br_px, br_py) := bri in
          let n_tiles_x := (br_x - tl_x + 1)%Z in
          let n_tiles_y := (br_y - tl_y + 1)%Z in
          let img_w := Z.abs (br_px + 256 * (n_tiles_x - 1) - tl_px) in
          let img_h := Z.abs (br_py + 256 * (n_tiles_y - 1) - tl_py) in
          if ((n_tiles_x * 256 <? 0) || (n_tiles_y * 256 <? 0))%Z
          then Raise ValueError
          else
            Ok {| effective_zoom := zoom;
                  tl_info := tli;
                  br_info := bri;
                  canvas := ((n_tiles_x * 256)%Z, (n_tiles_y * 256)%Z);
                  requests :=
                    flat_map
                      (fun ty =>
                         map (fun tx => {| tile_id_x := tx; tile_id_y := ty;
                                           request_zoom := zoom;
                                           request_map_type := map_type |})
                           (range tl_x (br_x + 1)))
                      (range tl_y (br_y + 1));
                  crop_box := (tl_px, tl_py, (tl_px + img_w)%Z,
                               (tl_py + img_h)%Z) |}
      end
  end.

(** *** [calc_bbox_api] *)

(** The closure [clamp]. *)
Definition clamp (value min_value max_value : R) : R :=
  Rmax (Rmin value max_value) min_value.

(** [math.degrees]. *)
Definition degrees (r : R) : R := r * 180 / PI.

(** The closure [pt_to_lat_lon]; a point is [(x, y)]. *)
Definition pt_to_lat_lon (C : Consts) (pt : R * R) : R * R :=
  let lon := (fst pt - fst (tile_center_p C)) / pixel_per_degree C in
  let lat := degrees (asin (tanh ((snd pt - snd (tile_center_p C))
                                  / - pixel_per_radian C))) in
  (lat, lon).

(** The two pixel points [calc_bbox_api] converts back: the centre point
    moved by half the map size, scaled to zoom 0. *)
Definition corner_pts (C : Consts) (center : R * R) (zoom : Z)
  (map_size : R * R) : (R * R) * (R * R) :=
  let pixel_size := powerRZ 2 (- zoom) in
  let half_pw_x := fst map_size * pixel_size / 2 in
  let half_pw_y := snd map_size * pixel_size / 2 in
  let a := clamp (sin (radians (fst center))) (- (1 - 1e-15)) (1 - 1e-15) in
  let cp_x := fst (tile_center_p C) + snd center * pixel_per_degree C in
  let cp_y := snd (tile_center_p C)
              + 0.5 * ln ((1 + a) / (1 - a)) * - pixel_per_radian C in
  ((cp_x - half_pw_x, cp_y - half_pw_y), (cp_x + half_pw_x, cp_y + half_pw_y)).

(** The clamp of [latlonToPt] leaves the latitude of this pixel point as
    it is. *)
Definition unclamped (C : Consts) (pt : R * R) : Prop :=
  Rabs (tanh ((snd pt - snd (tile_center_p C)) / - pixel_per_radian C))
  <= 1 - 1e-15.

Definition calc_bbox_api (C : Consts) (center : R * R) (zoom : Z)
  (map_size : R * R) : (R * R) * (R * R) :=
  let pts := corner_pts C center zoom map_size in
  (pt_to_lat_lon C (fst pts), pt_to_lat_lon C (snd pts)).

(** *** The closure [fetch_and_paste] of [collect_tiles] *)

(** The dictionary [map_types]; a missing key raises [KeyError] inside the
    [try]. *)
Definition layer_code (map_type : string) : option string :=
  if String.eqb map_type "satellite" then Some "s"%string
  else if String.eqb map_type "roadmap" then Some "m"%string
  else if String.eqb map_type "terrain" then Some "t"%string
  else None.

Definition tile_url (code : string) (x y zoom : Z) : string :=
  ("https://mt.google.com/vt/lyrs=" ++ code ++ "&x=" ++ str_int x
   ++ "&y=" ++ str_int y ++ "&z=" ++ str_int zoom)%string.

(** Where a tile lands on the canvas. *)
Definition paste_offset (tl_x tl_y : Z) (r : tile_request) : Z * Z :=
  (((tile_id_x r - tl_x) * 256)%Z, ((tile_id_y r - tl_y) * 256)%Z).

Section Fetch.
(** What the network answers: for a URL and the number of the attempt, an
    image, or nothing when the request or the decoding raised. *)
Variable Tile : Type.
Variable service : string -> nat -> option Tile.

(** How one call ended: attempts made, seconds slept, and the tile pasted
    with its offset. *)
Record fetched : Type := {
  attempts : nat;
  sleeps : nat;
  pasted : option (Tile * (Z * Z))
}.

(** [for attempt in range(1, max_retries + 1)], from [attempt] on. *)
Fixpoint fetch_loop (todo : list nat) (max_retries : nat)
  (try : nat -> option Tile) (offset : Z * Z) : fetched :=
  match todo with
  | [] => {| attempts := 0; sleeps := 0; pasted := None |}
  | attempt :: rest =>
      match try attempt with
      | Some image =>
          {| attempts := 1; sleeps := 0; pasted := Some (image, offset) |}
      | None =>
          let r := fetch_loop rest max_retries try offset in
          {| attempts := S (attempts r);
             sleeps := (if (attempt <? max_retries)%nat then 1 else 0)
                       + sleeps r;
             pasted := pasted r |}
      end
  end.

Definition fetch_and_paste (tl_x tl_y zoom : Z) (tile_id_x tile_id_y : Z)
  (map_type : string) (max_retries : nat) : fetched :=
  fetch_loop (seq 1 max_retries) max_retries
    (fun attempt =>
       match layer_code map_type with
       | None => None
       | Some code => service (tile_url code tile_id_x tile_id_y zoom) attempt
       end)
    ((tile_id_x - tl_x) * 256, (tile_id_y - tl_y) * 256)%Z.

End Fetch.

(** *** [haversine_distance] *)

(** [atan2(y, x)]. *)
Definition atan2 (y x : R) : R :=
  if Rlt_dec 0 x then atan (y / x)
  else if Rlt_dec x 0
       then (if Rle_dec 0 y then atan (y / x) + PI else atan (y / x) - PI)
       else if Rlt_dec 0 y then PI / 2
            else if Rlt_dec y 0 then - (PI / 2) else 0.

(** [haversine_distance]; [earth_radius] is [consts.EARTH_RADIUS], in
    kilometres.  The square root of a negative number is a nan, and so is
    everything computed from it: [None].  The source computes on float32
    tensors; over the reals [a] never leaves [0, 1] for latitudes between
    -90 and 90, in float32 it can, by a rounding, near the antipodes. *)
Definition haversine_distance (earth_radius : R) (coords : R * R * R * R)
  : option R :=
  let '(lat1, lon1, lat2, lon2) := coords in
  let c0 := lat1 * PI / 180 in
  let c1 := lon1 * PI / 180 in
  let c2 := lat2 * PI / 180 in
  let c3 := lon2 * PI / 180 in
  let dlat := c2 - c0 in
  let dlon := c3 - c1 in
  let a := sin (dlat / 2) ^ 2 + cos c0 * cos c2 * sin (dlon / 2) ^ 2 in
  if Rlt_dec a 0 then None
  else if Rlt_dec (1 - a) 0 then None
  else
    let c := 2 * atan2 (sqrt a) (sqrt (1 - a)) in
    let distance := earth_radius * c in
    Some (distance * 1000).

End Geo.

(** * Properties *)

(** ** Strings *)

Module PyFacts.
Local Open Scope string_scope.

(* Keep [simpl] away from integer arithmetic on variables. *)
Local Opaque Z.pow Z.div Z.modulo Z.log2 digit_char.

Lemma digit_char_is_digit (d : Z) : is_digit (digit_char d) = true.
Proof.
  Local Transparent digit_char. unfold digit_char. Local Opaque digit_char.
  assert (H : (Z.to_nat (d mod 10) < 10)%nat).
  { pose proof (Z.mod_pos_bound d 10 ltac:(lia)). lia. }
  remember (Z.to_nat (d mod 10)) as k eqn:Ek. clear Ek.
  do 10 (destruct k as [|k]; [reflexivity|]); lia.
Qed.

Lemma is_digit_not_underscore (c : ascii) :
  is_digit c = true -> not_underscore c = true.
Proof.
  destruct c as [[] [] [] [] [] [] [] []]; vm_compute; congruence.
Qed.

Lemma all_chars_app (p : ascii -> bool) (s t : string) :
  all_chars p (s ++ t) = all_chars p s && all_chars p t.
Proof.
  induction s as [|c s IH]; simpl; [reflexivity|].
  now rewrite IH, andb_assoc.
Qed.

Lemma all_chars_impl (p q : ascii -> bool) (s : string) :
  (forall c, p c = true -> q c = true) ->
  all_chars p s = true -> all_chars q s = true.
Proof.
  intros Hpq. induction s as [|c s IH]; simpl; [reflexivity|].
  intros H. apply andb_true_iff in H as [Hc Hs].
  now rewrite (Hpq _ Hc), IH.
Qed.

Lemma all_chars_digits_fuel (fuel : nat) :
  forall n acc, all_chars is_digit acc = true ->
                all_chars is_digit (digits_fuel fuel n acc) = true.
Proof.
  induction fuel as [|k IH]; intros n acc Hacc; cbn [digits_fuel];
    [assumption|].
  assert (Hstep : all_chars is_digit (String (digit_char n) acc) = true).
  { cbn [all_chars]. now rewrite digit_char_is_digit. }
  destruct (n / 10 =? 0)%Z; [assumption|now apply IH].
Qed.

Lemma str_nat_digits (n : Z) : all_chars is_digit (str_nat n) = true.
Proof. now apply all_chars_digits_fuel. Qed.

Lemma str_nat_no_underscore (n : Z) :
  all_chars not_underscore (str_nat n) = true.
Proof.
  apply (all_chars_impl is_digit); [|apply str_nat_digits].
  apply is_digit_not_underscore.
Qed.

Lemma str_int_no_underscore (i : Z) :
  all_chars not_underscore (str_int i) = true.
Proof.
  unfold str_int. destruct (i <? 0)%Z; [|apply str_nat_no_underscore].
  cbn [all_chars]. now rewrite str_nat_no_underscore.
Qed.

Lemma frac_digits_digits (k : nat) (r : Z) :
  all_chars is_digit (frac_digits k r) = true.
Proof.
  induction k as [|k IH]; cbn [frac_digits all_chars]; [reflexivity|].
  now rewrite digit_char_is_digit, IH.
Qed.


Lemma strip_trailing_zeros_all (p : ascii -> bool) (s : string) :
  all_chars p s = true -> all_chars p (strip_trailing_zeros s) = true.
Proof.
  induction s as [|c s IH]; simpl; [reflexivity|].
  intros H. apply andb_true_iff in H as [Hc Hs]. specialize (IH Hs).
  destruct (strip_trailing_zeros s) as [|c' s'].
  - destruct (Ascii.eqb c "0"); simpl; now rewrite ?Hc.
  - simpl in *. now rewrite Hc, IH.
Qed.


Lemma float_char_not_underscore (c : ascii) :
  float_char c = true -> not_underscore c = true.
Proof.
  destruct c as [[] [] [] [] [] [] [] []]; vm_compute; congruence.
Qed.

Lemma digit_float_char (c : ascii) : is_digit c = true -> float_char c = true.
Proof. unfold float_char. now intros ->. Qed.

Lemma digits_float_chars (s : string) :
  all_chars is_digit s = true -> all_chars float_char s = true.
Proof. apply all_chars_impl, digit_float_char. Qed.

Lemma repr_fixed7_chars (a : Z) : all_chars float_char (repr_fixed7 a) = true.
Proof.
  unfold repr_fixed7.
  pose proof (digits_float_chars _ (str_nat_digits (a / 10 ^ 7))) as Hi.
  pose proof (digits_float_chars _
                (strip_trailing_zeros_all is_digit _
                   (frac_digits_digits 7 (a mod 10 ^ 7)))) as Hf.
  set (ip := str_nat (a / 10 ^ 7)) in *.
  set (fr := strip_trailing_zeros (frac_digits 7 (a mod 10 ^ 7))) in *.
  clearbody ip fr. rewrite !all_chars_app, Hi.
  destruct fr; [reflexivity|]. simpl in *. exact Hf.
Qed.

Lemma repr_sci7_chars (a : Z) : all_chars float_char (repr_sci7 a) = true.
Proof.
  unfold repr_sci7.
  pose proof (digits_float_chars _
                (str_nat_digits (8 - Z.of_nat (String.length (str_nat a)))))
    as He.
  pose proof (digits_float_chars _
                (strip_trailing_zeros_all is_digit _ (str_nat_digits a)))
    as Hm.
  set (e := str_nat (8 - Z.of_nat (String.length (str_nat a)))) in *.
  set (ds := strip_trailing_zeros (str_nat a)) in *.
  clearbody e ds. rewrite !all_chars_app, He.
  destruct ds as [|d [|d' rest]]; simpl in *; [reflexivity| |].
  - now rewrite Hm.
  - apply andb_true_iff in Hm as [-> Hm]. now rewrite Hm.
Qed.

Lemma str_round7_chars (x : Q) : all_chars float_char (str_round7 x) = true.
Proof.
  unfold str_round7. rewrite all_chars_app.
  apply andb_true_iff; split.
  - now destruct (Qltb x 0).
  - set (a := Z.abs (round_scaled x 7)). clearbody a.
    destruct (a =? 0)%Z; [reflexivity|].
    destruct (a <? 1000)%Z; [apply repr_sci7_chars|apply repr_fixed7_chars].
Qed.

Lemma str_round7_no_underscore (x : Q) :
  all_chars not_underscore (str_round7 x) = true.
Proof.
  apply (all_chars_impl float_char); [|apply str_round7_chars].
  apply float_char_not_underscore.
Qed.

Lemma split_on_single (s : string) :
  all_chars not_underscore s = true -> split_on underscore s = [s].
Proof.
  induction s as [|c s IH]; simpl; [reflexivity|].
  intros H. apply andb_true_iff in H as [Hc Hs].
  unfold not_underscore in Hc. apply negb_true_iff in Hc. rewrite Hc.
  now rewrite (IH Hs).
Qed.

Lemma split_on_cons (s t : string) :
  all_chars not_underscore s = true ->
  split_on underscore (s ++ String underscore t)
  = s :: split_on underscore t.
Proof.
  induction s as [|c s IH]; simpl; [reflexivity|].
  intros H. apply andb_true_iff in H as [Hc Hs].
  unfold not_underscore in Hc. apply negb_true_iff in Hc. rewrite Hc.
  now rewrite (IH Hs).
Qed.

Lemma substring_prefix (s t : string) :
  substring 0 (String.length s) (s ++ t) = s.
Proof.
  induction s as [|c s IH]; simpl.
  - now destruct t.
  - now rewrite IH.
Qed.

Lemma length_app (s t : string) :
  String.length (s ++ t) = (String.length s + String.length t)%nat.
Proof. induction s as [|c s IH]; simpl; congruence. Qed.

Lemma drop_last4_jpg (s : string) : drop_last4 (s ++ ".jpg") = s.
Proof.
  unfold drop_last4. rewrite length_app. simpl String.length.
  replace (String.length s + 4 - 4)%nat with (String.length s) by lia.
  apply substring_prefix.
Qed.


Lemma app_assoc (s t u : string) : (s ++ t) ++ u = s ++ (t ++ u).
Proof. induction s as [|c s IH]; simpl; congruence. Qed.










Lemma range_In (lo hi x : Z) : In x (range lo hi) <-> (lo <= x < hi)%Z.
Proof.
  unfold range. rewrite in_map_iff. split.
  - intros [k [<- Hk]]. apply in_seq in Hk. lia.
  - intros H. exists (Z.to_nat (x - lo)). split; [lia|].
    apply in_seq. lia.
Qed.

Lemma range_length (lo hi : Z) : List.length (range lo hi) = Z.to_nat (hi - lo).
Proof. unfold range. now rewrite length_map, length_seq. Qed.

(** [int] agrees with [floor] on a float that is not negative. *)
Lemma int_of_float_floor (q : Q) : 0 <= q -> int_of_float q = Qfloor q.
Proof.
  destruct q as [n d]. unfold Qle, int_of_float, Qfloor. simpl.
  intros H. apply Z.quot_div_nonneg; lia.
Qed.

Lemma round_half_even_nonneg (q : Q) : 0 <= q -> (0 <= round_half_even q)%Z.
Proof.
  intros H. unfold round_half_even.
  assert (Hf : (0 <= Qfloor q)%Z).
  { change 0%Z with (Qfloor 0). now apply Qfloor_resp_le. }
  destruct (Qcompare _ _); [destruct (Z.even _)| |]; lia.
Qed.

End PyFacts.

(** ** The planner *)

Module PlannerFacts.
Import Planner.
Local Open Scope py_scope.

Section WithWorld.
Context {W : World}.

Lemma grows_refl (P : event -> Prop) (s : pstate) : grows P s s.
Proof.
  split; [exists []; now rewrite app_nil_r|]. intros f Hf. now left.
Qed.

Lemma grows_trans (P : event -> Prop) (s1 s2 s3 : pstate) :
  grows P s1 s2 -> grows P s2 s3 -> grows P s1 s3.
Proof.
  intros [[e1 [H1 F1]] D1] [[e2 [H2 F2]] D2]. split.
  - exists (e1 ++ e2)%list. split.
    + now rewrite H2, H1, app_assoc.
    + now apply Forall_app.
  - intros f Hf. destruct (D2 f Hf) as [H|H]; [now apply D1|now right].
Qed.

Lemma bind_grows {A B} (P : event -> Prop) (m : M A) (k : A -> M B) :
  (forall s, grows P s (snd (m s))) ->
  (forall a s, grows P s (snd (k a s))) ->
  forall s, grows P s (snd (bind m k s)).
Proof.
  intros Hm Hk s. unfold bind. specialize (Hm s).
  destruct (m s) as [[a|e] s1]; simpl in *; [|assumption].
  eapply grows_trans; [exact Hm|apply Hk].
Qed.

(** What one pass through the loop body does, case by case. *)
Lemma cell_spec (a : args) (epsg : string) (br : geo) (ov : Q) (zoom i j : Z)
  (c : cursor) (s : pstate) :
  let wx := fst (single_img_size_m a) in
  let wy := snd (single_img_size_m a) in
  let bb := calc_bbox_m (phi c, lamda c) (wx, wy) in
  let ev := EvStitch i j (phi c, lamda c) (cx c) (cy c) zoom in
  cell a epsg br ov zoom i j c s =
  if out_of_bounds br wx wy c then (Raise OutOfBounds, s)
  else
    match collect_tiles (fst bb) (snd bb) zoom (map_type a) (res_level a) with
    | Raise e =>
        (Raise e, {| disk := disk s; trace := trace s ++ [ev] |})
    | Ok img =>
        (Ok {| cx := (cx c + step wx ov)%Q; cy := cy c; phi := phi c;
               lamda := snd (utm2geo (cx c + step wx ov)%Q (cy c) epsg) |},
         {| disk := (out_name i j c zoom, img)
                    :: filter (fun f => negb (String.eqb (fst f)
                                                (out_name i j c zoom)))
                         (disk s);
            trace := (trace s ++ [ev]) ++ [EvSave (out_name i j c zoom)] |})
    end.
Proof.
  cbv zeta. unfold cell.
  destruct (out_of_bounds _ _ _ _); [reflexivity|].
  unfold bind, emit, lift, save, ret; simpl.
  now destruct (collect_tiles _ _ _ _ _).
Qed.

Lemma cell_grows (P : event -> Prop) (a : args) (epsg : string) (br : geo)
  (ov : Q) (zoom i j : Z) (c : cursor) (s : pstate) :
  cell_events_ok P a br ->
  grows P s (snd (cell a epsg br ov zoom i j c s)).
Proof.
  intros HP. rewrite cell_spec.
  destruct (out_of_bounds _ _ _ _) eqn:E; [apply grows_refl|].
  destruct (HP i j c zoom E) as [P1 P2].
  destruct (collect_tiles _ _ _ _ _); simpl; split; simpl.
  - eexists [_; _]. split; [now rewrite <- app_assoc|].
    repeat constructor; assumption.
  - intros f [<-|Hf]; [now right|]. left.
    now apply filter_In in Hf.
  - eexists [_]. split; [reflexivity|]. repeat constructor; assumption.
  - intros f Hf. now left.
Qed.





Lemma parse_name_malformed (name : string) :
  malformed name -> parse_name name = Raise ValueError.
Proof.
  unfold malformed, parse_name.
  destruct (split_on underscore (drop_last4 name))
    as [|f1 [|f2 [|f3 [|f4 [|f5 [|f6 r]]]]]]; try reflexivity.
  intros [H|[H|[H|H]]].
  - now rewrite H.
  - rewrite H. now destruct (int_of_string f1).
  - rewrite H. now destruct (int_of_string f1), (int_of_string f2).
  - rewrite H.
    now destruct (int_of_string f1), (int_of_string f2), (float_of_string f3).
Qed.

Lemma parse_name_well_formed (name : string) :
  ~ malformed name -> exists p, parse_name name = Ok p.
Proof.
  unfold malformed, parse_name.
  destruct (split_on underscore (drop_last4 name))
    as [|f1 [|f2 [|f3 [|f4 [|f5 [|f6 r]]]]]]; try (intros H; now destruct H).
  intros H.
  destruct (int_of_string f1); [|tauto].
  destruct (int_of_string f2); [|tauto].
  destruct (float_of_string f3); [|tauto].
  destruct (float_of_string f4); [|tauto].
  eauto.
Qed.

Lemma row_cells_succ (k : nat) (i j : Z) :
  row_cells (S k) i j = ACell i j :: row_cells k (i + 1)%Z j.
Proof.
  unfold row_cells. simpl. rewrite Z.add_0_r. f_equal.
  rewrite <- seq_shift, map_map. apply map_ext. intros n. f_equal. lia.
Qed.

Lemma walk_row_actions (a : args) (epsg : string) (br : geo) (ov x_left : Q)
  (zoom : Z) :
  forall fuel i j c s,
    walk_row fuel a epsg br ov zoom i j c s
    = run_actions (row_cells fuel i j) a epsg br ov x_left zoom c s.
Proof.
  induction fuel as [|k IH]; intros i j c s; [reflexivity|].
  rewrite row_cells_succ. simpl. unfold bind.
  destruct (cell a epsg br ov zoom i j c s) as [[c'|e] s']; [apply IH|reflexivity].
Qed.

Lemma run_actions_app (a : args) (epsg : string) (br : geo) (ov x_left : Q)
  (zoom : Z) (q : list action) :
  forall p c s,
    run_actions (p ++ q) a epsg br ov x_left zoom c s
    = bind (run_actions p a epsg br ov x_left zoom c)
        (fun c' => run_actions q a epsg br ov x_left zoom c') s.
Proof.
  induction p as [|[i j|] p IH]; intros c s; simpl.
  - reflexivity.
  - unfold bind.
    destruct (cell a epsg br ov zoom i j c s) as [[c'|e] s']; [|reflexivity].
    rewrite IH. reflexivity.
  - apply IH.
Qed.

(** The nested loops run the flattened schedule. *)
Lemma walk_rows_schedule (a : args) (epsg : string) (br : geo) (ov x_left : Q)
  (zoom n_x i_last j_last : Z) :
  forall fuel j c s,
    walk_rows fuel a epsg br ov x_left zoom n_x i_last j_last j c s
    = run_actions (schedule fuel n_x i_last j_last j) a epsg br ov x_left
        zoom c s.
Proof.
  induction fuel as [|k IH]; intros j c s; [reflexivity|].
  simpl. rewrite run_actions_app. unfold bind.
  rewrite (walk_row_actions a epsg br ov x_left).
  destruct (run_actions (row_cells _ _ _) _ _ _ _ _ _ _ _) as [[c'|e] s'];
    [|reflexivity].
  simpl. apply IH.
Qed.

Lemma run_actions_grows (P : event -> Prop) (a : args) (epsg : string)
  (br : geo) (ov x_left : Q) (zoom : Z) :
  cell_events_ok P a br ->
  forall acts c s,
    grows P s (snd (run_actions acts a epsg br ov x_left zoom c s)).
Proof.
  intros HP. induction acts as [|[i j|] acts IH]; intros c s; simpl.
  - apply grows_refl.
  - apply bind_grows; intros; [now apply cell_grows|apply IH].
  - apply IH.
Qed.

Lemma within_bounds_ok (a : args) (br : geo) :
  cell_events_ok (within_bounds a br) a br.
Proof.
  intros i j c zoom E. split; [|exact I]. simpl.
  now destruct c.
Qed.


(** *** The grid [check_data] logs *)

Lemma n_raster_imgs_axis_floor (map_m single_m ov : Q) :
  0 <= map_m -> 0 < single_m -> 0 <= ov -> ov < 1 ->
  n_raster_imgs_axis map_m single_m ov
  = Ok (Qfloor (map_m / (single_m * (1 - ov)))).
Proof.
  intros Hm Hs Ho1 Ho2. unfold n_raster_imgs_axis.
  assert (Hd : 0 < single_m * (1 - ov)).
  { apply Qmult_lt_0_compat; [assumption|]. lra. }
  destruct (Qeq_bool (single_m * (1 - ov)) 0) eqn:E.
  - apply Qeq_bool_eq in E. rewrite E in Hd. now apply Qlt_irrefl in Hd.
  - f_equal. apply PyFacts.int_of_float_floor.
    apply Qle_shift_div_l; [assumption|]. now rewrite Qmult_0_l.
Qed.

Lemma np_round3_abs_nonneg (v : Q) : 0 <= np_round3 (Qabs v).
Proof.
  unfold np_round3, round_scaled.
  assert (H : (0 <= round_half_even (Qabs v * inject_Z (10 ^ Z.of_nat 3)))%Z).
  { apply PyFacts.round_half_even_nonneg.
    apply Qmult_le_0_compat; [apply Qabs_nonneg|]. now vm_compute. }
  apply Qle_shift_div_l; [reflexivity|]. rewrite Qmult_0_l.
  change 0 with (inject_Z 0). now rewrite <- Zle_Qle.
Qed.

Lemma check_data_grid (a : args) (l : log) :
  0 < fst (single_img_size_m a) -> 0 < snd (single_img_size_m a) ->
  0 <= overlap a -> overlap a < 1 ->
  check_data a = Ok l ->
  0 <= fst (map_size_m l) /\ 0 <= snd (map_size_m l)
  /\ n_raster_imgs l
     = (Qfloor (fst (map_size_m l)
                / (fst (single_img_size_m a) * (1 - overlap a))),
        Qfloor (snd (map_size_m l)
                / (snd (single_img_size_m a) * (1 - overlap a)))).
Proof.
  intros Hx Hy Ho1 Ho2. unfold check_data.
  destruct (get_zoom_from_bounds _ _); [|discriminate].
  set (epsg := get_utm_epsg _).
  set (x_m := np_round3 (Qabs (fst _ - fst _))).
  set (y_m := np_round3 (Qabs (snd _ - snd _))).
  assert (Hxm : 0 <= x_m) by apply np_round3_abs_nonneg.
  assert (Hym : 0 <= y_m) by apply np_round3_abs_nonneg.
  rewrite (n_raster_imgs_axis_floor x_m _ _ Hxm Hx Ho1 Ho2).
  rewrite (n_raster_imgs_axis_floor y_m _ _ Hym Hy Ho1 Ho2).
  destruct (collect_tiles _ _ _ _ _); [|discriminate].
  intros E. injection E as <-. cbn [map_size_m n_raster_imgs fst snd].
  now repeat split.
Qed.

(** *** What a walk that completes has stitched *)

Lemma stitched_cells_app (e1 e2 : list event) :
  stitched_cells (e1 ++ e2) = (stitched_cells e1 ++ stitched_cells e2)%list.
Proof. apply flat_map_app. Qed.

Lemma cells_from_succ (k : nat) (n_x i_last j_last j : Z) :
  cells_from (S k) n_x i_last j_last j
  = (map (fun m => (((if (j =? j_last)%Z then i_last else 0) + Z.of_nat m)%Z,
                    j))
       (seq 0 (Z.to_nat (n_x - (if (j =? j_last)%Z then i_last else 0%Z))))
     ++ cells_from k n_x i_last j_last (j + 1))%list.
Proof.
  unfold cells_from. cbn [seq flat_map]. rewrite Z.add_0_r. f_equal.
  rewrite <- seq_shift, flat_map_concat_map, map_map, <- flat_map_concat_map.
  apply flat_map_ext. intros m.
  replace (j + Z.of_nat (S m))%Z with (j + 1 + Z.of_nat m)%Z by lia.
  reflexivity.
Qed.

Section Cursors.
Variables (a : args) (epsg : string) (br : geo) (ov x_left : Q) (zoom : Z).
Let st : Q := step (fst (single_img_size_m a)) ov.

Lemma cell_ok (i j : Z) (c c' : cursor) (s s' : pstate) :
  cx c == x_left + inject_Z i * st ->
  cell a epsg br ov zoom i j c s = (Ok c', s') ->
  exists evs,
    trace s' = (trace s ++ evs)%list
    /\ stitched_cells evs = [(i, j)]
    /\ Forall (cursor_ok x_left st) evs
    /\ cx c' == x_left + inject_Z (i + 1) * st.
Proof.
  intros Hc. rewrite cell_spec. cbv zeta.
  destruct (out_of_bounds _ _ _ _); [discriminate|].
  destruct (collect_tiles _ _ _ _ _); [|discriminate].
  intros E. injection E as <- <-. cbn [trace cx].
  eexists [_; _]. split; [now rewrite <- app_assoc|].
  split; [reflexivity|]. split.
  - repeat constructor. exact Hc.
  - rewrite Hc, inject_Z_plus. fold st. ring.
Qed.

Lemma walk_row_ok (j : Z) :
  forall fuel i c s c' s',
    cx c == x_left + inject_Z i * st ->
    walk_row fuel a epsg br ov zoom i j c s = (Ok c', s') ->
    exists evs,
      trace s' = (trace s ++ evs)%list
      /\ stitched_cells evs
         = map (fun m => ((i + Z.of_nat m)%Z, j)) (seq 0 fuel)
      /\ Forall (cursor_ok x_left st) evs.
Proof.
  induction fuel as [|k IH]; intros i c s c' s' Hc.
  - intros E. injection E as <- <-. exists []. rewrite app_nil_r.
    repeat split. constructor.
  - cbn [walk_row]. unfold bind.
    destruct (cell a epsg br ov zoom i j c s) as [[c1|e] s1] eqn:E1;
      [|discriminate].
    destruct (cell_ok i j c c1 s s1 Hc E1) as (e1 & T1 & S1 & F1 & C1).
    intros E2. destruct (IH _ _ _ _ _ C1 E2) as (e2 & T2 & S2 & F2).
    exists (e1 ++ e2)%list. split; [now rewrite T2, T1, app_assoc|]. split.
    + rewrite stitched_cells_app, S1, S2.
      cbn [seq map app]. rewrite Z.add_0_r. f_equal.
      rewrite <- seq_shift, map_map. apply map_ext. intros m.
      f_equal. lia.
    + now apply Forall_app.
Qed.

Lemma walk_rows_ok (n_x i_last j_last : Z) :
  forall fuel j c s c' s',
    (j_last <= j)%Z ->
    cx c == x_left
            + inject_Z (if (j =? j_last)%Z then i_last else 0%Z) * st ->
    walk_rows fuel a epsg br ov x_left zoom n_x i_last j_last j c s
    = (Ok c', s') ->
    exists evs,
      trace s' = (trace s ++ evs)%list
      /\ stitched_cells evs = cells_from fuel n_x i_last j_last j
      /\ Forall (cursor_ok x_left st) evs.
Proof.
  induction fuel as [|k IH]; intros j c s c' s' Hj Hc.
  - intros E. injection E as <- <-. exists []. rewrite app_nil_r.
    repeat split. constructor.
  - cbn [walk_rows]. unfold bind.
    destruct (walk_row _ a epsg br ov zoom _ j c s) as [[c1|e] s1] eqn:E1;
      [|discriminate].
    destruct (walk_row_ok j _ _ c s c1 s1 Hc E1) as (e1 & T1 & S1 & F1).
    intros E2.
    assert (Hnext : cx (next_row a epsg ov x_left c1)
                    == x_left
                       + inject_Z (if (j + 1 =? j_last)%Z then i_last
                                   else 0%Z) * st).
    { destruct (Z.eqb_spec (j + 1) j_last) as [E|_]; [lia|].
      cbn [next_row cx]. ring. }
    assert (Hj' : (j_last <= j + 1)%Z) by lia.
    destruct (IH _ _ _ _ _ Hj' Hnext E2) as (e2 & T2 & S2 & F2).
    exists (e1 ++ e2)%list. split; [now rewrite T2, T1, app_assoc|]. split.
    + now rewrite stitched_cells_app, S1, S2, cells_from_succ.
    + now apply Forall_app.
Qed.

End Cursors.

Lemma cells_from_fresh (n_x n_y : Z) :
  cells_from (Z.to_nat (n_y - 0)) n_x 0 0 0 = grid n_x n_y.
Proof.
  unfold cells_from, grid, range.
  rewrite flat_map_concat_map, (flat_map_concat_map _ (map _ _)), map_map.
  f_equal. apply map_ext. intros k. cbn zeta.
  replace (if (0 + Z.of_nat k =? 0)%Z then 0%Z else 0%Z) with 0%Z
    by now destruct (_ =? _)%Z.
  rewrite map_map. reflexivity.
Qed.

End WithWorld.

(** Whenever the walk reaches a cell whose cursor fails the guard as the
    code writes it (latitude below the bottom-right latitude minus
    [raster_wx + 0.02], or longitude beyond the bottom-right longitude plus
    [raster_wy + 0.02], with [raster_wx] and [raster_wy] in metres), it
    raises [OutOfBounds] there: the state it ends in is the state in which
    it reached the cell, so nothing more is stitched and the directory is
    as the cells before left it. *)
Lemma guard_aborts_walk
  (W : World) (a : args) (epsg : string) (br : geo) (ov x_left : Q)
  (zoom n_x i_last j_last : Z) (fuel : nat) (c : cursor) (s : pstate)
  (pre post : list action) (i j : Z) (c1 : cursor) (s1 : pstate) :
  schedule fuel n_x i_last j_last j_last = (pre ++ ACell i j :: post)%list ->
  run_actions pre a epsg br ov x_left zoom c s = (Ok c1, s1) ->
  out_of_bounds br (fst (single_img_size_m a)) (snd (single_img_size_m a)) c1
  = true ->
  walk_rows fuel a epsg br ov x_left zoom n_x i_last j_last j_last c s
  = (Raise OutOfBounds, s1)
  /\ grows (within_bounds a br) s s1.
Proof.
  intros Hsched Hpre Hout. split.
  - rewrite walk_rows_schedule, Hsched, run_actions_app.
    unfold bind. rewrite Hpre. simpl. unfold bind.
    rewrite cell_spec. cbv zeta. now rewrite Hout.
  - pose proof (run_actions_grows (within_bounds a br) a epsg br ov x_left
                  zoom (within_bounds_ok a br) pre c s) as H.
    now rewrite Hpre in H.
Qed.


(** C10: when the name handed over for resumption, without its last four
    characters, is not five underscore-separated fields of which the first
    two read as integers and the next two as floats, [gen_raster_from_map]
    raises (the [ValueError] of the failed unpacking or conversion, unless
    sizing the first cell already raised) and leaves the state as it found
    it: nothing stitched, nothing saved. *)
Theorem C10_malformed_name_raises
  (W : World) (a : args) (l : log) (tlc brc : geo) (ov : Q) (name : string)
  (proceed : bool) (s : pstate) :
  malformed name ->
  gen_raster_from_map a l tlc brc ov (Some name) proceed s
  = (Raise match get_zoom_from_bounds
                   (fst (meters2geo (top_left a) (single_img_size_m a) (utm l)))
                   (snd (meters2geo (top_left a) (single_img_size_m a) (utm l)))
           with
           | Raise e => e
           | Ok _ => ValueError
           end, s).
Proof.
  intros Hbad. unfold gen_raster_from_map, bind, lift.
  destruct (get_zoom_from_bounds _ _) as [zs|e]; [|reflexivity].
  now rewrite (parse_name_malformed name Hbad).
Qed.


(** C1, as amended: for a positive cell footprint and an overlap fraction
    in [0, 1), [check_data] logs [cols = floor(W / (w (1 - o)))] and
    [rows = floor(H / (h (1 - o)))] for the rounded box size [(W, H)];
    [gen_raster_from_map] reads them from the log and never recomputes
    them: a run over an empty directory that completes has stitched exactly
    the cells of the [cols] by [rows] grid, row by row, the cell of column
    [i] at x cursor [x_left + i w (100 - o) / 100]; and with [o = 0] the
    cursor reached after the last column, [x_left + cols w], is at most [W]
    and less than one cell width short of [W] beyond [x_left]. *)
Theorem C1_grid_fixed_at_sizing
  (W : World) (a : args) (s s' : pstate) :
  0 < fst (single_img_size_m a) -> 0 < snd (single_img_size_m a) ->
  0 <= overlap a -> overlap a < 1 ->
  glob_jpg (map fst (disk s)) = [] ->
  config a true s = (Ok tt, s') ->
  exists l evs,
    check_data a = Ok l
    /\ n_raster_imgs l
       = (Qfloor (fst (map_size_m l)
                  / (fst (single_img_size_m a) * (1 - overlap a))),
          Qfloor (snd (map_size_m l)
                  / (snd (single_img_size_m a) * (1 - overlap a))))
    /\ trace s' = (trace s ++ evs)%list
    /\ stitched_cells evs
       = grid (fst (n_raster_imgs l)) (snd (n_raster_imgs l))
    /\ Forall (cursor_ok (x_left_of a l)
                 (step (fst (single_img_size_m a)) (overlap a))) evs
    /\ (overlap a == 0 ->
        inject_Z (fst (n_raster_imgs l)) * fst (single_img_size_m a)
        <= fst (map_size_m l)
        /\ fst (map_size_m l)
           < (inject_Z (fst (n_raster_imgs l)) + 1)
             * fst (single_img_size_m a)).
Proof.
  intros Hx Hy Ho1 Ho2 Hfresh Hrun.
  unfold config, bind, lift in Hrun.
  destruct (check_data a) as [l|e] eqn:El; [|discriminate].
  destruct (check_data_grid a l Hx Hy Ho1 Ho2 El) as (HW & HH & Hn).
  unfold complete_download, bind, listdir in Hrun.
  rewrite Hfresh in Hrun. cbn [NatSort.greatest] in Hrun.
  unfold gen_raster_from_map, bind, lift, ret in Hrun.
  destruct (get_zoom_from_bounds _ _) as [zs|e]; [|discriminate].
  destruct (walk_rows _ _ _ _ _ _ _ _ _ _ _ _ _) as [[c'|e] s1] eqn:Ew;
    [|discriminate].
  injection Hrun as <-.
  apply walk_rows_ok in Ew;
    [|lia|cbn [cx]; change (inject_Z (if (0 =? 0)%Z then 0%Z else 0%Z)) with 0;
          unfold x_left_of; ring].
  destruct Ew as (evs & Ht & Hs & Hf).
  exists l, evs. split; [reflexivity|]. split; [exact Hn|].
  split; [exact Ht|]. split; [now rewrite Hs, cells_from_fresh|].
  split; [exact Hf|].
  intros Ho. rewrite Hn. cbn [fst].
  set (w := fst (single_img_size_m a)) in *.
  set (Wm := fst (map_size_m l)) in *.
  assert (E : Wm / (w * (1 - overlap a)) == Wm / w).
  { rewrite Ho. field. intros Hw. rewrite Hw in Hx. now apply Qlt_irrefl in Hx. }
  rewrite (Qfloor_comp _ _ E).
  pose proof (Qfloor_le (Wm / w)) as Hlo.
  pose proof (Qlt_floor (Wm / w)) as Hhi.
  rewrite inject_Z_plus in Hhi.
  split.
  - apply (Qmult_le_r _ _ w Hx) in Hlo.
    assert (E2 : Wm / w * w == Wm).
    { field. intros Hw. rewrite Hw in Hx. now apply Qlt_irrefl in Hx. }
    now rewrite E2 in Hlo.
  - apply (Qmult_lt_r _ _ w Hx) in Hhi.
    assert (E2 : Wm / w * w == Wm).
    { field. intros Hw. rewrite Hw in Hx. now apply Qlt_irrefl in Hx. }
    now rewrite E2 in Hhi.
Qed.
End PlannerFacts.

(** ** The planner on concrete missions *)

Module DemoFacts.
Import Planner Demo PlannerFacts.
Local Open Scope string_scope.

(** C3, a fault of the code: the guard of the walk adds the cell's size in
    metres to the tolerance in degrees, and lets through what the claim
    says it stops.  With cells of 1000 m the guard is false for a cursor a
    whole degree south and a whole degree east of the bottom-right corner.
    In a run: the reference box tiled by 1000 m cells (0.01 degrees under
    the projection of [Demo.world], 100 km to the degree) with an overlap
    of 0.75 is sized at 12 by 8 cells and walked in steps of 992.5 m; the
    run returns normally after all 96 cells.  The cell of column 11 in the
    first row was stitched for a footprint whose west edge lies at
    longitude -89.800825, east of the box's east edge (-89.87) by more than
    0.02 degrees plus one cell width; the first cell of row 7 for a
    footprint whose north edge lies at latitude 35.100525, south of the
    box's south edge (35.14) by more than 0.02 degrees plus one cell
    height. *)
Theorem C3_drift_is_not_caught :
  out_of_bounds (bottom_right (mission (3 # 4))) 1000 1000
    {| cx := 0; cy := 0;
       phi := fst (bottom_right (mission (3 # 4))) - 1;
       lamda := snd (bottom_right (mission (3 # 4))) + 1 |} = false
  /\ check_data (mission (3 # 4))
     = Ok {| utm := "EPSG:32616";
             map_size_m := (3000000 # 1000, 2000000 # 1000);
             n_raster_imgs := (12%Z, 8%Z) |}
  /\ fst (config (mission (3 # 4)) true empty) = Ok tt
  /\ List.length (stitched (snd (config (mission (3 # 4)) true empty)))
     = 96%nat
  /\ footprint "11_0_35.16_-89.795825_18.jpg"
       (snd (config (mission (3 # 4)) true empty))
     = Some ((7033 # 200, -3592033 # 40000), (7031 # 200, -3591633 # 40000))%Q
  /\ (snd (bottom_right (mission (3 # 4))) + (2 # 100) + (1 # 100)
      < -3592033 # 40000)%Q
  /\ footprint "0_7_35.095525_-89.905_18.jpg"
       (snd (config (mission (3 # 4)) true empty))
     = Some ((1404021 # 40000, -8991 # 100), (1403621 # 40000, -899 # 10))%Q
  /\ (1404021 # 40000
      < fst (bottom_right (mission (3 # 4))) - (2 # 100) - (1 # 100))%Q.
Proof. repeat split; vm_compute; reflexivity. Qed.


(** A name that is not five fields stops the resumption at once. *)
Lemma C10_notes_witness :
  gen_raster_from_map (mission 0) log32 (top_left (mission 0))
    (bottom_right (mission 0)) 0 (Some "notes.jpg") true empty
  = (Raise ValueError, empty).
Proof.
  exact (C10_malformed_name_raises world (mission 0) log32
           (top_left (mission 0)) (bottom_right (mission 0)) 0 "notes.jpg"
           true empty I).
Defined.

Lemma reference_run_completes : fst (config (mission 0) true empty) = Ok tt.
Proof. vm_compute. reflexivity. Qed.

(** The reference mission over an empty directory: a 3 by 2 grid. *)
Lemma C1_reference_witness :
  exists l evs,
    check_data (mission 0) = Ok l
    /\ n_raster_imgs l
       = (Qfloor (fst (map_size_m l) / (1000 * (1 - 0))),
          Qfloor (snd (map_size_m l) / (1000 * (1 - 0))))
    /\ trace (snd (config (mission 0) true empty)) = (trace empty ++ evs)%list
    /\ stitched_cells evs
       = grid (fst (n_raster_imgs l)) (snd (n_raster_imgs l))
    /\ Forall (cursor_ok (x_left_of (mission 0) l) (step 1000 0)) evs
    /\ (0 == 0 ->
        inject_Z (fst (n_raster_imgs l)) * 1000 <= fst (map_size_m l)
        /\ fst (map_size_m l)
           < (inject_Z (fst (n_raster_imgs l)) + 1) * 1000)%Q.
Proof.
  apply (C1_grid_fixed_at_sizing world (mission 0) empty
           (snd (config (mission 0) true empty))).
  - reflexivity.
  - reflexivity.
  - discriminate.
  - reflexivity.
  - reflexivity.
  - rewrite <- reference_run_completes.
    now destruct (config (mission 0) true empty).
Defined.

(** C1, as the spec states it, fails on a box 3999 m wide tiled by 1000 m
    cells without overlap: three columns, and the footprint of the last
    cell of the first row ends at longitude -89.88, 1999 m west of the
    box's east edge, nearly two cell widths. *)
Lemma C1_wide_box_falls_short :
  check_data wide_mission
  = Ok {| utm := "EPSG:32616";
          map_size_m := (3999000 # 1000, 2000000 # 1000);
          n_raster_imgs := (3%Z, 2%Z) |}
  /\ stitched (snd (config wide_mission true empty)) = grid 3 2
  /\ footprint "2_0_35.16_-89.885_18.jpg"
       (snd (config wide_mission true empty))
     = Some ((7033 # 200, -8989 # 100), (7031 # 200, -2247 # 25))%Q
  /\ Qred ((snd (bottom_right wide_mission) - (-2247 # 25)) * scale)
     = 1999%Q.
Proof. repeat split; vm_compute; reflexivity. Qed.

(** C1 at overlap 0.5: [check_data] sizes the grid with [1 - overlap] (6
    columns for a box three cells wide), the walk steps by
    [(100 - overlap) / 100] of a cell (995 m), so the sixth cell of the
    first row starts 4975 m east of the first one, 1475 m beyond the right
    edge of the 3000 m box. *)
Theorem C1_overlap_half_overshoots :
  check_data (mission (1 # 2))
  = Ok {| utm := "EPSG:32616";
          map_size_m := (3000000 # 1000, 2000000 # 1000);
          n_raster_imgs := (6%Z, 4%Z) |}
  /\ row_cursors 0 (snd (config (mission (1 # 2)) true empty))
     = [-8990500; -8989505; -8988510; -8987515; -8986520; -8985525]%Q
  /\ Qred (fst (geo2utm (3514 # 100) (-(8987 # 100)) "EPSG:32616"))
     = (-8987000)%Q.
Proof. repeat split; vm_compute; reflexivity. Qed.

(** C2 after an interruption in the second row: the files of cells (0,0),
    (1,0), (2,0), (0,1) are there, [natsorted] ranks [2_0_..] highest, and
    the resumed run stitches cell (0,1) a second time. *)
Theorem C2_resume_restitches_cell :
  file_names interrupted
  = ["0_1_35.155_-89.905_18.jpg"; "2_0_35.16_-89.885_18.jpg";
     "1_0_35.16_-89.895_18.jpg"; "0_0_35.16_-89.9_18.jpg"]
  /\ NatSort.greatest (glob_jpg (file_names interrupted))
     = Some "2_0_35.16_-89.885_18.jpg"
  /\ stitched (snd (config (mission 0) true interrupted))
     = [(0, 1); (1, 1); (2, 1)]%Z
  /\ file_names (snd (config (mission 0) true interrupted))
     = ["2_1_35.15_-89.885_18.jpg"; "1_1_35.15_-89.895_18.jpg";
        "0_1_35.15_-89.905_18.jpg"; "0_1_35.155_-89.905_18.jpg";
        "2_0_35.16_-89.885_18.jpg"; "1_0_35.16_-89.895_18.jpg";
        "0_0_35.16_-89.9_18.jpg"].
Proof. repeat split; vm_compute; reflexivity. Qed.

End DemoFacts.

(** ** Geometry *)

Module GeoFacts.
Import Geo.
Local Open Scope R_scope.

Lemma trunc_nonneg (x : R) :
  0 <= x -> IZR (trunc x) <= x < IZR (trunc x) + 1.
Proof.
  intros Hx. unfold trunc. destruct (Rle_dec 0 x) as [_|N]; [|contradiction].
  destruct (base_Int_part x). lra.
Qed.

Lemma trunc_IZR (z : Z) : trunc (IZR z) = z.
Proof.
  unfold trunc. destruct (Rle_dec 0 (IZR z)) as [H|H].
  - symmetry. apply Int_part_spec. lra.
  - rewrite <- opp_IZR. rewrite <- (Int_part_spec (IZR (- z)) (- z)%Z); [lia|lra].
Qed.

Lemma trunc_le_max (x : R) : IZR (trunc x) <= Rmax x 0.
Proof.
  unfold trunc. destruct (Rle_dec 0 x) as [H|H].
  - destruct (base_Int_part x). rewrite Rmax_left; lra.
  - rewrite Rmax_right by lra. rewrite opp_IZR.
    destruct (base_Int_part (- x)) as [_ H2].
    assert (H3 : (0 <= Int_part (- x))%Z).
    { apply le_IZR. apply Rnot_le_lt in H.
      assert (H4 : -1 < IZR (Int_part (- x))) by lra.
      apply lt_IZR in H4. apply IZR_le. lia. }
    apply IZR_le in H3. lra.
Qed.

Lemma cos_atan_pos (a : R) : 0 < cos (atan a).
Proof. destruct (atan_bound a). apply cos_gt_0; lra. Qed.

Lemma sin_atan (a : R) : sin (atan a) = a * cos (atan a).
Proof.
  pose proof (cos_atan_pos a) as Hc.
  pose proof (tan_atan a) as Ht. unfold tan in Ht.
  rewrite <- Ht at 2. field. lra.
Qed.

(** C9, as amended: [get_map_dim_m] validates nothing and returns a
    footprint for every field of view, altitude and aspect ratio: width
    [d * sin(atan(ar))] and height [d * cos(atan(ar))] for the diagonal
    [d = 2 * altitude * tan(fov / 2)], so that width is [ar] times height
    and the two span the diagonal. *)
Theorem C9_footprint_for_every_input (fov_d agl_m ar : R) :
  let d := 2 * agl_m * tan (radians (fov_d / 2)) in
  exists w h,
    get_map_dim_m fov_d agl_m ar = Ok (w, h, agl_m)
    /\ w = d * sin (atan ar) /\ h = d * cos (atan ar)
    /\ w = ar * h /\ w * w + h * h = d * d.
Proof.
  cbv zeta. eexists _, _. split; [reflexivity|].
  split; [reflexivity|]. split; [reflexivity|]. split.
  - rewrite sin_atan. ring.
  - pose proof (sin2_cos2 (atan ar)) as H. unfold Rsqr in H.
    transitivity ((2 * agl_m * tan (radians (fov_d / 2)))
                  * (2 * agl_m * tan (radians (fov_d / 2)))
                  * (sin (atan ar) * sin (atan ar)
                     + cos (atan ar) * cos (atan ar))); [ring|].
    rewrite H. ring.
Qed.

(** C9, as the spec states it, fails at altitude -100 m (field of view 90
    degrees, square aspect): no error, a footprint of negative width and
    height. *)
Lemma C9_negative_altitude_returns :
  match get_map_dim_m 90 (-100) 1 with
  | Ok (w, h, z) => w < 0 /\ h < 0 /\ z = -100
  | Raise _ => False
  end.
Proof.
  unfold get_map_dim_m, radians.
  replace (90 / 2 * PI / 180) with (PI / 4) by field.
  rewrite tan_PI4, atan_1, sin_PI4, cos_PI4.
  assert (Hs : 0 < 1 / sqrt 2).
  { apply Rdiv_lt_0_compat; [lra|]. apply sqrt_lt_R0. lra. }
  repeat split; nra.
Qed.

Lemma flat_map_const_length {A B} (f : A -> list B) (n : nat) (l : list A) :
  (forall x, List.length (f x) = n) ->
  List.length (flat_map f l) = (List.length l * n)%nat.
Proof.
  intros Hf. induction l as [|x l IH]; simpl; [reflexivity|].
  now rewrite length_app, Hf, IH.
Qed.

(** On the equator the Mercator ordinate is the middle of the map. *)
Lemma generate_tile_info_equator (lon : R) (zoom : Z) :
  let n := powerRZ 2 zoom in
  let tx := (lon + 180) / 360 * n in
  let ty := (1 - 0 / PI) / 2 * n in
  generate_tile_info (0, lon) zoom
  = Ok (trunc tx, trunc ty, trunc (tx * 256 - IZR (trunc tx) * 256),
        trunc (ty * 256 - IZR (trunc ty) * 256)).
Proof.
  cbv zeta. unfold generate_tile_info. cbn [fst snd].
  replace (radians 0) with 0 by (unfold radians; lra).
  rewrite tan_0, cos_0.
  destruct (Req_dec_T 1 0) as [E|_]; [lra|].
  destruct (Rle_dec (0 + 1 / 1) 0) as [E|_]; [lra|].
  replace (0 + 1 / 1) with 1 by lra. rewrite ln_1. reflexivity.
Qed.

Lemma tile_info_0_0_zoom1 : generate_tile_info (0, 0) 1 = Ok (1, 1, 0, 0)%Z.
Proof.
  rewrite generate_tile_info_equator. cbv zeta.
  replace ((0 + 180) / 360 * powerRZ 2 1) with (IZR 1) by (simpl; field).
  replace ((1 - 0 / PI) / 2 * powerRZ 2 1) with (IZR 1)
    by (simpl; field; apply PI_neq0).
  rewrite !trunc_IZR.
  replace (1 * 256 - 1 * 256) with (IZR 0) by ring.
  now rewrite !trunc_IZR.
Qed.

Lemma tile_info_equator_zoom2 (lon : R) (k : Z) :
  lon = IZR k * 90 - 180 ->
  generate_tile_info (0, lon) 2 = Ok (k, 2, 0, 0)%Z.
Proof.
  intros ->. rewrite generate_tile_info_equator. cbv zeta.
  replace ((IZR k * 90 - 180 + 180) / 360 * powerRZ 2 2) with (IZR k)
    by (simpl; field).
  replace ((1 - 0 / PI) / 2 * powerRZ 2 2) with (IZR 2)
    by (simpl; field; apply PI_neq0).
  rewrite !trunc_IZR.
  replace (IZR k * 256 - IZR k * 256) with (IZR 0) by ring.
  replace (2 * 256 - 2 * 256) with (IZR 0) by ring.
  now rewrite !trunc_IZR.
Qed.

(** C7: when the tile indices of both corners exist at the zoom
    [z = min(zoom + resolution, 22)] and neither index span plus one is
    negative, [collect_tiles] returns, and it has worked at zoom [z]
    throughout: the column and the row of each corner are the integer
    parts of [(lon + 180) / 360 * 2^z] and of
    [(1 - ln (tan lat + 1 / cos lat) / PI) / 2 * 2^z]; the canvas it
    allocated measures 256 px times the index span plus one on each axis;
    and the requests it submitted are exactly the tiles of the index
    rectangle between the two corners, each at zoom [z]. *)
Theorem C7_effective_zoom_and_canvas
  (tl br : R * R) (zoom : Z) (map_type : string) (resolution : Z)
  (tl_x tl_y tl_px tl_py br_x br_y br_px br_py : Z) :
  let z := Z.min (zoom + resolution) 22 in
  generate_tile_info tl z = Ok (tl_x, tl_y, tl_px, tl_py) ->
  generate_tile_info br z = Ok (br_x, br_y, br_px, br_py) ->
  (0 <= br_x - tl_x + 1)%Z -> (0 <= br_y - tl_y + 1)%Z ->
  exists st,
    collect_tiles tl br zoom map_type resolution = Ok st
    /\ effective_zoom st = z
    /\ tl_info st = (tl_x, tl_y, tl_px, tl_py)
    /\ br_info st = (br_x, br_y, br_px, br_py)
    /\ tl_x = trunc ((snd tl + 180) / 360 * powerRZ 2 z)
    /\ br_x = trunc ((snd br + 180) / 360 * powerRZ 2 z)
    /\ tl_y = trunc ((1 - ln (tan (radians (fst tl))
                              + 1 / cos (radians (fst tl))) / PI)
                     / 2 * powerRZ 2 z)
    /\ br_y = trunc ((1 - ln (tan (radians (fst br))
                              + 1 / cos (radians (fst br))) / PI)
                     / 2 * powerRZ 2 z)
    /\ canvas st = ((br_x - tl_x + 1) * 256, (br_y - tl_y + 1) * 256)%Z
    /\ forall r,
         In r (requests st)
         <-> (request_zoom r = z /\ request_map_type r = map_type
              /\ tl_x <= tile_id_x r <= br_x
              /\ tl_y <= tile_id_y r <= br_y)%Z.
Proof.
  intros z Htl Hbr Hx Hy.
  assert (Hidx : forall loc x y px py,
             generate_tile_info loc z = Ok (x, y, px, py) ->
             x = trunc ((snd loc + 180) / 360 * powerRZ 2 z)
             /\ y = trunc ((1 - ln (tan (radians (fst loc))
                                    + 1 / cos (radians (fst loc))) / PI)
                           / 2 * powerRZ 2 z)).
  { intros loc x y px py. unfold generate_tile_info. cbv zeta.
    destruct (Req_dec_T _ 0); [discriminate|].
    destruct (Rle_dec _ 0); [discriminate|].
    intros E. injection E as <- <- _ _. split; reflexivity. }
  destruct (Hidx _ _ _ _ _ Htl) as [Etx Ety].
  destruct (Hidx _ _ _ _ _ Hbr) as [Ebx Eby].
  unfold collect_tiles. fold z. rewrite Htl, Hbr.
  assert (E : (((br_x - tl_x + 1) * 256 <? 0)
               || ((br_y - tl_y + 1) * 256 <? 0))%Z = false).
  { apply orb_false_iff. split; apply Z.ltb_ge; lia. }
  rewrite E. eexists. split; [reflexivity|].
  cbn [effective_zoom tl_info br_info canvas requests].
  do 8 (split; [reflexivity || assumption|]).
  intros r. split.
  - intros Hin. apply in_flat_map in Hin as [ty [Hty Hin]].
    apply in_map_iff in Hin as [tx [<- Htx]]. cbn.
    apply PyFacts.range_In in Hty, Htx. repeat split; lia.
  - intros (Hz & Hm & Hrx & Hry). apply in_flat_map.
    exists (tile_id_y r). split; [apply PyFacts.range_In; lia|].
    apply in_map_iff. exists (tile_id_x r).
    split; [|apply PyFacts.range_In; lia].
    destruct r as [rx ry rz rm]. cbn in *. now subst.
Qed.

(** A strip along the equator from longitude -90 to 0, asked for at zoom 1
    with one level of extra resolution: two tiles of zoom 2 side by
    side. *)
Lemma C7_equator_strip_witness :
  exists st,
    collect_tiles (0, -90) (0, 0) 1 "satellite" 1 = Ok st
    /\ effective_zoom st = Z.min (1 + 1) 22
    /\ tl_info st = (1, 2, 0, 0)%Z
    /\ br_info st = (2, 2, 0, 0)%Z
    /\ 1%Z = trunc ((-90 + 180) / 360 * powerRZ 2 (Z.min (1 + 1) 22))
    /\ 2%Z = trunc ((0 + 180) / 360 * powerRZ 2 (Z.min (1 + 1) 22))
    /\ 2%Z = trunc ((1 - ln (tan (radians 0) + 1 / cos (radians 0)) / PI)
                    / 2 * powerRZ 2 (Z.min (1 + 1) 22))
    /\ 2%Z = trunc ((1 - ln (tan (radians 0) + 1 / cos (radians 0)) / PI)
                    / 2 * powerRZ 2 (Z.min (1 + 1) 22))
    /\ canvas st = ((2 - 1 + 1) * 256, (2 - 2 + 1) * 256)%Z
    /\ forall r,
         In r (requests st)
         <-> (request_zoom r = Z.min (1 + 1) 22
              /\ request_map_type r = "satellite"%string
              /\ 1 <= tile_id_x r <= 2
              /\ 2 <= tile_id_y r <= 2)%Z.
Proof.
  apply (C7_effective_zoom_and_canvas (0, -90) (0, 0) 1 "satellite" 1
           1 2 0 0 2 2 0 0).
  - apply tile_info_equator_zoom2. simpl. lra.
  - apply tile_info_equator_zoom2. simpl. lra.
  - lia.
  - lia.
Defined.

(** C8, as amended: [collect_tiles] has no geometry check of its own.  With
    [n_x], [n_y] the index spans plus one: a negative one makes the canvas
    allocation raise [ValueError] and no request is submitted; otherwise the
    call returns, having submitted [n_x * n_y] requests, none when a span
    plus one is zero. *)
Theorem C8_no_geometry_check
  (tl br : R * R) (zoom : Z) (map_type : string) (resolution : Z)
  (tl_x tl_y tl_px tl_py br_x br_y br_px br_py : Z) :
  generate_tile_info tl (Z.min (zoom + resolution) 22)
  = Ok (tl_x, tl_y, tl_px, tl_py) ->
  generate_tile_info br (Z.min (zoom + resolution) 22)
  = Ok (br_x, br_y, br_px, br_py) ->
  let n_x := (br_x - tl_x + 1)%Z in
  let n_y := (br_y - tl_y + 1)%Z in
  ((n_x < 0 \/ n_y < 0)%Z ->
   collect_tiles tl br zoom map_type resolution = Raise ValueError)
  /\ ((0 <= n_x)%Z -> (0 <= n_y)%Z ->
      exists st,
        collect_tiles tl br zoom map_type resolution = Ok st
        /\ canvas st = (n_x * 256, n_y * 256)%Z
        /\ List.length (requests st) = (Z.to_nat n_y * Z.to_nat n_x)%nat).
Proof.
  intros Htl Hbr n_x n_y. unfold collect_tiles. rewrite Htl, Hbr.
  fold n_x n_y. split.
  - intros Hneg.
    assert (E : ((n_x * 256 <? 0) || (n_y * 256 <? 0))%Z = true).
    { apply orb_true_iff. destruct Hneg; [left|right]; apply Z.ltb_lt; lia. }
    now rewrite E.
  - intros Hx Hy.
    assert (E : ((n_x * 256 <? 0) || (n_y * 256 <? 0))%Z = false).
    { apply orb_false_iff. split; apply Z.ltb_ge; lia. }
    rewrite E. eexists. split; [reflexivity|]. split; [reflexivity|].
    cbn [requests].
    rewrite (flat_map_const_length _ (Z.to_nat n_x)).
    + rewrite PyFacts.range_length. f_equal. unfold n_y. lia.
    + intros ty. rewrite length_map, PyFacts.range_length. unfold n_x. lia.
Qed.

(** A box whose corners are swapped in longitude: the canvas would be
    -256 px wide, and the allocation raises. *)
Lemma C8_swapped_corners_witness :
  ((1 - 3 + 1 < 0 \/ 2 - 2 + 1 < 0)%Z ->
   collect_tiles (0, 90) (0, -90) 2 "satellite" 0 = Raise ValueError)
  /\ ((0 <= 1 - 3 + 1)%Z -> (0 <= 2 - 2 + 1)%Z ->
      exists st,
        collect_tiles (0, 90) (0, -90) 2 "satellite" 0 = Ok st
        /\ canvas st = ((1 - 3 + 1) * 256, (2 - 2 + 1) * 256)%Z
        /\ List.length (requests st)
           = (Z.to_nat (2 - 2 + 1) * Z.to_nat (1 - 3 + 1))%nat).
Proof.
  apply (C8_no_geometry_check (0, 90) (0, -90) 2 "satellite" 0
           3 2 0 0 1 2 0 0).
  - apply tile_info_equator_zoom2. simpl. lra.
  - apply tile_info_equator_zoom2. simpl. lra.
Defined.

(** C8, as the spec states it, fails on two degenerate boxes: a single
    point is stitched from one tile and cropped to nothing, and corners
    that give a tile count of zero yield an empty canvas; neither raises. *)
Lemma C8_degenerate_boxes_return :
  collect_tiles (0, 0) (0, 0) 1 "satellite" 0
  = Ok {| effective_zoom := 1; tl_info := (1, 1, 0, 0)%Z;
          br_info := (1, 1, 0, 0)%Z; canvas := (256, 256)%Z;
          requests := [{| tile_id_x := 1; tile_id_y := 1; request_zoom := 1;
                          request_map_type := "satellite" |}];
          crop_box := (0, 0, 0, 0)%Z |}
  /\ collect_tiles (0, 0) (0, -90) 2 "satellite" 0
     = Ok {| effective_zoom := 2; tl_info := (2, 2, 0, 0)%Z;
             br_info := (1, 2, 0, 0)%Z; canvas := (0, 256)%Z;
             requests := []; crop_box := (0, 0, 256, 0)%Z |}.
Proof.
  split; unfold collect_tiles.
  - change (Z.min (1 + 0) 22) with 1%Z. rewrite tile_info_0_0_zoom1.
    reflexivity.
  - change (Z.min (2 + 0) 22) with 2%Z.
    rewrite (tile_info_equator_zoom2 0 2) by (simpl; lra).
    rewrite (tile_info_equator_zoom2 (-90) 1) by (simpl; lra).
    reflexivity.
Qed.

Lemma ln2_pos : 0 < ln 2.
Proof. pose proof ln_lt_2. lra. Qed.

Lemma Rpower2_zoom (m S : R) :
  0 < m -> 0 < S -> Rpower 2 (- log2 (m / S) - 1) = S / (2 * m).
Proof.
  intros Hm HS. pose proof ln2_pos as H2.
  assert (Hq : 0 < m / S) by (apply Rdiv_lt_0_compat; assumption).
  unfold Rpower, log2.
  replace ((- (ln (m / S) / ln 2) - 1) * ln 2) with (- ln (m / S) + - ln 2)
    by (field; lra).
  rewrite exp_plus, !exp_Ropp, !exp_ln by lra. field. lra.
Qed.

Lemma powerRZ2_mono (a b : Z) : (a <= b)%Z -> powerRZ 2 a <= powerRZ 2 b.
Proof.
  intros H. rewrite !powerRZ_Rpower by lra.
  apply Rle_Rpower; [lra|now apply IZR_le].
Qed.

(** The zoom the source computes is the tightest one when the box, at zoom
    0, already fits the canvas. *)
Lemma zoom_tight (m S : R) :
  0 < m -> 0 < S -> 2 * m <= S ->
  let z := trunc (- log2 (m / S) - 1) in
  (0 <= z)%Z /\ 2 * m * powerRZ 2 z <= S < 2 * m * powerRZ 2 (z + 1).
Proof.
  intros Hm HS Hfit. cbv zeta.
  set (t := - log2 (m / S) - 1).
  pose proof (Rpower2_zoom m S Hm HS) as Ht. fold t in Ht.
  assert (Hratio : 1 <= S / (2 * m)).
  { apply (Rmult_le_reg_r (2 * m)); [lra|]. field_simplify; lra. }
  assert (Ht0 : 0 <= t).
  { destruct (Rle_dec 0 t) as [H|H]; [assumption|exfalso].
    apply Rnot_le_lt in H.
    pose proof (Rpower_lt 2 t 0 ltac:(lra) H) as Hlt.
    rewrite Rpower_O in Hlt by lra. lra. }
  destruct (trunc_nonneg t Ht0) as [Hlo Hhi].
  assert (Hz : (0 <= trunc t)%Z).
  { assert (H : -1 < IZR (trunc t)) by lra. apply lt_IZR in H. lia. }
  assert (Hp1 : powerRZ 2 (trunc t) <= S / (2 * m)).
  { rewrite powerRZ_Rpower by lra. rewrite <- Ht.
    apply Rle_Rpower; lra. }
  assert (Hp2 : S / (2 * m) < powerRZ 2 (trunc t + 1)).
  { rewrite powerRZ_Rpower by lra. rewrite <- Ht, plus_IZR.
    apply Rpower_lt; lra. }
  split; [assumption|]. split.
  - apply (Rmult_le_compat_l (2 * m)) in Hp1; [|lra].
    replace (2 * m * (S / (2 * m))) with S in Hp1 by (field; lra). exact Hp1.
  - apply (Rmult_lt_compat_l (2 * m)) in Hp2; [|lra].
    replace (2 * m * (S / (2 * m))) with S in Hp2 by (field; lra). exact Hp2.
Qed.

Lemma get_zoom_from_bounds_eq (C : Consts) (tl br : R * R) (bound : Z) :
  let hp := half_pw C tl br in
  0 < tile_size C -> 0 < Rmax (fst hp) (snd hp) ->
  get_zoom_from_bounds C tl br bound
  = if (zoom_of C hp >? bound)%Z then Raise OutOfBounds
    else Ok (zoom_of C hp,
             (trunc (fst hp * powerRZ 2 (zoom_of C hp + 1)),
              trunc (snd hp * powerRZ 2 (zoom_of C hp + 1)))).
Proof.
  cbv zeta. intros HS Hm. unfold get_zoom_from_bounds.
  destruct (Req_dec_T (tile_size C) 0) as [E|_]; [lra|].
  destruct (Rle_dec _ 0) as [E|_]; [|reflexivity].
  exfalso. apply (Rdiv_lt_0_compat _ _ Hm) in HS. lra.
Qed.

Lemma ln_le_minus_1 (y : R) : 1 <= y -> ln y <= y - 1.
Proof.
  intros Hy. destruct (Req_dec_T (ln y) 0) as [E|E]; [lra|].
  pose proof (exp_ineq1 (ln y) E) as H. rewrite exp_ln in H by lra. lra.
Qed.

(** The Mercator term of [latlonToPt] just north of the equator. *)
Lemma mercator_small (lat : R) :
  0 < lat <= 1 ->
  let a := Rmin (Rmax (sin (radians lat)) (- (1 - 1e-15))) (1 - 1e-15) in
  0 < ln ((1 + a) / (1 - a)) <= lat / 10.
Proof.
  intros [Hlo Hhi]. cbv zeta.
  pose proof PI_4 as P4. pose proof PI2_3_2 as P3.
  assert (Hx : 0 < radians lat <= 1 / 45).
  { unfold radians. split; [nra|]. nra. }
  assert (Hs : 0 < sin (radians lat) < 1 / 45).
  { split; [apply sin_gt_0; lra|].
    pose proof (sin_lt_x (radians lat) ltac:(lra)). lra. }
  rewrite Rmax_left by lra. rewrite Rmin_left by lra.
  set (a := sin (radians lat)) in *.
  assert (Ha : a < lat / 45).
  { pose proof (sin_lt_x (radians lat) ltac:(lra)) as H. fold a in H.
    unfold radians in H. nra. }
  assert (Hy : 1 < (1 + a) / (1 - a)).
  { apply (Rmult_lt_reg_r (1 - a)); [lra|]. field_simplify; lra. }
  split.
  - rewrite <- ln_1. apply ln_increasing; lra.
  - pose proof (ln_le_minus_1 _ (Rlt_le _ _ Hy)) as H.
    assert (Hb : (1 + a) / (1 - a) - 1 <= lat / 10).
    { replace ((1 + a) / (1 - a) - 1) with (2 * a / (1 - a)) by (field; lra).
      apply (Rmult_le_reg_r (1 - a)); [lra|]. field_simplify; [|lra]. nra. }
    lra.
Qed.

Lemma mercator_equator :
  let a := Rmin (Rmax (sin (radians 0)) (- (1 - 1e-15))) (1 - 1e-15) in
  ln ((1 + a) / (1 - a)) = 0.
Proof.
  cbv zeta. replace (radians 0) with 0 by (unfold radians; lra).
  rewrite sin_0, Rmax_left by lra. rewrite Rmin_left by lra.
  replace ((1 + 0) / (1 - 0)) with 1 by field. apply ln_1.
Qed.

(** Half the pixel extent, at zoom 0, of a box from just north of the
    equator down to it. *)
Lemma half_pw_near_equator (lat lon : R) :
  0 < lat <= 1 ->
  fst (half_pw consts_ref (lat, 0) (0, lon)) = lon * (256 / 360) / 2
  /\ 0 < snd (half_pw consts_ref (lat, 0) (0, lon)) <= 11 / 10 * lat.
Proof.
  intros Hlat. unfold half_pw, latlonToPt. cbn [fst snd consts_ref tile_center_p
    pixel_per_degree pixel_per_radian].
  pose proof (mercator_small lat Hlat) as Hm. cbv zeta in Hm.
  pose proof mercator_equator as H0. cbv zeta in H0. rewrite H0.
  set (L := ln _) in *.
  pose proof PI_4 as P4. pose proof PI2_3_2 as P3.
  replace (256 / (2 * PI)) with (128 * / PI) by (field; lra).
  assert (Hp : 0 < / PI < / 3).
  { split; [apply Rinv_0_lt_compat; lra|].
    apply Rinv_lt_contravar; nra. }
  set (p := / PI) in *.
  assert (H1 : 0 < L * p) by (apply Rmult_lt_0_compat; lra).
  assert (H2 : L * p <= lat / 10 * / 3)
    by (apply Rmult_le_compat; lra).
  split; [lra|]. split; lra.
Qed.

Lemma exp_nat_pow (n : nat) : exp (INR n) = exp 1 ^ n.
Proof.
  induction n as [|n IH]; [simpl; apply exp_0|].
  rewrite S_INR, exp_plus, IH. simpl. ring.
Qed.

Lemma PI_le_315 : PI <= 3.15.
Proof.
  pose proof (PI_2_3_7_ineq 1) as [_ H].
  unfold sum_f_R0, tg_alt, PI_2_3_7_tg, Ratan_seq in H. simpl in H. lra.
Qed.

Lemma trunc_between (x : R) (k : Z) :
  (0 <= k)%Z -> IZR k <= x < IZR k + 1 -> trunc x = k.
Proof.
  intros Hk Hx. assert (H0 : 0 <= IZR k) by (apply IZR_le; lia).
  unfold trunc. destruct (Rle_dec 0 x) as [_|N]; [|lra].
  symmetry. apply Int_part_spec. lra.
Qed.

Lemma trunc_neg_between (x : R) (k : Z) :
  x < 0 -> IZR k <= - x < IZR k + 1 -> trunc x = (- k)%Z.
Proof.
  intros Hx Hk. unfold trunc. destruct (Rle_dec 0 x) as [H|_]; [lra|].
  f_equal. symmetry. apply Int_part_spec. lra.
Qed.

(** The zoom the source computes, when a zoom fits with room on both
    sides. *)
Lemma zoom_unique (m S : R) (z : Z) :
  0 < S -> (0 <= z)%Z ->
  2 * m * powerRZ 2 z < S < 2 * m * powerRZ 2 (z + 1) ->
  0 < m /\ trunc (- log2 (m / S) - 1) = z.
Proof.
  intros HS Hz [Hlo Hhi].
  assert (Hp1 : 0 < powerRZ 2 (z + 1)) by (apply powerRZ_lt; lra).
  assert (Hm : 0 < m) by nra.
  split; [exact Hm|].
  assert (H1 : 1 <= powerRZ 2 z).
  { change 1 with (powerRZ 2 0). apply powerRZ2_mono. exact Hz. }
  assert (Hfit : 2 * m <= S) by nra.
  destruct (zoom_tight m S Hm HS Hfit) as [Hz0 [Hlo0 Hhi0]].
  set (z0 := trunc (- log2 (m / S) - 1)) in *.
  destruct (Z_lt_le_dec z0 z) as [Hlt|Hge].
  - exfalso.
    assert (Hp : powerRZ 2 (z0 + 1) <= powerRZ 2 z)
      by (apply powerRZ2_mono; lia).
    nra.
  - destruct (Z_lt_le_dec z z0) as [Hlt|Hle]; [|lia].
    exfalso.
    assert (Hp : powerRZ 2 (z + 1) <= powerRZ 2 z0)
      by (apply powerRZ2_mono; lia).
    nra.
Qed.

(** C4, as amended: when the larger half extent [m] of the box at zoom 0
    fits the canvas at a zoom [z >= 0] with room on both sides
    ([2 m 2^z < tile_size < 2 m 2^(z+1)]: [z] is the tightest fit and the
    fit is not exact), [get_zoom_from_bounds] raises [OutOfBounds] if [z]
    exceeds [zoom_bound] and otherwise returns [z] with two sizes that are
    at most [tile_size]. *)
Theorem C4_zoom_is_tightest_fit
  (C : Consts) (top_left bottom_right : R * R) (zoom_bound z : Z) :
  let hp := half_pw C top_left bottom_right in
  let m := Rmax (fst hp) (snd hp) in
  0 < tile_size C -> (0 <= z)%Z ->
  2 * m * powerRZ 2 z < tile_size C < 2 * m * powerRZ 2 (z + 1) ->
  ((zoom_bound < z)%Z ->
   get_zoom_from_bounds C top_left bottom_right zoom_bound
   = Raise OutOfBounds)
  /\ ((z <= zoom_bound)%Z ->
      exists img_w img_h,
        get_zoom_from_bounds C top_left bottom_right zoom_bound
        = Ok (z, (img_w, img_h))
        /\ IZR img_w <= tile_size C /\ IZR img_h <= tile_size C).
Proof.
  cbv zeta. intros HS Hz Hfit.
  set (hp := half_pw C top_left bottom_right) in *.
  destruct (zoom_unique _ _ z HS Hz Hfit) as [Hm Ez].
  fold (zoom_of C hp) in Ez.
  pose proof (get_zoom_from_bounds_eq C top_left bottom_right zoom_bound)
    as Heq.
  cbv zeta in Heq. fold hp in Heq. rewrite (Heq HS Hm), Ez. clear Heq.
  split.
  - intros Hb. destruct (Z.gtb_spec z zoom_bound); [reflexivity|lia].
  - intros Hb. destruct (Z.gtb_spec z zoom_bound); [lia|].
    eexists _, _. split; [reflexivity|].
    assert (Hpow : powerRZ 2 (z + 1) = 2 * powerRZ 2 z).
    { rewrite powerRZ_add by lra. simpl. ring. }
    assert (Hp : 0 < powerRZ 2 z) by (apply powerRZ_lt; lra).
    assert (Hside : forall h, h <= Rmax (fst hp) (snd hp) ->
              IZR (trunc (h * powerRZ 2 (z + 1))) <= tile_size C).
    { intros h Hh. etransitivity; [apply trunc_le_max|].
      apply Rmax_lub; [|lra]. rewrite Hpow. nra. }
    split; apply Hside; [apply Rmax_l|apply Rmax_r].
Qed.

(** A box 45 degrees wide on the equator, one millionth of a degree high:
    half extents 16 px and less than 2e-6 px; 512 px wide at zoom 4, 1024
    at zoom 5. *)
Lemma C4_wide_box_witness :
  ((22 < 4)%Z ->
   get_zoom_from_bounds consts_ref (1e-6, 0) (0, 45) 22 = Raise OutOfBounds)
  /\ ((4 <= 22)%Z ->
      exists img_w img_h,
        get_zoom_from_bounds consts_ref (1e-6, 0) (0, 45) 22
        = Ok (4%Z, (img_w, img_h))
        /\ IZR img_w <= 640 /\ IZR img_h <= 640).
Proof.
  destruct (half_pw_near_equator 1e-6 45 ltac:(lra)) as [Hx Hy].
  assert (Em : Rmax (fst (half_pw consts_ref (1e-6, 0) (0, 45)))
                    (snd (half_pw consts_ref (1e-6, 0) (0, 45))) = 16).
  { rewrite Rmax_left by lra. rewrite Hx. lra. }
  apply (C4_zoom_is_tightest_fit consts_ref (1e-6, 0) (0, 45) 22 4).
  - simpl. lra.
  - lia.
  - rewrite Em. simpl. lra.
Defined.

(** The box from the north pole to the south pole, 10 degrees wide: the
    clamp of [latlonToPt] puts the two latitudes [ln (2e15 - 1) * 64 / PI]
    px from the equator. *)
Lemma polar_half_pw :
  fst (half_pw consts_ref (90, 0) (-90, 10)) = 10 * (256 / 360) / 2
  /\ 642 <= snd (half_pw consts_ref (90, 0) (-90, 10)) < 1280.
Proof.
  pose proof PI_le_315 as P1. pose proof PI2_3_2 as P3.
  unfold half_pw, latlonToPt.
  cbn [fst snd consts_ref tile_center_p pixel_per_degree pixel_per_radian].
  replace (radians 90) with (PI / 2) by (unfold radians; field).
  replace (radians (-90)) with (- (PI / 2)) by (unfold radians; field).
  rewrite sin_neg, sin_PI2.
  rewrite (Rmax_left 1) by lra. rewrite (Rmin_right 1) by lra.
  rewrite (Rmax_right (-1)) by lra. rewrite (Rmin_left (- (1 - 1e-15))) by lra.
  assert (E1 : (1 + (1 - 1e-15)) / (1 - (1 - 1e-15)) = 1999999999999999).
  { replace (1 - (1 - 1e-15)) with (1e-15) by lra. lra. }
  assert (E2 : (1 + - (1 - 1e-15)) / (1 - - (1 - 1e-15))
               = / 1999999999999999).
  { replace (1 + - (1 - 1e-15)) with (1e-15) by lra.
    replace (1 - - (1 - 1e-15)) with (1999999999999999 * 1e-15) by lra.
    field. }
  rewrite E1, E2. clear E1 E2.
  set (X := 1999999999999999).
  assert (EX : X = 1999999999999999) by reflexivity.
  assert (HX : 0 < X) by lra.
  rewrite (ln_Rinv X HX).
  assert (Hlo : 32 <= ln X).
  { assert (E32 : exp 32 <= 3 ^ 32).
    { replace 32 with (INR 32) by (simpl; lra).
      rewrite exp_nat_pow. apply pow_incr. split; [left; apply exp_pos|].
      apply exp_le_3. }
    assert (H3 : (3 : R) ^ 32 = 1853020188851841) by (simpl; lra).
    rewrite <- (ln_exp 32). left. apply ln_increasing; [apply exp_pos|lra]. }
  assert (Hhi : ln X < 51).
  { assert (E51 : 2 ^ 51 <= exp 51).
    { replace 51 with (INR 51) by (simpl; lra).
      rewrite exp_nat_pow. apply pow_incr. split; [lra|].
      pose proof (exp_ineq1 1 ltac:(lra)). lra. }
    assert (H2 : (2 : R) ^ 51 = 2251799813685248) by (simpl; lra).
    rewrite <- (ln_exp 51). apply ln_increasing; lra. }
  set (L := ln X) in *. clearbody L.
  assert (Hp : / 3.15 <= / PI < / 3).
  { split; [apply Rinv_le_contravar; lra|apply Rinv_lt_contravar; nra]. }
  replace (256 / (2 * PI)) with (128 * / PI) by (field; lra).
  set (p := / PI) in *. clearbody p.
  split; [lra|]. split; nra.
Qed.

(** C4, as the spec states it, fails on a box larger than the canvas at
    zoom 0: [int()] truncates the negative zoom toward zero.  From pole to
    pole the function returns zoom -1 with a height beyond the 640 px of
    the canvas. *)
Lemma C4_polar_box_exceeds_canvas :
  exists img_h : Z,
    get_zoom_from_bounds consts_ref (90, 0) (-90, 10) 22
    = Ok ((-1)%Z, (3%Z, img_h))
    /\ (641 <= img_h)%Z.
Proof.
  destruct polar_half_pw as [Hx [Hy1 Hy2]].
  set (hp := half_pw consts_ref (90, 0) (-90, 10)) in *.
  assert (Em : Rmax (fst hp) (snd hp) = snd hp).
  { apply Rmax_right. rewrite Hx. lra. }
  pose proof (get_zoom_from_bounds_eq consts_ref (90, 0) (-90, 10) 22) as Heq.
  cbv zeta in Heq. fold hp in Heq.
  rewrite Heq; [|simpl; lra|rewrite Em; lra]. clear Heq.
  assert (Ez : zoom_of consts_ref hp = (-1)%Z).
  { unfold zoom_of. rewrite Em. change (tile_size consts_ref) with 640.
    pose proof ln2_pos as H2.
    assert (Hq : 1 < snd hp / 640 < 2) by (split; lra).
    assert (Hl : 0 < ln (snd hp / 640) < ln 2).
    { split; [rewrite <- ln_1|]; apply ln_increasing; lra. }
    assert (Hlog : 0 < log2 (snd hp / 640) < 1).
    { unfold log2. split.
      - apply Rdiv_lt_0_compat; lra.
      - apply (Rmult_lt_reg_r (ln 2)); [lra|].
        unfold Rdiv. rewrite Rmult_assoc, Rinv_l by lra. lra. }
    apply (trunc_neg_between _ 1); lra. }
  rewrite Ez. change (-1 >? 22)%Z with false. cbv iota.
  change (powerRZ 2 (-1 + 1)) with 1. rewrite !Rmult_1_r.
  assert (Ew : trunc (fst hp) = 3%Z).
  { apply trunc_between; [lia|]. rewrite Hx. lra. }
  rewrite Ew. exists (trunc (snd hp)). split; [reflexivity|].
  pose proof (trunc_nonneg (snd hp) ltac:(lra)) as Ht.
  assert (H : (640 < trunc (snd hp))%Z) by (apply lt_IZR; lra). lia.
Qed.

End GeoFacts.

(** ** Printing and reading integers *)

Module PyRoundTrip.
Local Open Scope string_scope.
Local Opaque Z.pow Z.div Z.modulo Z.log2.

Lemma digit_char_code (d : Z) :
  nat_of_ascii (digit_char d) = (48 + Z.to_nat (d mod 10))%nat.
Proof.
  unfold digit_char. apply nat_ascii_embedding.
  pose proof (Z.mod_pos_bound d 10 ltac:(lia)). lia.
Qed.

Lemma digits_fuel_app (fuel : nat) :
  forall n acc, digits_fuel fuel n acc = digits_fuel fuel n "" ++ acc.
Proof.
  induction fuel as [|k IH]; intros n acc; cbn [digits_fuel]; [reflexivity|].
  destruct (n / 10 =? 0)%Z; [reflexivity|].
  rewrite (IH _ (String _ acc)), (IH _ (String _ "")).
  now rewrite PyFacts.app_assoc.
Qed.

Lemma digits_value_app (s t : string) :
  forall a, digits_value (s ++ t) a
            = match digits_value s a with
              | Some v => digits_value t v
              | None => None
              end.
Proof.
  induction s as [|c s IH]; intros a; cbn [append digits_value];
    [reflexivity|].
  destruct (is_digit c); [apply IH|reflexivity].
Qed.

Lemma digits_value_digit (n a : Z) :
  digits_value (String (digit_char n) "") a = Some (10 * a + n mod 10)%Z.
Proof.
  cbn [digits_value]. rewrite PyFacts.digit_char_is_digit, digit_char_code.
  f_equal. pose proof (Z.mod_pos_bound n 10 ltac:(lia)). lia.
Qed.

Lemma digits_value_digits_fuel (fuel : nat) :
  forall n, (0 <= n < 10 ^ Z.of_nat fuel)%Z ->
            digits_value (digits_fuel fuel n "") 0 = Some n.
Proof.
  induction fuel as [|k IH]; intros n Hn.
  - change (10 ^ Z.of_nat 0)%Z with 1%Z in Hn.
    replace n with 0%Z by lia. reflexivity.
  - cbn [digits_fuel].
    replace (Z.of_nat (S k)) with (Z.of_nat k + 1)%Z in Hn by lia.
    rewrite Z.pow_add_r, Z.pow_1_r in Hn by lia.
    pose proof (Z.div_mod n 10 ltac:(lia)) as Hdm.
    pose proof (Z.mod_pos_bound n 10 ltac:(lia)) as Hm.
    destruct (Z.eqb_spec (n / 10) 0) as [E|E].
    + rewrite digits_value_digit. f_equal. lia.
    + rewrite digits_fuel_app, digits_value_app, IH.
      * rewrite digits_value_digit. f_equal. lia.
      * split; [apply Z.div_pos; lia|].
        apply Z.div_lt_upper_bound; lia.
Qed.

Lemma str_nat_value (n : Z) :
  (0 <= n)%Z -> digits_value (str_nat n) 0 = Some n.
Proof.
  intros Hn. apply digits_value_digits_fuel. split; [assumption|].
  destruct (Z.eq_dec n 0) as [->|Hz].
  - apply Z.pow_pos_nonneg; lia.
  - pose proof (Z.log2_spec n ltac:(lia)) as [_ Hlt].
    pose proof (Z.log2_nonneg n) as Hl.
    replace (Z.of_nat (S (Z.to_nat (Z.log2 n)))) with (Z.succ (Z.log2 n))
      by lia.
    eapply Z.lt_le_trans; [exact Hlt|].
    apply Z.pow_le_mono_l. lia.
Qed.

Lemma str_nat_cons (n : Z) :
  exists c r, str_nat n = String c r /\ is_digit c = true.
Proof.
  pose proof (PyFacts.str_nat_digits n) as Hd. unfold str_nat in *.
  cbn [digits_fuel] in *.
  destruct (n / 10 =? 0)%Z.
  - eexists _, _. split; [reflexivity|apply PyFacts.digit_char_is_digit].
  - rewrite digits_fuel_app in *.
    destruct (digits_fuel _ _ "") as [|c r].
    + eexists _, _. split; [reflexivity|apply PyFacts.digit_char_is_digit].
    + eexists _, _. split; [reflexivity|].
      cbn [append all_chars] in Hd. now apply andb_true_iff in Hd.
Qed.

Lemma rstrip_id (s : string) : all_chars not_space s = true -> rstrip s = s.
Proof.
  induction s as [|c s IH]; [reflexivity|].
  cbn [all_chars rstrip]. intros H. apply andb_true_iff in H as [Hc Hs].
  rewrite (IH Hs). unfold not_space in Hc. apply negb_true_iff in Hc.
  rewrite Hc. now destruct s.
Qed.

Lemma lstrip_id (s : string) : all_chars not_space s = true -> lstrip s = s.
Proof.
  destruct s as [|c s]; [reflexivity|].
  cbn [all_chars lstrip]. intros H. apply andb_true_iff in H as [Hc _].
  unfold not_space in Hc. apply negb_true_iff in Hc. now rewrite Hc.
Qed.

Lemma int_char_not_space (c : ascii) :
  is_digit c || Ascii.eqb c "-" = true -> not_space c = true.
Proof.
  destruct c as [[] [] [] [] [] [] [] []]; vm_compute; congruence.
Qed.

Lemma digit_not_sign (c : ascii) :
  is_digit c = true -> Ascii.eqb c "-" = false /\ Ascii.eqb c "+" = false.
Proof.
  destruct c as [[] [] [] [] [] [] [] []]; vm_compute; split; congruence.
Qed.

Lemma str_nat_not_space (n : Z) : all_chars not_space (str_nat n) = true.
Proof.
  apply (PyFacts.all_chars_impl is_digit); [|apply PyFacts.str_nat_digits].
  intros c Hc. apply int_char_not_space. now rewrite Hc.
Qed.

(** [int(str(i))] is [i]. *)
Lemma int_of_string_str_int (i : Z) : int_of_string (str_int i) = Some i.
Proof.
  unfold int_of_string, str_int.
  destruct (Z.ltb_spec i 0) as [Hneg|Hpos].
  - assert (Hns : all_chars not_space (String "-" (str_nat (- i))) = true).
    { cbn [all_chars]. now rewrite str_nat_not_space. }
    rewrite (rstrip_id _ Hns), (lstrip_id _ Hns).
    change (Ascii.eqb "-" "-") with true. cbv iota.
    destruct (str_nat_cons (- i)) as (c & r & E & _).
    rewrite E at 1. rewrite str_nat_value by lia. cbn [option_map].
    f_equal. lia.
  - pose proof (str_nat_not_space i) as Hns.
    rewrite (rstrip_id _ Hns), (lstrip_id _ Hns).
    destruct (str_nat_cons i) as (c & r & E & Hc).
    pose proof (str_nat_value i Hpos) as Hv. rewrite E in *.
    destruct (digit_not_sign c Hc) as [-> ->]. exact Hv.
Qed.

Lemma str_int_inj (i j : Z) : str_int i = str_int j -> i = j.
Proof.
  intros E. pose proof (int_of_string_str_int i) as Hi.
  rewrite E, int_of_string_str_int in Hi. congruence.
Qed.

End PyRoundTrip.

(** ** More on the planner *)

Module PlannerMore.
Import Planner PlannerFacts.
Local Open Scope py_scope.

Lemma NoDup_flat_map {A B} (f : A -> list B) (l : list A) :
  NoDup l ->
  (forall x, In x l -> NoDup (f x)) ->
  (forall x y b, In x l -> In y l -> x <> y -> In b (f x) -> ~ In b (f y)) ->
  NoDup (flat_map f l).
Proof.
  induction l as [|x l IH]; intros Hl Hf Hd; [constructor|].
  cbn [flat_map]. inversion Hl as [|? ? Hx Hl']; subst.
  apply NoDup_app.
  - apply Hf. now left.
  - apply IH; [assumption| |].
    + intros y Hy. apply Hf. now right.
    + intros y z b Hy Hz. apply Hd; now right.
  - intros b Hb Hin. apply in_flat_map in Hin as [y [Hy Hby]].
    apply (Hd x y b); [now left|now right| |assumption|assumption].
    intros ->. contradiction.
Qed.

Lemma NoDup_cells_from (fuel : nat) (n_x i_last j_last j : Z) :
  NoDup (cells_from fuel n_x i_last j_last j).
Proof.
  unfold cells_from. apply NoDup_flat_map.
  - apply seq_NoDup.
  - intros k _. cbn zeta.
    apply NoDup_map_NoDup_ForallPairs; [|apply seq_NoDup].
    intros m1 m2 _ _ E. injection E as E. lia.
  - intros k1 k2 b _ _ Hk H1 H2. cbn zeta in H1, H2.
    apply in_map_iff in H1 as [m1 [<- _]].
    apply in_map_iff in H2 as [m2 [E _]]. injection E as _ E. lia.
Qed.

Lemma cells_of_app (p q : list action) :
  cells_of (p ++ q) = (cells_of p ++ cells_of q)%list.
Proof. apply flat_map_app. Qed.

Lemma cells_of_row_cells (fuel : nat) (i j : Z) :
  cells_of (row_cells fuel i j)
  = map (fun m => ((i + Z.of_nat m)%Z, j)) (seq 0 fuel).
Proof.
  unfold cells_of, row_cells.
  rewrite flat_map_concat_map, map_map, <- flat_map_concat_map.
  induction (seq 0 fuel) as [|m l IH]; [reflexivity|].
  cbn [flat_map map app]. now rewrite IH.
Qed.

Lemma cells_of_schedule (n_x i_last j_last : Z) :
  forall fuel j,
    cells_of (schedule fuel n_x i_last j_last j)
    = cells_from fuel n_x i_last j_last j.
Proof.
  induction fuel as [|k IH]; intros j; [reflexivity|].
  cbn [schedule]. rewrite cells_of_app, cells_of_row_cells.
  change (cells_of (ANextRow :: ?l)) with (cells_of l).
  now rewrite IH, cells_from_succ.
Qed.

Lemma saved_names_app (e1 e2 : list event) :
  saved_names (e1 ++ e2) = (saved_names e1 ++ saved_names e2)%list.
Proof. apply flat_map_app. Qed.

Lemma out_name_fields (i j : Z) (c : cursor) (zoom : Z) :
  split_on underscore (drop_last4 (out_name i j c zoom))
  = [str_int i; str_int j; str_round7 (phi c); str_round7 (lamda c);
     str_int zoom].
Proof.
  assert (Hshape : out_name i j c zoom
          = ((str_int i ++ String underscore (str_int j ++ String underscore
              (str_round7 (phi c) ++ String underscore
                (str_round7 (lamda c) ++ String underscore (str_int zoom)))))
             ++ ".jpg")%string).
  { unfold out_name, underscore. cbn [append].
    repeat (rewrite ?PyFacts.app_assoc; cbn [append]). reflexivity. }
  rewrite Hshape, PyFacts.drop_last4_jpg.
  rewrite PyFacts.split_on_cons by apply PyFacts.str_int_no_underscore.
  rewrite PyFacts.split_on_cons by apply PyFacts.str_int_no_underscore.
  rewrite PyFacts.split_on_cons by apply PyFacts.str_round7_no_underscore.
  rewrite PyFacts.split_on_cons by apply PyFacts.str_round7_no_underscore.
  now rewrite PyFacts.split_on_single by apply PyFacts.str_int_no_underscore.
Qed.

Lemma name_cell_out_name (i j : Z) (c : cursor) (zoom : Z) :
  name_cell (out_name i j c zoom) = Some (i, j).
Proof.
  unfold name_cell. rewrite out_name_fields.
  now rewrite !PyRoundTrip.int_of_string_str_int.
Qed.

Section WithWorld.
Context {W : World}.

Lemma run_actions_pairs (a : args) (epsg : string) (br : geo) (ov x_left : Q)
  (zoom : Z) :
  forall acts c s c' s',
    run_actions acts a epsg br ov x_left zoom c s = (Ok c', s') ->
    exists evs,
      trace s' = (trace s ++ evs)%list
      /\ stitched_cells evs = cells_of acts
      /\ map name_cell (saved_names evs) = map Some (cells_of acts).
Proof.
  induction acts as [|[i j|] acts IH]; intros c s c' s'.
  - intros E. injection E as <- <-. exists []. now rewrite app_nil_r.
  - cbn [run_actions]. unfold bind. rewrite cell_spec. cbv zeta.
    destruct (out_of_bounds _ _ _ _); [discriminate|].
    destruct (collect_tiles _ _ _ _ _); [|discriminate].
    intros E. apply IH in E as (evs & Ht & Hs & Hn). cbn [trace] in Ht.
    eexists ([_; _] ++ evs)%list. split; [|split].
    + rewrite Ht, <- !app_assoc. reflexivity.
    + rewrite stitched_cells_app, Hs. reflexivity.
    + rewrite saved_names_app, map_app, Hn.
      change (cells_of (ACell i j :: acts)) with ((i, j) :: cells_of acts).
      cbn [saved_names flat_map app map].
      now rewrite name_cell_out_name.
  - cbn [run_actions]. apply IH.
Qed.

Lemma walk_rows_pairs (a : args) (epsg : string) (br : geo) (ov x_left : Q)
  (zoom n_x i_last j_last : Z) (fuel : nat) (j : Z) (c c' : cursor)
  (s s' : pstate) :
  walk_rows fuel a epsg br ov x_left zoom n_x i_last j_last j c s
  = (Ok c', s') ->
  exists evs,
    trace s' = (trace s ++ evs)%list
    /\ stitched_cells evs = cells_from fuel n_x i_last j_last j
    /\ map name_cell (saved_names evs) = map Some (stitched_cells evs)
    /\ NoDup (saved_names evs).
Proof.
  rewrite walk_rows_schedule. intros E.
  apply run_actions_pairs in E as (evs & Ht & Hs & Hn).
  rewrite cells_of_schedule in Hs, Hn.
  exists evs. split; [assumption|]. split; [assumption|].
  split; [now rewrite Hs|].
  apply (NoDup_map_inv name_cell). rewrite Hn.
  apply NoDup_map_NoDup_ForallPairs; [|apply NoDup_cells_from].
  intros x y _ _ E. now injection E.
Qed.

Lemma map_fst_filter (name : string) (l : list (string * Image)) :
  map fst (filter (fun f => negb (String.eqb (fst f) name)) l)
  = filter (fun n => negb (String.eqb n name)) (map fst l).
Proof.
  induction l as [|f l IH]; [reflexivity|]. cbn [filter map].
  destruct (negb (String.eqb (fst f) name)); cbn [map]; now rewrite IH.
Qed.

Lemma kept_cons (name : string) (saved names : list string) :
  kept saved (filter (fun n => negb (String.eqb n name)) names)
  = kept (name :: saved) names.
Proof.
  unfold kept. induction names as [|n names IH]; [reflexivity|].
  cbn [filter existsb].
  destruct (String.eqb n name); cbn [negb orb filter]; [exact IH|].
  destruct (negb (existsb (String.eqb n) saved)); now rewrite IH.
Qed.

Lemma existsb_eqb_absent (name : string) (l : list string) :
  ~ In name l -> existsb (String.eqb name) l = false.
Proof.
  intros H. destruct (existsb (String.eqb name) l) eqn:E; [|reflexivity].
  apply existsb_exists in E as [x [Hx Ex]]. apply String.eqb_eq in Ex.
  subst x. contradiction.
Qed.

(** The directory after a walk: the files it saved, newest first, then the
    files that were there under other names. *)
Lemma run_actions_disk (a : args) (epsg : string) (br : geo) (ov x_left : Q)
  (zoom : Z) :
  forall acts c s c' s',
    NoDup (cells_of acts) ->
    run_actions acts a epsg br ov x_left zoom c s = (Ok c', s') ->
    exists evs,
      trace s' = (trace s ++ evs)%list
      /\ map name_cell (saved_names evs) = map Some (cells_of acts)
      /\ map fst (disk s')
         = (rev (saved_names evs)
            ++ kept (saved_names evs) (map fst (disk s)))%list.
Proof.
  induction acts as [|[i j|] acts IH]; intros c s c' s' Hnd.
  - intros E. injection E as <- <-. exists []. rewrite app_nil_r.
    split; [reflexivity|]. split; [reflexivity|].
    cbn [saved_names flat_map rev app]. unfold kept. cbn [existsb negb].
    symmetry. apply forallb_filter_id. now apply forallb_forall.
  - cbn [run_actions]. unfold bind. rewrite cell_spec. cbv zeta.
    destruct (out_of_bounds _ _ _ _); [discriminate|].
    destruct (collect_tiles _ _ _ _ _) as [img|]; [|discriminate].
    change (cells_of (ACell i j :: acts)) with ((i, j) :: cells_of acts)
      in Hnd |- *.
    inversion Hnd as [|? ? Hnotin Hnd']; subst.
    intros E. apply (IH _ _ _ _ Hnd') in E as (evs & Ht & Hn & Hd).
    cbn [trace disk] in Ht, Hd.
    eexists ([_; _] ++ evs)%list. split; [|split].
    + rewrite Ht, <- !app_assoc. reflexivity.
    + rewrite saved_names_app, map_app, Hn.
      cbn [saved_names flat_map app map].
      now rewrite name_cell_out_name.
    + rewrite saved_names_app. cbn [saved_names flat_map app].
      set (name := out_name i j c zoom) in *.
      set (saved := saved_names evs) in *.
      assert (Habsent : ~ In name saved).
      { intros Hin. apply Hnotin.
        apply (in_map name_cell) in Hin. rewrite Hn in Hin.
        unfold name in Hin. rewrite name_cell_out_name in Hin.
        apply in_map_iff in Hin as [x [Ex Hx]]. now injection Ex as <-. }
      rewrite Hd. cbn [map fst]. rewrite map_fst_filter.
      unfold kept at 1. cbn [filter].
      rewrite (existsb_eqb_absent _ _ Habsent). cbn [negb].
      fold (kept saved (filter (fun n => negb (String.eqb n name))
                          (map fst (disk s)))).
      rewrite kept_cons. cbn [rev]. now rewrite <- app_assoc.
  - cbn [run_actions]. apply IH. exact Hnd.
Qed.

(** How a call of [gen_raster_from_map] that returns normally got there:
    without touching the state, or through the walk. *)
Lemma gen_raster_ok_cases (a : args) (l : log) (tlc brc : geo) (ov : Q)
  (last : option string) (proceed : bool) (s s' : pstate) :
  gen_raster_from_map a l tlc brc ov last proceed s = (Ok tt, s') ->
  s' = s
  \/ exists zoom i0 j0 c0 c',
       walk_rows (Z.to_nat (snd (n_raster_imgs l) - j0)) a (utm l) brc ov
         (x_left_of a l) zoom (fst (n_raster_imgs l)) i0 j0 j0 c0 s
       = (Ok c', s')
       /\ match last with
          | None => (i0, j0) = (0, 0)%Z
          | Some name =>
              exists p, parse_name name = Ok p
                        /\ resume a l ov (x_left_of a l) p = Some (i0, j0, c0)
          end.
Proof.
  unfold gen_raster_from_map, bind, lift, ret.
  destruct (get_zoom_from_bounds _ _) as [zs|e]; [|discriminate].
  destruct last as [name|].
  - destruct (parse_name name) as [p|e] eqn:Ep; [|discriminate].
    fold (x_left_of a l).
    destruct (resume a l ov (x_left_of a l) p) as [[[i0 j0] c0]|] eqn:Er.
    + destruct proceed.
      * destruct (walk_rows _ _ _ _ _ _ _ _ _ _ _ _ _) as [[c'|e] s1] eqn:Ew;
          [|discriminate].
        intros E. injection E as <-. right.
        exists (fst zs), i0, j0, c0, c'. split; [exact Ew|]. now exists p.
      * intros E. injection E as <-. now left.
    + intros E. injection E as <-. now left.
  - destruct proceed.
    + destruct (walk_rows _ _ _ _ _ _ _ _ _ _ _ _ _) as [[c'|e] s1] eqn:Ew;
        [|discriminate].
      intros E. injection E as <-. right.
      eexists (fst zs), 0%Z, 0%Z, _, c'. split; [exact Ew|reflexivity].
    + intros E. injection E as <-. now left.
Qed.

End WithWorld.

Lemma before_first_jpg (s : string) :
  all_chars not_j s = true -> before_first ".jpg" (s ++ ".jpg") = s.
Proof.
  induction s as [|c s IH]; [reflexivity|].
  cbn [all_chars]. intros H. apply andb_true_iff in H as [Hc Hs].
  cbn [append before_first]. rewrite (IH Hs).
  assert (E : String.prefix ".jpg" (String c (s ++ ".jpg")) = false).
  { cbn [String.prefix].
    destruct (ascii_dec "."%char c) as [<-|Hne]; [|reflexivity].
    destruct s as [|d s']; [reflexivity|].
    cbn [append String.prefix]. cbn [all_chars] in Hs.
    apply andb_true_iff in Hs as [Hd _]. unfold not_j in Hd.
    destruct (ascii_dec "j"%char d) as [<-|Hnj]; [discriminate|reflexivity]. }
  now rewrite E.
Qed.

Lemma float_char_not_j (c : ascii) : float_char c = true -> not_j c = true.
Proof.
  unfold float_char, not_j, is_digit.
  destruct (Ascii.eqb c "j") eqn:E; [|reflexivity].
  apply Ascii.eqb_eq in E. subst c. discriminate.
Qed.

Lemma out_name_base (i j : Z) (c : cursor) (zoom : Z) :
  before_first ".jpg" (out_name i j c zoom) = drop_last4 (out_name i j c zoom).
Proof.
  assert (Hint : forall z, all_chars not_j (str_int z) = true).
  { intros z. unfold str_int. destruct (z <? 0)%Z.
    - cbn [all_chars]. apply andb_true_iff. split; [reflexivity|].
      apply (PyFacts.all_chars_impl is_digit);
        [|apply PyFacts.str_nat_digits].
      intros d Hd. apply float_char_not_j, PyFacts.digit_float_char, Hd.
    - apply (PyFacts.all_chars_impl is_digit);
        [|apply PyFacts.str_nat_digits].
      intros d Hd. apply float_char_not_j, PyFacts.digit_float_char, Hd. }
  assert (Hfl : forall x, all_chars not_j (str_round7 x) = true).
  { intros x. apply (PyFacts.all_chars_impl float_char);
      [apply float_char_not_j|apply PyFacts.str_round7_chars]. }
  assert (Hshape : out_name i j c zoom
          = ((str_int i ++ String underscore (str_int j ++ String underscore
              (str_round7 (phi c) ++ String underscore
                (str_round7 (lamda c) ++ String underscore (str_int zoom)))))
             ++ ".jpg")%string).
  { unfold out_name, underscore. cbn [append].
    repeat (rewrite ?PyFacts.app_assoc; cbn [append]). reflexivity. }
  rewrite Hshape, PyFacts.drop_last4_jpg. apply before_first_jpg.
  repeat (rewrite PyFacts.all_chars_app; cbn [all_chars]).
  rewrite !Hint, !Hfl. reflexivity.
Qed.

(** X1: the name of a file reads back as its cell.  When [float()] accepts
    the two coordinates as written, parsing the name [gen_raster_from_map]
    gave to cell [(i, j)] yields [i], [j] and those coordinates. *)
Theorem parse_name_out_name
  (W : World) (i j : Z) (c : cursor) (zoom : Z) (p q : Q) :
  float_of_string (str_round7 (phi c)) = Some p ->
  float_of_string (str_round7 (lamda c)) = Some q ->
  parse_name (out_name i j c zoom) = Ok (i, j, p, q).
Proof.
  intros Hp Hq. unfold parse_name. rewrite out_name_fields.
  now rewrite !PyRoundTrip.int_of_string_str_int, Hp, Hq.
Qed.

(** X2: the metadata row of a saved file.  When [float()] accepts the five
    fields, the row [config_output] derives from a name given by
    [gen_raster_from_map] holds the name, the column, the row, the rounded
    latitude and longitude, and, under the header [Alt], the zoom level. *)
Theorem meta_row_of_saved_name
  (W : World) (i j : Z) (c : cursor) (zoom : Z) (fi fj p q fz : Q) :
  float_of_string (str_int i) = Some fi ->
  float_of_string (str_int j) = Some fj ->
  float_of_string (str_round7 (phi c)) = Some p ->
  float_of_string (str_round7 (lamda c)) = Some q ->
  float_of_string (str_int zoom) = Some fz ->
  meta_row (out_name i j c zoom)
  = Ok (out_name i j c zoom, [fi; fj; p; q; fz]).
Proof.
  intros Hi Hj Hp Hq Hz. unfold meta_row.
  rewrite out_name_base, out_name_fields. cbn [floats_of].
  now rewrite Hi, Hj, Hp, Hq, Hz.
Qed.

(** X3: within one call that returns normally, the files saved are one per
    stitched cell, in the same order; each name reads back as the cell it
    was saved for, and no name is used twice. *)
Theorem run_saves_each_cell_once
  (W : World) (a : args) (l : log) (tlc brc : geo) (ov : Q)
  (last : option string) (proceed : bool) (s s' : pstate) :
  gen_raster_from_map a l tlc brc ov last proceed s = (Ok tt, s') ->
  exists evs,
    trace s' = (trace s ++ evs)%list
    /\ map name_cell (saved_names evs) = map Some (stitched_cells evs)
    /\ NoDup (saved_names evs).
Proof.
  intros E. apply gen_raster_ok_cases in E as [->|E].
  - exists []. rewrite app_nil_r. repeat split. constructor.
  - destruct E as (zoom & i0 & j0 & c0 & c' & Ew & _).
    apply walk_rows_pairs in Ew as (evs & Ht & _ & Hn & Hd).
    now exists evs.
Qed.

(** X4: what a run leaves in the directory.  After a call that returns
    normally the directory lists the files the call saved, newest first,
    followed by the files that were there before under other names, in
    their old order: nothing else is removed. *)
Theorem run_keeps_other_files
  (W : World) (a : args) (l : log) (tlc brc : geo) (ov : Q)
  (last : option string) (proceed : bool) (s s' : pstate) :
  gen_raster_from_map a l tlc brc ov last proceed s = (Ok tt, s') ->
  exists evs,
    trace s' = (trace s ++ evs)%list
    /\ map fst (disk s')
       = (rev (saved_names evs)
          ++ kept (saved_names evs) (map fst (disk s)))%list.
Proof.
  intros E. apply gen_raster_ok_cases in E as [->|E].
  - exists []. rewrite app_nil_r. split; [reflexivity|].
    cbn [saved_names flat_map rev app]. unfold kept. cbn [existsb negb].
    symmetry. apply forallb_filter_id. now apply forallb_forall.
  - destruct E as (zoom & i0 & j0 & c0 & c' & Ew & _).
    rewrite walk_rows_schedule in Ew.
    apply run_actions_disk in Ew as (evs & Ht & _ & Hd);
      [|rewrite cells_of_schedule; apply NoDup_cells_from].
    now exists evs.
Qed.

(** X5: resumption.  When the name handed over parses to cell [(i, j)] and
    the call returns normally after the operator confirmed: if
    [(i + 1, j + 1)] is the grid size, the state is untouched; otherwise
    the cells stitched are, in order, the rest of row [j] from column
    [i + 1] and then every later row in full or, when [i] was the last
    column, the rows from [j + 1] on. *)
Theorem resumed_run_stitches_the_rest
  (W : World) (a : args) (l : log) (tlc brc : geo) (ov : Q) (name : string)
  (i j : Z) (p q : Q) (s s' : pstate) :
  parse_name name = Ok (i, j, p, q) ->
  gen_raster_from_map a l tlc brc ov (Some name) true s = (Ok tt, s') ->
  let n_x := fst (n_raster_imgs l) in
  let n_y := snd (n_raster_imgs l) in
  if ((i + 1 =? n_x) && (j + 1 =? n_y))%Z then s' = s
  else
    exists evs,
      trace s' = (trace s ++ evs)%list
      /\ stitched_cells evs
         = if (i <? n_x - 1)%Z
           then cells_from (Z.to_nat (n_y - j)) n_x (i + 1) j j
           else cells_from (Z.to_nat (n_y - (j + 1))) n_x 0 (j + 1) (j + 1).
Proof.
  intros Ep E. cbv zeta.
  unfold gen_raster_from_map, bind, lift, ret in E.
  destruct (get_zoom_from_bounds _ _) as [zs|e]; [|discriminate].
  rewrite Ep in E. unfold resume in E.
  destruct ((i + 1 =? _) && (j + 1 =? _))%Z.
  - now injection E as <-.
  - destruct (i <? _ - 1)%Z.
    + destruct (walk_rows _ _ _ _ _ _ _ _ _ _ _ _ _) as [[c'|e] s1] eqn:Ew;
        [|discriminate].
      injection E as <-.
      apply walk_rows_pairs in Ew as (evs & Ht & Hs & _). now exists evs.
    + destruct (walk_rows _ _ _ _ _ _ _ _ _ _ _ _ _) as [[c'|e] s1] eqn:Ew;
        [|discriminate].
      injection E as <-.
      apply walk_rows_pairs in Ew as (evs & Ht & Hs & _). now exists evs.
Qed.

Lemma int_of_float_nonpos (q : Q) : q <= 0 -> (int_of_float q <= 0)%Z.
Proof.
  destruct q as [n d]. unfold Qle, int_of_float. cbn [Qnum Qden].
  intros H. rewrite Z.mul_1_r, Z.mul_0_l in H.
  replace n with (- (- n))%Z by lia. rewrite Z.quot_opp_l by lia.
  assert (0 <= Z.quot (- n) (Z.pos d))%Z by (apply Z.quot_pos; lia). lia.
Qed.

Lemma n_raster_imgs_axis_nonpos (map_m single_m ov : Q) (n : Z) :
  0 <= map_m -> 0 < single_m -> 1 < ov ->
  n_raster_imgs_axis map_m single_m ov = Ok n -> (n <= 0)%Z.
Proof.
  intros Hm Hs Ho. unfold n_raster_imgs_axis.
  destruct (Qeq_bool _ 0); [destruct (Qeq_bool _ 0); discriminate|].
  intros E. injection E as <-. apply int_of_float_nonpos.
  assert (Hd : single_m * (1 - ov) < 0).
  { setoid_replace (single_m * (1 - ov)) with (- (single_m * (ov - 1)))
      by ring.
    assert (0 < single_m * (ov - 1)) by (apply Qmult_lt_0_compat; lra).
    lra. }
  unfold Qdiv.
  setoid_replace (map_m * / (single_m * (1 - ov)))
    with (- (map_m * / (- (single_m * (1 - ov)))))
    by (field; lra).
  assert (0 <= map_m * / (- (single_m * (1 - ov)))).
  { apply Qmult_le_0_compat; [assumption|].
    apply Qlt_le_weak, Qinv_lt_0_compat. lra. }
  lra.
Qed.

Lemma two_digits_zone :
  forall z, (1 <= z <= 61)%Z ->
    ((if ((0 <=? z) && (z <? 10))%Z then "0" else "") ++ str_int z)%string
    = two_digits z
    /\ String.length (two_digits z) = 2%nat.
Proof.
  assert (H : forallb (fun z =>
              String.eqb
                ((if ((0 <=? z) && (z <? 10))%Z then "0" else "")
                 ++ str_int z)%string (two_digits z)) (range 1 62) = true)
    by (vm_compute; reflexivity).
  intros z Hz. split; [|reflexivity].
  rewrite forallb_forall in H. apply String.eqb_eq, H.
  apply PyFacts.range_In. lia.
Qed.

(** X10: the zone [get_utm_epsg] picks.  For a longitude between -180 and
    180 the code is the hemisphere's prefix followed by two digits, ten
    characters in all; the number [z] is the six-degree band the longitude
    lies in, counted from 1 at -180; it reaches 61, one more than there are
    zones, exactly at longitude 180. *)
Theorem get_utm_epsg_zone (lat lon : Q) :
  -180 <= lon -> lon <= 180 ->
  exists z,
    (1 <= z <= 61)%Z
    /\ inject_Z (z - 1) * 6 <= lon + 180 < inject_Z z * 6
    /\ (z = 61%Z <-> lon == 180)
    /\ get_utm_epsg (lat, lon)
       = ((if Qle_bool 0 lat then "EPSG:326" else "EPSG:327")
          ++ two_digits z)%string
    /\ String.length (get_utm_epsg (lat, lon)) = 10%nat.
Proof.
  intros Hlo Hhi.
  assert (Hq : 0 <= (lon + 180) / 6) by (apply Qle_shift_div_l; lra).
  pose proof (PyFacts.int_of_float_floor _ Hq) as Hf.
  assert (Hdiv : lon + 180 == (lon + 180) / 6 * 6) by field.
  assert (Hle : (lon + 180) / 6 <= 60) by (apply Qle_shift_div_r; lra).
  set (q := (lon + 180) / 6) in *.
  pose proof (Qfloor_le q) as H1.
  pose proof (Qlt_floor q) as H2.
  assert (Hf0 : (0 <= Qfloor q)%Z) by (apply (Qfloor_resp_le 0 q Hq)).
  assert (Hf60 : (Qfloor q <= 60)%Z) by (apply (Qfloor_resp_le q 60 Hle)).
  set (f := Qfloor q) in *.
  rewrite inject_Z_plus in H2. change (inject_Z 1) with 1 in H2.
  exists (f + 1)%Z.
  replace (f + 1 - 1)%Z with f by lia. rewrite inject_Z_plus.
  change (inject_Z 1) with 1.
  split; [lia|]. split; [split; lra|]. split.
  - split.
    + intros E. assert (Ef : f = 60%Z) by lia. rewrite Ef in H1.
      change (inject_Z 60) with 60 in H1. lra.
    + intros E. assert (Eq60 : q == 60) by lra.
      assert (Ef : f = Qfloor 60).
      { unfold f. now rewrite Eq60. }
      rewrite Ef. reflexivity.
  - assert (Hcode : get_utm_epsg (lat, lon)
            = ((if Qle_bool 0 lat then "EPSG:326" else "EPSG:327")
               ++ two_digits (f + 1))%string).
    { unfold get_utm_epsg. cbn [fst snd]. cbv zeta. fold q.
      rewrite Hf. fold f.
      destruct (two_digits_zone (f + 1)) as [-> _]; [lia|].
      now destruct (Qle_bool 0 lat). }
    split; [exact Hcode|]. rewrite Hcode.
    now destruct (Qle_bool 0 lat).
Qed.

(** X6: when the operator does not confirm, [gen_raster_from_map] and
    [complete_download] stitch no cell and save nothing, whatever the
    raster directory holds and whether or not the call raises: the state
    after the call is the state before it. *)
Theorem declined_run_changes_nothing
  (W : World) (a : args) (l : log) (tlc brc : geo) (ov : Q)
  (last : option string) (s : pstate) :
  snd (gen_raster_from_map a l tlc brc ov last false s) = s
  /\ snd (complete_download a l false s) = s.
Proof.
  assert (H : forall a l tlc brc ov last,
             snd (gen_raster_from_map a l tlc brc ov last false s) = s).
  { clear. intros a l tlc brc ov last.
    unfold gen_raster_from_map, bind, lift, ret.
    destruct (get_zoom_from_bounds _ _); [|reflexivity].
    destruct last as [name|]; [|reflexivity].
    destruct (parse_name name); [|reflexivity].
    now destruct (resume _ _ _ _ _) as [[[? ?] ?]|]. }
  split; [apply H|].
  unfold complete_download, bind, listdir. apply H.
Qed.


(** X8: an overlap above 1 (a percentage, say).  With a positive cell
    height, the grid [check_data] logs has no row; when the zoom of a
    single cell can be computed, [complete_download] over a directory
    without images then returns normally and leaves the state as it found
    it: no cell is stitched, nothing is saved, and the empty grid is not
    reported. *)
Theorem overlap_above_one_downloads_nothing
  (W : World) (a : args) (l : log) (zs : Z * (Z * Z)) (s : pstate) :
  1 < overlap a ->
  0 < snd (single_img_size_m a) ->
  check_data a = Ok l ->
  get_zoom_from_bounds
    (fst (meters2geo (top_left a) (single_img_size_m a) (utm l)))
    (snd (meters2geo (top_left a) (single_img_size_m a) (utm l))) = Ok zs ->
  glob_jpg (map fst (disk s)) = [] ->
  (snd (n_raster_imgs l) <= 0)%Z
  /\ complete_download a l true s = (Ok tt, s).
Proof.
  intros Ho Hy El Hz Hdir.
  assert (Hny : (snd (n_raster_imgs l) <= 0)%Z).
  { unfold check_data in El.
    destruct (get_zoom_from_bounds _ _); [|discriminate].
    cbv zeta in El.
    destruct (n_raster_imgs_axis _ (fst _) _) as [nx|]; [|discriminate].
    destruct (n_raster_imgs_axis _ (snd _) _) as [ny|] eqn:Ey;
      [|discriminate].
    destruct (collect_tiles _ _ _ _ _); [|discriminate].
    injection El as <-. cbn [n_raster_imgs snd].
    apply n_raster_imgs_axis_nonpos in Ey;
      [assumption|apply np_round3_abs_nonneg|assumption|assumption]. }
  split; [exact Hny|].
  unfold complete_download, bind, listdir. rewrite Hdir.
  cbn [NatSort.greatest].
  unfold gen_raster_from_map, bind, lift, ret. rewrite Hz.
  replace (Z.to_nat (snd (n_raster_imgs l) - 0)) with 0%nat by lia.
  reflexivity.
Qed.

(** X9: the guard compares degrees with metres.  It subtracts the cell's
    width in metres from a latitude and adds its height in metres to a
    longitude; for cells of 180 m by 360 m or more no position on the globe
    trips it. *)
Theorem guard_blind_for_large_cells
  (br : geo) (raster_wx raster_wy : Q) (c : cursor) :
  -90 <= phi c -> fst br <= 90 -> 180 <= raster_wx ->
  lamda c <= 180 -> -180 <= snd br -> 360 <= raster_wy ->
  out_of_bounds br raster_wx raster_wy c = false.
Proof.
  intros H1 H2 H3 H4 H5 H6. unfold out_of_bounds, Qltb.
  assert (E1 : Qle_bool (fst br - raster_wx - (2 # 100)) (phi c) = true)
    by (apply Qle_bool_iff; lra).
  assert (E2 : Qle_bool (lamda c) (snd br + raster_wy + (2 # 100)) = true)
    by (apply Qle_bool_iff; lra).
  now rewrite E1, E2.
Qed.

Lemma guard_blind_for_large_cells_witness :
  out_of_bounds (3514 # 100, -8987 # 100) 1000 1000
    {| cx := 0; cy := 0; phi := -90; lamda := 180 |} = false.
Proof.
  apply (guard_blind_for_large_cells (3514 # 100, -8987 # 100) 1000 1000
           {| cx := 0; cy := 0; phi := -90; lamda := 180 |});
    discriminate.
Defined.

End PlannerMore.

(** ** The planner's further properties on the reference mission *)

Module DemoMore.
Import Planner Demo PlannerFacts PlannerMore.
Local Open Scope string_scope.

Lemma parse_name_out_name_witness :
  parse_name
    (out_name 0 0 {| cx := 0; cy := 0; phi := 3516 # 100; lamda := -899 # 10 |}
       18)
  = Ok (0%Z, 0%Z, 879 # 25, -899 # 10).
Proof. apply (parse_name_out_name world); reflexivity. Defined.

Lemma meta_row_of_saved_name_witness :
  meta_row
    (out_name 0 0 {| cx := 0; cy := 0; phi := 3516 # 100; lamda := -899 # 10 |}
       18)
  = Ok (out_name 0 0
          {| cx := 0; cy := 0; phi := 3516 # 100; lamda := -899 # 10 |} 18,
        [0; 0; 879 # 25; -899 # 10; 18]).
Proof. apply (meta_row_of_saved_name world); reflexivity. Defined.

Lemma fresh_raster_completes :
  fst (gen_raster_from_map (mission 0) log32 (top_left (mission 0))
         (bottom_right (mission 0)) 0 None true empty) = Ok tt.
Proof. vm_compute. reflexivity. Qed.

Lemma run_saves_each_cell_once_witness :
  exists evs,
    trace (snd (gen_raster_from_map (mission 0) log32 (top_left (mission 0))
                  (bottom_right (mission 0)) 0 None true empty))
    = (trace empty ++ evs)%list
    /\ map name_cell (saved_names evs) = map Some (stitched_cells evs)
    /\ NoDup (saved_names evs).
Proof.
  apply (run_saves_each_cell_once world (mission 0) log32
           (top_left (mission 0)) (bottom_right (mission 0)) 0 None true
           empty).
  rewrite <- fresh_raster_completes.
  now destruct (gen_raster_from_map _ _ _ _ _ _ _ _).
Defined.

Lemma interrupted_raster_completes :
  fst (gen_raster_from_map (mission 0) log32 (top_left (mission 0))
         (bottom_right (mission 0)) 0 (Some "2_0_35.16_-89.885_18.jpg") true
         interrupted) = Ok tt.
Proof. vm_compute. reflexivity. Qed.

Lemma run_keeps_other_files_witness :
  exists evs,
    trace (snd (gen_raster_from_map (mission 0) log32 (top_left (mission 0))
                  (bottom_right (mission 0)) 0
                  (Some "2_0_35.16_-89.885_18.jpg") true interrupted))
    = (trace interrupted ++ evs)%list
    /\ map fst
         (disk (snd (gen_raster_from_map (mission 0) log32
                       (top_left (mission 0)) (bottom_right (mission 0)) 0
                       (Some "2_0_35.16_-89.885_18.jpg") true interrupted)))
       = (rev (saved_names evs)
          ++ kept (saved_names evs) (map fst (disk interrupted)))%list.
Proof.
  apply (run_keeps_other_files world (mission 0) log32
           (top_left (mission 0)) (bottom_right (mission 0)) 0
           (Some "2_0_35.16_-89.885_18.jpg") true interrupted).
  rewrite <- interrupted_raster_completes.
  now destruct (gen_raster_from_map _ _ _ _ _ _ _ _).
Defined.

Lemma resumed_raster_completes :
  fst (gen_raster_from_map (mission 0) log32 (top_left (mission 0))
         (bottom_right (mission 0)) 0 (Some "0_0_35.16_-89.9_18.jpg") true
         empty) = Ok tt.
Proof. vm_compute. reflexivity. Qed.

Lemma resumed_run_stitches_the_rest_witness :
  exists evs,
    trace (snd (gen_raster_from_map (mission 0) log32 (top_left (mission 0))
                  (bottom_right (mission 0)) 0
                  (Some "0_0_35.16_-89.9_18.jpg") true empty))
    = (trace empty ++ evs)%list
    /\ stitched_cells evs = [(1, 0); (2, 0); (0, 1); (1, 1); (2, 1)]%Z.
Proof.
  apply (resumed_run_stitches_the_rest world (mission 0) log32
           (top_left (mission 0)) (bottom_right (mission 0)) 0
           "0_0_35.16_-89.9_18.jpg" 0 0 (879 # 25) (-899 # 10) empty).
  - reflexivity.
  - rewrite <- resumed_raster_completes.
    now destruct (gen_raster_from_map _ _ _ _ _ _ _ _).
Defined.

Lemma get_utm_epsg_zone_witness :
  exists z,
    (1 <= z <= 61)%Z
    /\ inject_Z (z - 1) * 6 <= 180 + 180 < inject_Z z * 6
    /\ (z = 61%Z <-> 180 == 180)
    /\ get_utm_epsg (0, 180)
       = ((if Qle_bool 0 0 then "EPSG:326" else "EPSG:327") ++ two_digits z)
    /\ String.length (get_utm_epsg (0, 180)) = 10%nat.
Proof. apply (get_utm_epsg_zone 0 180); discriminate. Defined.


Lemma overlap_above_one_downloads_nothing_witness :
  (snd (n_raster_imgs
          {| utm := "EPSG:32616";
             map_size_m := (3000000 # 1000, 2000000 # 1000);
             n_raster_imgs := (0%Z, 0%Z) |}) <= 0)%Z
  /\ complete_download (mission 50)
       {| utm := "EPSG:32616";
          map_size_m := (3000000 # 1000, 2000000 # 1000);
          n_raster_imgs := (0%Z, 0%Z) |} true empty
     = (Ok tt, empty).
Proof.
  apply (overlap_above_one_downloads_nothing world (mission 50)
           {| utm := "EPSG:32616";
              map_size_m := (3000000 # 1000, 2000000 # 1000);
              n_raster_imgs := (0%Z, 0%Z) |}
           (18%Z, (640%Z, 480%Z)) empty);
    reflexivity.
Defined.

End DemoMore.

(** ** [find_overlap] and [overlapped] *)

Module OverlapFacts.
Import Overlap.
Local Open Scope Q_scope.

Lemma Qltb_spec (a b : Q) :
  (Qltb a b = true /\ a < b) \/ (Qltb a b = false /\ b <= a).
Proof.
  unfold Qltb. destruct (Qle_bool b a) eqn:E.
  - right. split; [reflexivity|]. now apply Qle_bool_iff.
  - left. split; [reflexivity|]. apply Qnot_le_lt. intros H.
    apply Qle_bool_iff in H. congruence.
Qed.

Lemma py_max_spec (a b : Q) :
  (a < b /\ py_max a b = b) \/ (b <= a /\ py_max a b = a).
Proof.
  unfold py_max. destruct (Qltb_spec a b) as [[-> H]|[-> H]]; auto.
Qed.

Lemma py_min_spec (a b : Q) :
  (b < a /\ py_min a b = b) \/ (a <= b /\ py_min a b = a).
Proof.
  unfold py_min. destruct (Qltb_spec b a) as [[-> H]|[-> H]]; auto.
Qed.

Ltac outer_max :=
  repeat match goal with
         | |- context [py_max 0 ?x] =>
             let H := fresh in
             let E := fresh in
             destruct (py_max_spec 0 x) as [[H E]|[H E]]; rewrite !E; clear E
         end.

Lemma int_of_float_opp (q : Q) : int_of_float (- q) = (- int_of_float q)%Z.
Proof.
  destruct q as [n d]. unfold int_of_float, Qopp. cbn [Qnum Qden].
  apply Z.quot_opp_l. lia.
Qed.

Lemma int_of_float_comp (q q' : Q) :
  q == q' -> int_of_float q = int_of_float q'.
Proof.
  intros E. destruct (Qlt_le_dec q 0) as [H|H].
  - assert (H1 : 0 <= - q) by lra. assert (H2 : 0 <= - q') by lra.
    pose proof (PyFacts.int_of_float_floor _ H1) as F1.
    pose proof (PyFacts.int_of_float_floor _ H2) as F2.
    rewrite int_of_float_opp in F1, F2.
    assert (Ef : Qfloor (- q) = Qfloor (- q')) by now rewrite E.
    lia.
  - rewrite !PyFacts.int_of_float_floor by lra. now rewrite E.
Qed.

(** The extent two intervals share, as the code computes it. *)
Lemma shared_sym (lo1 hi1 lo2 hi2 : Q) :
  py_max 0 (py_min hi1 hi2 - py_max lo1 lo2)
  == py_max 0 (py_min hi2 hi1 - py_max lo2 lo1).
Proof.
  destruct (py_min_spec hi1 hi2) as [[? ->]|[? ->]];
  destruct (py_min_spec hi2 hi1) as [[? ->]|[? ->]];
  destruct (py_max_spec lo1 lo2) as [[? ->]|[? ->]];
  destruct (py_max_spec lo2 lo1) as [[? ->]|[? ->]];
  outer_max; lra.
Qed.

Lemma shared_bounds (lo1 hi1 lo2 hi2 : Q) :
  lo1 <= hi1 -> lo2 <= hi2 ->
  let v := py_max 0 (py_min hi1 hi2 - py_max lo1 lo2) in
  0 <= v /\ v <= hi1 - lo1 /\ v <= hi2 - lo2.
Proof.
  intros H1 H2. cbv zeta.
  destruct (py_min_spec hi1 hi2) as [[? ->]|[? ->]];
  destruct (py_max_spec lo1 lo2) as [[? ->]|[? ->]];
  outer_max; repeat split; lra.
Qed.

Lemma shared_same (lo1 hi1 lo2 hi2 : Q) :
  lo1 <= hi1 -> lo1 == lo2 -> hi1 == hi2 ->
  py_max 0 (py_min hi1 hi2 - py_max lo1 lo2) == hi1 - lo1.
Proof.
  intros H1 E1 E2.
  destruct (py_min_spec hi1 hi2) as [[? ->]|[? ->]];
  destruct (py_max_spec lo1 lo2) as [[? ->]|[? ->]];
  outer_max; lra.
Qed.

Lemma shared_apart (lo1 hi1 lo2 hi2 : Q) :
  hi1 <= lo2 \/ hi2 <= lo1 ->
  py_max 0 (py_min hi1 hi2 - py_max lo1 lo2) == 0.
Proof.
  intros H.
  destruct (py_min_spec hi1 hi2) as [[? ->]|[? ->]];
  destruct (py_max_spec lo1 lo2) as [[? ->]|[? ->]];
  outer_max; lra.
Qed.

Lemma product_le (x y w h : Q) :
  0 <= x -> x <= w -> 0 <= y -> y <= h -> x * y <= w * h.
Proof. intros. nra. Qed.

Lemma ratio_comp (i d i' d' : Q) :
  i == i' -> d == d' ->
  (if Qeq_bool d 0 then Raise ZeroDivisionError
   else Ok (int_of_float (i / d * 100)))
  = (if Qeq_bool d' 0 then Raise ZeroDivisionError
     else Ok (int_of_float (i' / d' * 100))).
Proof.
  intros Ei Ed.
  destruct (Qeq_bool d 0) eqn:E1; destruct (Qeq_bool d' 0) eqn:E2.
  - reflexivity.
  - apply Qeq_bool_iff in E1. exfalso.
    assert (H : Qeq_bool d' 0 = true) by (apply Qeq_bool_iff; lra).
    congruence.
  - apply Qeq_bool_iff in E2. exfalso.
    assert (H : Qeq_bool d 0 = true) by (apply Qeq_bool_iff; lra).
    congruence.
  - f_equal. apply int_of_float_comp. now rewrite Ei, Ed.
Qed.

Lemma ratio_percent (i d : Q) :
  0 <= i -> i <= d -> 0 < d ->
  exists p,
    (if Qeq_bool d 0 then Raise ZeroDivisionError
     else Ok (int_of_float (i / d * 100))) = Ok p
    /\ (0 <= p <= 100)%Z
    /\ (d <= i -> p = 100%Z) /\ (i == 0 -> p = 0%Z).
Proof.
  intros Hi Hid Hd.
  assert (Hz : Qeq_bool d 0 = false).
  { destruct (Qeq_bool d 0) eqn:E; [|reflexivity].
    apply Qeq_bool_iff in E. lra. }
  rewrite Hz.
  assert (Hr0 : 0 <= i / d) by (apply Qle_shift_div_l; lra).
  assert (Hr1 : i / d <= 1) by (apply Qle_shift_div_r; lra).
  assert (H0 : 0 <= i / d * 100) by lra.
  assert (H1 : i / d * 100 <= 100) by lra.
  rewrite (PyFacts.int_of_float_floor _ H0).
  exists (Qfloor (i / d * 100)). split; [reflexivity|].
  pose proof (Qfloor_resp_le _ _ H0) as F0.
  pose proof (Qfloor_resp_le _ _ H1) as F1.
  change (Qfloor 0) with 0%Z in F0. change (Qfloor 100) with 100%Z in F1.
  split; [lia|]. split.
  - intros Hge. assert (Hone : 1 <= i / d) by (apply Qle_shift_div_l; lra).
    assert (E : i / d * 100 == 100) by lra.
    now rewrite E.
  - intros E0. assert (E : i / d * 100 == 0) by (rewrite E0; field; lra).
    now rewrite E.
Qed.

(** X11: [find_overlap] is symmetric in its two rectangles, error included. *)
Theorem find_overlap_sym (a b : rect) : find_overlap a b = find_overlap b a.
Proof.
  destruct a as [[[tla tloa] bla] bloa], b as [[[tlb tlob] blb] blob].
  unfold find_overlap. cbv zeta.
  pose proof (shared_sym bla tla blb tlb) as Ey.
  pose proof (shared_sym tloa bloa tlob blob) as Ex.
  apply ratio_comp.
  - now rewrite Ex, Ey.
  - rewrite Ex, Ey. ring.
Qed.

(** X12: on two rectangles given top-left then bottom-right, the first
    with a positive area, [find_overlap] returns a percentage between 0
    and 100: 100 for a rectangle and itself, 0 for two rectangles that
    share no area; and a threshold of 0 makes [overlapped] true however far
    apart they are. *)
Theorem find_overlap_percent (a b : rect) :
  proper a -> proper b -> 0 < area a ->
  exists p,
    find_overlap a b = Ok p
    /\ (0 <= p <= 100)%Z
    /\ (same a b -> p = 100%Z)
    /\ (apart a b -> p = 0%Z)
    /\ overlapped a b 0 = Ok true.
Proof.
  destruct a as [[[tla tloa] bla] bloa], b as [[[tlb tlob] blb] blob].
  unfold proper, area, same, apart, overlapped, find_overlap. cbv zeta.
  intros [Ha1 Ha2] [Hb1 Hb2] Hpos.
  pose proof (shared_bounds bla tla blb tlb Ha1 Hb1) as (Hy0 & Hya & Hyb).
  pose proof (shared_bounds tloa bloa tlob blob Ha2 Hb2) as (Hx0 & Hxa & Hxb).
  cbv zeta in Hy0, Hya, Hyb, Hx0, Hxa, Hxb.
  pose proof (shared_same bla tla blb tlb Ha1) as Sy.
  pose proof (shared_same tloa bloa tlob blob Ha2) as Sx.
  pose proof (shared_apart bla tla blb tlb) as Ay.
  pose proof (shared_apart tloa bloa tlob blob) as Ax.
  set (yo := py_max 0 (py_min tla tlb - py_max bla blb)) in *.
  set (xo := py_max 0 (py_min bloa blob - py_max tloa tlob)) in *.
  clearbody xo yo.
  assert (Eha : Qabs (bla - tla) == tla - bla).
  { rewrite Qabs_neg by lra. ring. }
  assert (Ewa : Qabs (bloa - tloa) == bloa - tloa).
  { rewrite Qabs_pos by lra. reflexivity. }
  assert (Ehb : Qabs (blb - tlb) == tlb - blb).
  { rewrite Qabs_neg by lra. ring. }
  assert (Ewb : Qabs (blob - tlob) == blob - tlob).
  { rewrite Qabs_pos by lra. reflexivity. }
  assert (Ed : Qabs (bla - tla) * Qabs (bloa - tloa)
               + Qabs (blb - tlb) * Qabs (blob - tlob) - xo * yo
               == (bloa - tloa) * (tla - bla) + (blob - tlob) * (tlb - blb)
                  - xo * yo).
  { rewrite Eha, Ewa, Ehb, Ewb. ring. }
  set (d := Qabs (bla - tla) * Qabs (bloa - tloa)
            + Qabs (blb - tlb) * Qabs (blob - tlob) - xo * yo) in *.
  clearbody d. clear Eha Ewa Ehb Ewb.
  set (ha := tla - bla) in *. set (wa := bloa - tloa) in *.
  set (hb := tlb - blb) in *. set (wb := blob - tlob) in *.
  assert (Hha : 0 <= ha) by (unfold ha; lra).
  assert (Hwa : 0 <= wa) by (unfold wa; lra).
  assert (Hhb : 0 <= hb) by (unfold hb; lra).
  assert (Hwb : 0 <= wb) by (unfold wb; lra).
  assert (HIa : xo * yo <= wa * ha) by (apply product_le; assumption).
  assert (HIb : xo * yo <= wb * hb) by (apply product_le; assumption).
  assert (HI0 : 0 <= xo * yo) by (apply Qmult_le_0_compat; assumption).
  assert (HB0 : 0 <= wb * hb) by (apply Qmult_le_0_compat; assumption).
  assert (HA : 0 < wa * ha) by lra.
  destruct (ratio_percent (xo * yo) d) as (p & Ep & Hp & Hfull & Hzero);
    [assumption|lra|lra|].
  rewrite Ep. exists p. split; [reflexivity|]. split; [exact Hp|].
  split; [|split].
  - intros (E1 & E2 & E3 & E4). apply Hfull.
    assert (Eyo : yo == ha) by (apply Sy; assumption).
    assert (Exo : xo == wa) by (apply Sx; assumption).
    assert (Ehh : hb == ha) by (unfold ha, hb; lra).
    assert (Eww : wb == wa) by (unfold wa, wb; lra).
    rewrite Ed, Exo, Eyo, Ehh, Eww. lra.
  - intros Hap. apply Hzero.
    destruct Hap as [H|[H|[H|H]]].
    + assert (E : xo == 0) by (apply Ax; left; exact H). rewrite E. ring.
    + assert (E : xo == 0) by (apply Ax; right; exact H). rewrite E. ring.
    + assert (E : yo == 0) by (apply Ay; left; exact H). rewrite E. ring.
    + assert (E : yo == 0) by (apply Ay; right; exact H). rewrite E. ring.
  - f_equal. apply Z.leb_le. lia.
Qed.

(** X13: the corners are not checked.  A rectangle whose latitudes are
    swapped (the "top" below the "bottom") and whose longitudes differ
    overlaps no rectangle at all, itself included. *)
Theorem swapped_latitudes_overlap_nothing
  (tl_lat tl_lon br_lat br_lon : Q) (b : rect) :
  tl_lat < br_lat -> ~ tl_lon == br_lon ->
  find_overlap (tl_lat, tl_lon, br_lat, br_lon) b = Ok 0%Z
  /\ find_overlap (tl_lat, tl_lon, br_lat, br_lon)
       (tl_lat, tl_lon, br_lat, br_lon) = Ok 0%Z.
Proof.
  intros Hlat Hlon.
  assert (H : forall b, find_overlap (tl_lat, tl_lon, br_lat, br_lon) b
                        = Ok 0%Z).
  { clear b. intros [[[tlb tlob] blb] blob]. unfold find_overlap. cbv zeta.
    assert (Ey : py_max 0 (py_min tl_lat tlb - py_max br_lat blb) == 0).
    { destruct (py_min_spec tl_lat tlb) as [[? ->]|[? ->]];
      destruct (py_max_spec br_lat blb) as [[? ->]|[? ->]];
      outer_max; lra. }
    set (yo := py_max 0 (py_min tl_lat tlb - py_max br_lat blb)) in *.
    set (xo := py_max 0 (py_min br_lon blob - py_max tl_lon tlob)).
    clearbody xo yo.
    assert (HA : 0 < Qabs (br_lat - tl_lat) * Qabs (br_lon - tl_lon)).
    { apply Qmult_lt_0_compat.
      - rewrite Qabs_pos by lra. lra.
      - destruct (Qlt_le_dec (br_lon - tl_lon) 0) as [Hn|Hp].
        + rewrite Qabs_neg by lra. lra.
        + rewrite Qabs_pos by lra.
          destruct (Qeq_dec tl_lon br_lon) as [E|E]; [contradiction|].
          destruct (Qlt_le_dec 0 (br_lon - tl_lon)) as [?|?]; [assumption|].
          exfalso. apply E. lra. }
    assert (HB : 0 <= Qabs (blb - tlb) * Qabs (blob - tlob)).
    { apply Qmult_le_0_compat; apply Qabs_nonneg. }
    set (A := Qabs (br_lat - tl_lat) * Qabs (br_lon - tl_lon)) in *.
    set (B := Qabs (blb - tlb) * Qabs (blob - tlob)) in *.
    assert (EI : xo * yo == 0) by (rewrite Ey; ring).
    assert (Hz : Qeq_bool (A + B - xo * yo) 0 = false).
    { destruct (Qeq_bool _ 0) eqn:E; [|reflexivity].
      apply Qeq_bool_iff in E. lra. }
    rewrite Hz. f_equal.
    change 0%Z with (int_of_float 0). apply int_of_float_comp.
    rewrite EI. field. lra. }
  split; apply H.
Qed.

Lemma find_overlap_percent_witness :
  exists p,
    find_overlap (2, 0, 0, 2) (3, 1, 1, 3) = Ok p
    /\ (0 <= p <= 100)%Z
    /\ (same (2, 0, 0, 2) (3, 1, 1, 3) -> p = 100%Z)
    /\ (apart (2, 0, 0, 2) (3, 1, 1, 3) -> p = 0%Z)
    /\ overlapped (2, 0, 0, 2) (3, 1, 1, 3) 0 = Ok true.
Proof.
  apply (find_overlap_percent (2, 0, 0, 2) (3, 1, 1, 3));
    [split; discriminate|split; discriminate|reflexivity].
Defined.

Lemma swapped_latitudes_overlap_nothing_witness :
  find_overlap (0, 0, 2, 2) (2, 0, 0, 2) = Ok 0%Z
  /\ find_overlap (0, 0, 2, 2) (0, 0, 2, 2) = Ok 0%Z.
Proof.
  apply (swapped_latitudes_overlap_nothing 0 0 2 2 (2, 0, 0, 2));
    [reflexivity|discriminate].
Defined.

End OverlapFacts.

(** ** [get_map_image] *)

Module HttpFacts.
Import Http.

Lemma get_map_image_loop_spec (r : response) (data_dir : string) (f : fs) :
  forall trials,
    get_map_image_loop trials r data_dir f
    = if (status_code r =? 200)%Z
      then match trials with
           | [] => None
           | _ :: _ => Some (write_file data_dir (content r) f)
           end
      else None.
Proof.
  induction trials as [|t rest IH]; cbn [get_map_image_loop].
  - now destruct (status_code r =? 200)%Z.
  - rewrite IH. now destruct (status_code r =? 200)%Z.
Qed.

(** X14: [retry] only counts through its sign; the response is never asked
    for again.  A good response is written once when [retry] is at least
    one and not at all otherwise, and the call returns normally either way.
    A bad response leaves the files alone and raises [ValueError], or
    [UnboundLocalError] (for the loop variable of the message) when the
    loop never ran. *)
Theorem get_map_image_never_retries
  (r : response) (data_dir : string) (retry : Z) (f : fs) :
  get_map_image r data_dir retry f
  = if (status_code r =? 200)%Z
    then (Returns tt,
          if (0 <? retry)%Z then write_file data_dir (content r) f else f)
    else (Fails (if (0 <? retry)%Z then Known ValueError
                 else UnboundLocalError),
          f).
Proof.
  unfold get_map_image. rewrite get_map_image_loop_spec.
  pose proof (PyFacts.range_length 0 retry) as Hlen.
  destruct (status_code r =? 200)%Z; cbn [negb].
  - destruct (range 0 retry) as [|t rest]; cbn [List.length] in Hlen.
    + replace (0 <? retry)%Z with false by (symmetry; apply Z.ltb_ge; lia).
      reflexivity.
    + replace (0 <? retry)%Z with true by (symmetry; apply Z.ltb_lt; lia).
      reflexivity.
  - reflexivity.
Qed.

End HttpFacts.

(** ** [collect_tiles]: the retry loop, the tile indices, the crop *)

Module TileFacts.
Import Geo GeoFacts.
Local Open Scope R_scope.

Section Fetch.
Variable Tile : Type.
Variable service : string -> nat -> option Tile.

Lemma fetch_loop_spec (M : nat) (try : nat -> option Tile) (offset : Z * Z) :
  forall n a,
    (n = 0 \/ a + n = S M)%nat ->
    let r := fetch_loop Tile (seq a n) M try offset in
    match pasted Tile r with
    | Some (image, o) =>
        o = offset
        /\ exists k,
             (a <= k < a + n)%nat
             /\ attempts Tile r = (k - a + 1)%nat
             /\ sleeps Tile r = (k - a)%nat
             /\ try k = Some image
             /\ forall k', (a <= k' < k)%nat -> try k' = None
    | None =>
        attempts Tile r = n
        /\ sleeps Tile r = (n - 1)%nat
        /\ forall k, (a <= k < a + n)%nat -> try k = None
    end.
Proof.
  induction n as [|n IH]; intros a Han; cbv zeta.
  - cbn. repeat split. intros k Hk. lia.
  - cbn [seq fetch_loop].
    destruct (try a) as [image|] eqn:Ea.
    + cbn [pasted attempts sleeps]. split; [reflexivity|].
      exists a. split; [lia|]. split; [lia|]. split; [lia|].
      split; [exact Ea|]. intros k' Hk'. lia.
    + cbn [pasted attempts sleeps].
      assert (Hrest : (n = 0 \/ S a + n = S M)%nat) by lia.
      specialize (IH (S a) Hrest). cbv zeta in IH.
      destruct (pasted Tile (fetch_loop Tile (seq (S a) n) M try offset))
        as [[image o]|].
      * destruct IH as [-> (k & Hk & Hat & Hsl & Hok & Hbefore)].
        split; [reflexivity|]. exists k.
        assert (HaM : (a <? M)%nat = true) by (apply Nat.ltb_lt; lia).
        rewrite HaM, Hat, Hsl. split; [lia|]. split; [lia|]. split; [lia|].
        split; [exact Hok|]. intros k' Hk'. destruct (Nat.eq_dec k' a) as [->|Hne];
          [exact Ea|apply Hbefore; lia].
      * destruct IH as (Hat & Hsl & Hnone). rewrite Hat, Hsl.
        split; [reflexivity|]. split.
        -- destruct n as [|n'].
           ++ replace (a <? M)%nat with false
                by (symmetry; apply Nat.ltb_ge; lia).
              reflexivity.
           ++ replace (a <? M)%nat with true
                by (symmetry; apply Nat.ltb_lt; lia).
              lia.
        -- intros k Hk. destruct (Nat.eq_dec k a) as [->|Hne];
             [exact Ea|apply Hnone; lia].
Qed.

(** X15: one tile, at most [max_retries] requests.  The tile of the first
    attempt that succeeds is pasted, once, at 256 px times its index
    distance from the top-left tile, after one second of sleep per failed
    attempt.  When every attempt fails the call still returns normally,
    nothing pasted, having slept after all attempts but the last; a map
    type outside the table fails every attempt. *)
Theorem fetch_and_paste_outcome
  (tl_x tl_y zoom tile_id_x tile_id_y : Z) (map_type : string)
  (max_retries : nat) :
  let r := fetch_and_paste Tile service tl_x tl_y zoom tile_id_x tile_id_y
             map_type max_retries in
  (attempts Tile r <= max_retries)%nat
  /\ match pasted Tile r with
     | Some (image, o) =>
         o = (((tile_id_x - tl_x) * 256)%Z, ((tile_id_y - tl_y) * 256)%Z)
         /\ exists code k,
              layer_code map_type = Some code
              /\ (1 <= k <= max_retries)%nat
              /\ attempts Tile r = k
              /\ sleeps Tile r = (k - 1)%nat
              /\ service (tile_url code tile_id_x tile_id_y zoom) k
                 = Some image
              /\ forall k', (1 <= k' < k)%nat ->
                   service (tile_url code tile_id_x tile_id_y zoom) k' = None
     | None =>
         attempts Tile r = max_retries
         /\ sleeps Tile r = (max_retries - 1)%nat
         /\ forall code k,
              layer_code map_type = Some code ->
              (1 <= k <= max_retries)%nat ->
              service (tile_url code tile_id_x tile_id_y zoom) k = None
     end
  /\ (layer_code map_type = None -> pasted Tile r = None).
Proof.
  cbv zeta. unfold fetch_and_paste.
  set (try := fun attempt : nat =>
                match layer_code map_type with
                | Some code =>
                    service (tile_url code tile_id_x tile_id_y zoom) attempt
                | None => None
                end).
  set (offset := (((tile_id_x - tl_x) * 256)%Z, ((tile_id_y - tl_y) * 256)%Z)).
  assert (Hseq : (max_retries = 0 \/ 1 + max_retries = S max_retries)%nat)
    by lia.
  pose proof (fetch_loop_spec max_retries try offset max_retries 1%nat Hseq)
    as H.
  cbv zeta in H.
  destruct (pasted Tile (fetch_loop Tile (seq 1 max_retries) max_retries try
                           offset)) as [[image o]|] eqn:Ep.
  - destruct H as [-> (k & Hk & Hat & Hsl & Hok & Hbefore)].
    unfold try in Hok, Hbefore.
    destruct (layer_code map_type) as [code|] eqn:Ec; [|discriminate].
    split; [lia|]. split; [|discriminate].
    split; [reflexivity|]. exists code, k.
    split; [reflexivity|]. split; [lia|]. split; [lia|]. split; [lia|].
    split; [exact Hok|exact Hbefore].
  - destruct H as (Hat & Hsl & Hnone). split; [lia|]. split; [|reflexivity].
    repeat split; try assumption.
    intros code k Ec Hk. specialize (Hnone k). unfold try in Hnone.
    rewrite Ec in Hnone. apply Hnone. lia.
Qed.

End Fetch.

Lemma powerRZ2_IZR (z : Z) : (0 <= z)%Z -> powerRZ 2 z = IZR (2 ^ z).
Proof.
  intros Hz. destruct z as [|p|p]; [reflexivity| |lia].
  cbn [powerRZ]. rewrite <- (positive_nat_Z p), <- pow_IZR. reflexivity.
Qed.

Lemma powerRZ2_pos (z : Z) : 0 < powerRZ 2 z.
Proof. apply powerRZ_lt. lra. Qed.

Lemma trunc_neg (x : R) :
  x < 0 -> IZR (trunc x) - 1 < x <= IZR (trunc x).
Proof.
  intros Hx. unfold trunc. destruct (Rle_dec 0 x) as [H|_]; [lra|].
  destruct (base_Int_part (- x)). rewrite opp_IZR. lra.
Qed.

(** The pixel offset inside a tile: [int(x * 256 - int(x) * 256)]. *)
Lemma pixel_offset_range (x : R) :
  let p := trunc (x * 256 - IZR (trunc x) * 256) in
  (- 255 <= p <= 255)%Z /\ (0 <= x -> (0 <= p)%Z).
Proof.
  cbv zeta. destruct (Rle_dec 0 x) as [Hx|Hx].
  - pose proof (trunc_nonneg x Hx) as Ht.
    set (y := x * 256 - IZR (trunc x) * 256).
    assert (Hy : 0 <= y < 256) by (unfold y; lra).
    pose proof (trunc_nonneg y (proj1 Hy)) as Hp.
    assert (H1 : (-1 < trunc y)%Z) by (apply lt_IZR; lra).
    assert (H2 : (trunc y < 256)%Z) by (apply lt_IZR; lra).
    split; [lia|]. intros _. lia.
  - apply Rnot_le_lt in Hx. pose proof (trunc_neg x Hx) as Ht.
    set (y := x * 256 - IZR (trunc x) * 256).
    assert (Hy : -256 < y <= 0) by (unfold y; lra).
    split; [|intros H; lra].
    destruct (Req_dec_T y 0) as [E|E].
    + rewrite E. change 0 with (IZR 0). rewrite trunc_IZR. lia.
    + assert (Hneg : y < 0) by lra. pose proof (trunc_neg y Hneg) as Hp.
      assert (H1 : (-256 < trunc y)%Z) by (apply lt_IZR; lra).
      assert (H2 : (trunc y < 1)%Z) by (apply lt_IZR; lra).
      lia.
Qed.

Lemma trunc_0_le (x : R) : 0 <= x -> (0 <= trunc x)%Z.
Proof.
  intros Hx. pose proof (trunc_nonneg x Hx) as Ht.
  assert (H : (-1 < trunc x)%Z) by (apply lt_IZR; lra). lia.
Qed.

(** X16: the tile indices of a point.  For a longitude between -180 and 180
    and a zoom that is not negative, the column lies between 0 and
    [2 ^ zoom]; it is [2 ^ zoom], one past the last column there is,
    exactly at longitude 180.  The pixel offsets stay below 256 in absolute
    value; the one along x is not negative, and neither are the row and the
    offset along y as long as the Mercator ordinate does not exceed pi. *)
Theorem generate_tile_info_ranges
  (lat lon : R) (zoom tx ty px py : Z) :
  generate_tile_info (lat, lon) zoom = Ok (tx, ty, px, py) ->
  -180 <= lon <= 180 -> (0 <= zoom)%Z ->
  (0 <= tx <= 2 ^ zoom)%Z
  /\ (tx = (2 ^ zoom)%Z <-> lon = 180)
  /\ (0 <= px <= 255)%Z
  /\ (- 255 <= py <= 255)%Z
  /\ (ln (tan (radians lat) + 1 / cos (radians lat)) <= PI ->
      (0 <= ty)%Z /\ (0 <= py)%Z).
Proof.
  unfold generate_tile_info. cbn [fst snd]. cbv zeta.
  destruct (Req_dec_T _ 0) as [_|Hc]; [discriminate|].
  destruct (Rle_dec _ 0) as [_|Harg]; [discriminate|].
  intros E Hlon Hz. injection E as <- <- <- <-.
  rewrite (powerRZ2_IZR zoom Hz).
  assert (Hn : 1 <= IZR (2 ^ zoom)).
  { apply IZR_le. assert (0 < 2 ^ zoom)%Z by (apply Z.pow_pos_nonneg; lia).
    lia. }
  set (n := IZR (2 ^ zoom)) in *.
  set (tile_x := (lon + 180) / 360 * n).
  assert (Hx0 : 0 <= tile_x).
  { unfold tile_x. apply Rmult_le_pos; lra. }
  assert (Hxn : tile_x <= n).
  { unfold tile_x. replace n with (1 * n) at 2 by ring.
    apply Rmult_le_compat_r; lra. }
  pose proof (trunc_nonneg tile_x Hx0) as Ht.
  pose proof (pixel_offset_range tile_x) as [Hpx Hpx0]. cbv zeta in Hpx, Hpx0.
  specialize (Hpx0 Hx0).
  split; [|split; [|split; [|split]]].
  - split; [now apply trunc_0_le|]. apply le_IZR. fold n. lra.
  - split.
    + intros Etx. assert (En : tile_x = n).
      { apply Rle_antisym; [assumption|]. unfold n. rewrite <- Etx. lra. }
      unfold tile_x in En.
      assert (H1 : (lon + 180) / 360 = 1).
      { apply (Rmult_eq_reg_r n); lra. }
      lra.
    + intros ->. unfold tile_x.
      replace ((180 + 180) / 360 * n) with n by lra.
      unfold n. apply trunc_IZR.
  - lia.
  - apply pixel_offset_range.
  - intros Hm.
    set (tile_y := (1 - _ / PI) / 2 * n).
    assert (Hy0 : 0 <= tile_y).
    { unfold tile_y. apply Rmult_le_pos; [|lra].
      assert (HPI := PI_RGT_0).
      assert (Hq : ln (tan (radians lat) + 1 / cos (radians lat)) / PI <= 1).
      { apply (Rmult_le_reg_r PI); [assumption|].
        unfold Rdiv. rewrite Rmult_assoc, Rinv_l by lra. lra. }
      lra. }
    split; [now apply trunc_0_le|].
    now apply (pixel_offset_range tile_y).
Qed.

(** A strip along the equator from longitude -90 to 0 at zoom 2: two
    tiles side by side. *)
Lemma equator_strip :
  collect_tiles (0, -90) (0, 0) 2 "satellite" 0
  = Ok {| effective_zoom := 2; tl_info := (1, 2, 0, 0)%Z;
          br_info := (2, 2, 0, 0)%Z; canvas := (512, 256)%Z;
          requests := [{| tile_id_x := 1; tile_id_y := 2; request_zoom := 2;
                          request_map_type := "satellite" |};
                       {| tile_id_x := 2; tile_id_y := 2; request_zoom := 2;
                          request_map_type := "satellite" |}];
          crop_box := (0, 0, 256, 0)%Z |}.
Proof.
  unfold collect_tiles. change (Z.min (2 + 0) 22) with 2%Z.
  rewrite (tile_info_equator_zoom2 (-90) 1) by (simpl; lra).
  rewrite (tile_info_equator_zoom2 0 2) by (simpl; lra).
  reflexivity.
Qed.

Lemma generate_tile_info_ranges_witness :
  (0 <= 1 <= 2 ^ 1)%Z
  /\ (1%Z = (2 ^ 1)%Z <-> 0 = 180)
  /\ (0 <= 0 <= 255)%Z
  /\ (- 255 <= 0 <= 255)%Z
  /\ (ln (tan (radians 0) + 1 / cos (radians 0)) <= PI ->
      (0 <= 1)%Z /\ (0 <= 0)%Z).
Proof.
  apply (generate_tile_info_ranges 0 0 1 1 1 0 0 tile_info_0_0_zoom1);
    [lra|lia].
Defined.

Local Opaque Z.mul.

(** X17: the crop.  When the two corners' pixel offsets lie inside their
    tiles and the top-left corner's pixel does not come after the
    bottom-right one's on either axis, the crop box of [collect_tiles]
    starts at the top-left corner's offset, ends at the bottom-right
    corner's pixel, and lies inside the canvas. *)
Theorem crop_box_inside_canvas
  (tl br : R * R) (zoom : Z) (map_type : string) (resolution : Z)
  (st : stitch) (tl_x tl_y tl_px tl_py br_x br_y br_px br_py : Z) :
  collect_tiles tl br zoom map_type resolution = Ok st ->
  tl_info st = (tl_x, tl_y, tl_px, tl_py) ->
  br_info st = (br_x, br_y, br_px, br_py) ->
  (0 <= tl_px <= 255 /\ 0 <= tl_py <= 255)%Z ->
  (0 <= br_px <= 255 /\ 0 <= br_py <= 255)%Z ->
  (256 * tl_x + tl_px <= 256 * br_x + br_px)%Z ->
  (256 * tl_y + tl_py <= 256 * br_y + br_py)%Z ->
  let right := (256 * (br_x - tl_x) + br_px)%Z in
  let bottom := (256 * (br_y - tl_y) + br_py)%Z in
  crop_box st = (tl_px, tl_py, right, bottom)
  /\ (0 <= tl_px <= right /\ right < fst (canvas st))%Z
  /\ (0 <= tl_py <= bottom /\ bottom < snd (canvas st))%Z.
Proof.
  unfold collect_tiles.
  destruct (generate_tile_info tl _) as [[[[a1 a2] a3] a4]|e]; [|discriminate].
  destruct (generate_tile_info br _) as [[[[b1 b2] b3] b4]|e]; [|discriminate].
  destruct (_ || _)%bool; [discriminate|].
  intros E. injection E as <-. cbn [tl_info br_info crop_box canvas fst snd].
  intros Etl Ebr. injection Etl as -> -> -> ->. injection Ebr as -> -> -> ->.
  intros Htl Hbr Hx Hy. cbv zeta.
  rewrite (Z.abs_eq (br_px + 256 * (br_x - tl_x + 1 - 1) - tl_px)) by lia.
  rewrite (Z.abs_eq (br_py + 256 * (br_y - tl_y + 1 - 1) - tl_py)) by lia.
  split; [f_equal; [f_equal|]; lia|]. lia.
Qed.

Lemma crop_box_inside_canvas_witness :
  crop_box {| effective_zoom := 2; tl_info := (1, 2, 0, 0)%Z;
              br_info := (2, 2, 0, 0)%Z; canvas := (512, 256)%Z;
              requests := [{| tile_id_x := 1; tile_id_y := 2;
                              request_zoom := 2;
                              request_map_type := "satellite" |};
                           {| tile_id_x := 2; tile_id_y := 2;
                              request_zoom := 2;
                              request_map_type := "satellite" |}];
              crop_box := (0, 0, 256, 0)%Z |}
  = (0, 0, 256 * (2 - 1) + 0, 256 * (2 - 2) + 0)%Z
  /\ (0 <= 0 <= 256 * (2 - 1) + 0 /\ 256 * (2 - 1) + 0 < 512)%Z
  /\ (0 <= 0 <= 256 * (2 - 2) + 0 /\ 256 * (2 - 2) + 0 < 256)%Z.
Proof.
  apply (crop_box_inside_canvas (0, -90) (0, 0) 2 "satellite" 0 _
           1 2 0 0 2 2 0 0 equator_strip); try reflexivity; lia.
Defined.

End TileFacts.

(** ** [calc_bbox_api] against [get_zoom_from_bounds] *)

Module BboxFacts.
Import Geo GeoFacts.
Local Open Scope R_scope.

Lemma exp_ratio (u : R) : (1 + tanh u) / (1 - tanh u) = exp (2 * u).
Proof.
  unfold tanh, sinh, cosh.
  pose proof (exp_pos u) as Hp. pose proof (exp_pos (- u)) as Hn.
  replace (2 * u) with (u + u) by ring. rewrite exp_plus.
  assert (E : exp u * exp (- u) = 1).
  { rewrite <- exp_plus. replace (u + - u) with 0 by ring. apply exp_0. }
  set (a := exp u) in *. set (b := exp (- u)) in *.
  assert (Hb : b = / a).
  { apply (Rmult_eq_reg_l a); [|lra]. rewrite E. field. lra. }
  rewrite Hb. field. repeat split; nra.
Qed.

Lemma Rabs_within (a b : R) : Rabs a <= b -> - b <= a <= b.
Proof. unfold Rabs. destruct (Rcase_abs a); lra. Qed.

Lemma atanh_tanh (u : R) : 0.5 * ln ((1 + tanh u) / (1 - tanh u)) = u.
Proof. rewrite exp_ratio, ln_exp. lra. Qed.

Lemma radians_degrees (z : R) : radians (degrees z) = z.
Proof. unfold radians, degrees. field. apply PI_neq0. Qed.

(** [latlonToPt] undoes [pt_to_lat_lon] on a point the clamp leaves alone. *)
Lemma latlonToPt_pt_to_lat_lon (C : Consts) (pt : R * R) :
  pixel_per_degree C <> 0 -> pixel_per_radian C <> 0 -> unclamped C pt ->
  latlonToPt C (fst (pt_to_lat_lon C pt)) (snd (pt_to_lat_lon C pt)) = pt.
Proof.
  intros Hd Hr Hu. unfold unclamped in Hu.
  unfold latlonToPt, pt_to_lat_lon. cbn [fst snd].
  rewrite radians_degrees.
  set (u := (snd pt - snd (tile_center_p C)) / - pixel_per_radian C) in *.
  apply Rabs_within in Hu.
  rewrite sin_asin by lra.
  rewrite Rmax_left by lra. rewrite Rmin_left by lra.
  rewrite atanh_tanh. destruct pt as [x y]. cbn [fst snd] in *.
  f_equal.
  - field. exact Hd.
  - unfold u. field. exact Hr.
Qed.

(** Within 16 of the origin the hyperbolic tangent stays clear of the
    clamp. *)
Lemma tanh_clear (u : R) : Rabs u <= 16 -> Rabs (tanh u) <= 1 - 1e-15.
Proof.
  intros Hu. apply Rabs_within in Hu.
  assert (H3 : forall v, v <= 16 -> exp (2 * v) <= 3 ^ 32).
  { intros v Hv. apply Rle_trans with (exp 32).
    - destruct (Req_dec_T (2 * v) 32) as [->|Hne]; [lra|].
      left. apply exp_increasing. lra.
    - replace 32 with (INR 32) by (simpl; lra).
      rewrite exp_nat_pow. apply pow_incr. split; [left; apply exp_pos|].
      apply exp_le_3. }
  assert (Hpos : forall v, v <= 16 -> tanh v <= 1 - 1e-15).
  { intros v Hv. specialize (H3 v Hv).
    pose proof (exp_ratio v) as E. pose proof (exp_pos (2 * v)) as Hp.
    assert (Ht : tanh v < 1).
    { unfold tanh, sinh, cosh. pose proof (exp_pos v). pose proof (exp_pos (- v)).
      apply (Rmult_lt_reg_r ((exp v + exp (- v)) / 2)); [lra|].
      field_simplify; lra. }
    set (t := tanh v) in *. set (e := exp (2 * v)) in *.
    assert (E' : 1 + t = e * (1 - t)).
    { rewrite <- E. field. lra. }
    assert (H32 : (3 : R) ^ 32 = 1853020188851841) by (simpl; lra).
    rewrite H32 in H3.
    destruct (Rle_dec t (1 - 1e-15)) as [?|Hn]; [assumption|exfalso].
    apply Rnot_le_lt in Hn. nra. }
  apply Rabs_le. split.
  - assert (Hodd : tanh (- u) = - tanh u).
    { unfold tanh, sinh, cosh. rewrite Ropp_involutive. field.
      pose proof (exp_pos u). pose proof (exp_pos (- u)). lra. }
    specialize (Hpos (- u) ltac:(lra)). rewrite Hodd in Hpos. lra.
  - apply Hpos. lra.
Qed.

(** X18: [get_zoom_from_bounds] reads back the zoom [calc_bbox_api] was
    given.  For a map of [w] by [h] pixels whose larger side is more than
    half the tile size and less than the tile size, at a zoom between 0
    and [zoom_bound], and when the latitude clamp leaves the two corner
    points alone, [get_zoom_from_bounds] on the box [calc_bbox_api]
    returns gives that zoom, and two sizes that are [w] and [h] or one
    pixel less. *)
Theorem bbox_round_trip
  (C : Consts) (center : R * R) (zoom w h bound : Z) :
  0 < tile_size C -> pixel_per_degree C <> 0 -> pixel_per_radian C <> 0 ->
  unclamped C (fst (corner_pts C center zoom (IZR w, IZR h))) ->
  unclamped C (snd (corner_pts C center zoom (IZR w, IZR h))) ->
  (0 <= zoom <= bound)%Z ->
  tile_size C / 2 < Rmax (IZR w) (IZR h) < tile_size C ->
  let box := calc_bbox_api C center zoom (IZR w, IZR h) in
  exists img_w img_h,
    get_zoom_from_bounds C (fst box) (snd box) bound
    = Ok (zoom, (img_w, img_h))
    /\ (w - 1 <= img_w <= w)%Z /\ (h - 1 <= img_h <= h)%Z.
Proof.
  intros HS Hd Hr Htl Hbr Hzoom Hmax. cbv zeta.
  assert (Ehp : half_pw C (fst (calc_bbox_api C center zoom (IZR w, IZR h)))
                  (snd (calc_bbox_api C center zoom (IZR w, IZR h)))
                = (IZR w * powerRZ 2 (- zoom) / 2,
                   IZR h * powerRZ 2 (- zoom) / 2)).
  { unfold half_pw, calc_bbox_api. cbn [fst snd]. cbv zeta.
    rewrite !latlonToPt_pt_to_lat_lon by assumption.
    unfold corner_pts. cbn [fst snd]. f_equal; field. }
  pose proof (TileFacts.powerRZ2_pos (- zoom)) as Hp.
  assert (Em : Rmax (IZR w * powerRZ 2 (- zoom) / 2)
                 (IZR h * powerRZ 2 (- zoom) / 2)
               = Rmax (IZR w) (IZR h) * powerRZ 2 (- zoom) / 2).
  { unfold Rmax.
    destruct (Rle_dec (IZR w) (IZR h)) as [H|H];
    destruct (Rle_dec _ _) as [H'|H']; try reflexivity; exfalso.
    - apply H'. apply Rmult_le_compat_r; [lra|].
      apply Rmult_le_compat_r; lra.
    - apply Rnot_le_lt in H.
      assert (IZR h * powerRZ 2 (- zoom) < IZR w * powerRZ 2 (- zoom))
        by (apply Rmult_lt_compat_r; lra).
      lra. }
  assert (Einv : powerRZ 2 (- zoom) * powerRZ 2 zoom = 1).
  { rewrite <- powerRZ_add by lra. replace (- zoom + zoom)%Z with 0%Z by lia.
    reflexivity. }
  assert (Esc : powerRZ 2 (zoom + 1) = 2 * powerRZ 2 zoom).
  { rewrite powerRZ_add by lra. simpl. ring. }
  set (M := Rmax (IZR w) (IZR h)) in *.
  assert (Hfit : 2 * (M * powerRZ 2 (- zoom) / 2) * powerRZ 2 zoom
                 < tile_size C
                 < 2 * (M * powerRZ 2 (- zoom) / 2) * powerRZ 2 (zoom + 1)).
  { rewrite Esc.
    replace (2 * (M * powerRZ 2 (- zoom) / 2) * powerRZ 2 zoom)
      with (M * (powerRZ 2 (- zoom) * powerRZ 2 zoom)) by field.
    replace (2 * (M * powerRZ 2 (- zoom) / 2) * (2 * powerRZ 2 zoom))
      with (2 * M * (powerRZ 2 (- zoom) * powerRZ 2 zoom)) by field.
    rewrite Einv. split; lra. }
  destruct (zoom_unique _ _ zoom HS (proj1 Hzoom) Hfit) as [Hm Ez].
  rewrite get_zoom_from_bounds_eq;
    [|assumption|rewrite Ehp; cbn [fst snd]; rewrite Em; exact Hm].
  rewrite Ehp. cbn [fst snd]. unfold zoom_of. cbn [fst snd].
  rewrite Em, Ez.
  assert (Eb : (zoom >? bound)%Z = false).
  { rewrite Z.gtb_ltb. apply Z.ltb_ge. lia. }
  rewrite Eb.
  assert (Eside : forall v, v * powerRZ 2 (- zoom) / 2 * powerRZ 2 (zoom + 1)
                            = v).
  { intros v. rewrite Esc.
    replace (v * powerRZ 2 (- zoom) / 2 * (2 * powerRZ 2 zoom))
      with (v * (powerRZ 2 (- zoom) * powerRZ 2 zoom)) by field.
    rewrite Einv. ring. }
  rewrite !Eside, !trunc_IZR.
  exists w, h. split; [reflexivity|]. lia.
Qed.

(** A map of 600 by 600 px centred on (0, 0) at zoom 1, with the reference
    constants: the corner points are 150 px from the centre of the world. *)
Lemma reference_corners :
  corner_pts consts_ref (0, 0) 1 (IZR 600, IZR 600)
  = ((128 - 150, 128 - 150), (128 + 150, 128 + 150)).
Proof.
  unfold corner_pts, clamp, consts_ref.
  cbn [fst snd tile_center_p pixel_per_degree pixel_per_radian].
  replace (radians 0) with 0 by (unfold radians; lra).
  rewrite sin_0, Rmin_left by lra. rewrite Rmax_left by lra.
  replace ((1 + 0) / (1 - 0)) with 1 by lra. rewrite ln_1.
  change (powerRZ 2 (- (1))) with (/ (2 * 1)).
  f_equal; f_equal; lra.
Qed.

Lemma reference_corners_unclamped :
  unclamped consts_ref (128 - 150, 128 - 150)
  /\ unclamped consts_ref (128 + 150, 128 + 150).
Proof.
  pose proof PI_RGT_0 as H0. pose proof PI_4 as H4.
  assert (E1 : (128 - 150 - 128) / - (256 / (2 * PI)) = 75 / 64 * PI)
    by (field; lra).
  assert (E2 : (128 + 150 - 128) / - (256 / (2 * PI)) = - (75 / 64 * PI))
    by (field; lra).
  unfold unclamped, consts_ref.
  cbn [fst snd tile_center_p pixel_per_radian].
  rewrite E1, E2.
  split; apply tanh_clear; apply Rabs_le; lra.
Qed.

Lemma bbox_round_trip_witness :
  let box := calc_bbox_api consts_ref (0, 0) 1 (IZR 600, IZR 600) in
  exists img_w img_h,
    get_zoom_from_bounds consts_ref (fst box) (snd box) 22
    = Ok (1%Z, (img_w, img_h))
    /\ (600 - 1 <= img_w <= 600)%Z /\ (600 - 1 <= img_h <= 600)%Z.
Proof.
  pose proof PI_RGT_0 as H0.
  apply (bbox_round_trip consts_ref (0, 0) 1 600 600 22).
  - simpl. lra.
  - simpl. apply Rgt_not_eq. lra.
  - simpl. apply Rgt_not_eq. apply Rdiv_lt_0_compat; lra.
  - rewrite reference_corners. apply reference_corners_unclamped.
  - rewrite reference_corners. apply reference_corners_unclamped.
  - lia.
  - simpl tile_size. rewrite Rmax_left by lra. lra.
Defined.

End BboxFacts.

(** ** [wait_for_files] *)

Module IoFacts.
Import Io.

Lemma wait_loop_spec (present : nat -> string -> bool)
  (expected_files : list string) :
  forall todo k,
    match wait_loop present expected_files k todo with
    | Appeared n =>
        (k <= n < k + todo)%nat
        /\ all_exist present n expected_files = true
        /\ forall i, (k <= i < n)%nat ->
             all_exist present i expected_files = false
    | TimeoutError n =>
        n = (k + todo)%nat
        /\ forall i, (k <= i < n)%nat ->
             all_exist present i expected_files = false
    end.
Proof.
  induction todo as [|todo IH]; intros k; cbn [wait_loop].
  - split; [lia|]. intros i Hi. lia.
  - destruct (all_exist present k expected_files) eqn:Ek.
    + split; [lia|]. split; [exact Ek|]. intros i Hi. lia.
    + specialize (IH (S k)).
      destruct (wait_loop present expected_files (S k) todo) as [n|n].
      * destruct IH as (Hn & Hall & Hbefore). split; [lia|].
        split; [exact Hall|]. intros i Hi.
        destruct (Nat.eq_dec i k) as [->|Hne]; [exact Ek|apply Hbefore; lia].
      * destruct IH as (Hn & Hbefore). split; [lia|]. intros i Hi.
        destruct (Nat.eq_dec i k) as [->|Hne]; [exact Ek|apply Hbefore; lia].
Qed.

(** X23: [wait_for_files] polls at most [10 * timeout] times.  It returns at
    the first poll that finds every expected file, having slept 0.1 s once
    per earlier poll; it raises [TimeoutError] after [10 * timeout] polls
    that each missed a file.  With a timeout of zero or less it raises at
    once, without looking, even when the files are there. *)
Theorem wait_for_files_first_complete_poll
  (present : nat -> string -> bool) (expected_files : list string)
  (timeout : Z) :
  match wait_for_files present expected_files timeout with
  | Appeared n =>
      (Z.of_nat n < 10 * timeout)%Z
      /\ all_exist present n expected_files = true
      /\ forall i, (i < n)%nat -> all_exist present i expected_files = false
  | TimeoutError n =>
      n = Z.to_nat (10 * timeout)
      /\ forall i, (i < n)%nat -> all_exist present i expected_files = false
  end
  /\ ((timeout <= 0)%Z ->
      wait_for_files present expected_files timeout = TimeoutError 0).
Proof.
  unfold wait_for_files. rewrite PyFacts.range_length.
  replace (timeout * 10 - 0)%Z with (10 * timeout)%Z by lia.
  split.
  - pose proof (wait_loop_spec present expected_files
                  (Z.to_nat (10 * timeout)) 0) as H.
    destruct (wait_loop present expected_files 0 (Z.to_nat (10 * timeout)))
      as [n|n].
    + destruct H as (Hn & Hall & Hbefore). split; [lia|].
      split; [exact Hall|]. intros i Hi. apply Hbefore. lia.
    + destruct H as (Hn & Hbefore). split; [lia|].
      intros i Hi. apply Hbefore. lia.
  - intros Ht. replace (Z.to_nat (10 * timeout)) with 0%nat by lia.
    reflexivity.
Qed.

End IoFacts.

(** ** More geometry *)

Module GeoMore.
Import Geo GeoFacts.
Local Open Scope R_scope.

(** X20: on a field of view between 0 and 180 degrees, a positive altitude
    and a positive aspect ratio the footprint [get_map_dim_m] returns has a
    positive width and a positive height. *)
Theorem get_map_dim_m_positive (fov_d agl_m aspect_ratio : R) :
  0 < fov_d < 180 -> 0 < agl_m -> 0 < aspect_ratio ->
  exists w h,
    get_map_dim_m fov_d agl_m aspect_ratio = Ok (w, h, agl_m)
    /\ 0 < w /\ 0 < h.
Proof.
  intros Hf Ha Hr. unfold get_map_dim_m. cbv zeta.
  eexists _, _. split; [reflexivity|].
  pose proof PI_RGT_0 as HPI.
  assert (Htan : 0 < tan (radians (fov_d / 2))).
  { apply tan_gt_0; unfold radians.
    - apply Rdiv_lt_0_compat; [|lra]. apply Rmult_lt_0_compat; lra.
    - apply (Rmult_lt_reg_r 180); [lra|].
      replace (fov_d / 2 * PI / 180 * 180) with (fov_d / 2 * PI) by field.
      replace (PI / 2 * 180) with (90 * PI) by field.
      apply Rmult_lt_compat_r; lra. }
  pose proof (cos_atan_pos aspect_ratio) as Hc.
  assert (Hd : 0 < 2 * agl_m * tan (radians (fov_d / 2))).
  { apply Rmult_lt_0_compat; [lra|assumption]. }
  split.
  - rewrite sin_atan. apply Rmult_lt_0_compat; [assumption|].
    apply Rmult_lt_0_compat; assumption.
  - apply Rmult_lt_0_compat; assumption.
Qed.

Lemma get_map_dim_m_positive_witness :
  exists w h,
    get_map_dim_m 90 100 1 = Ok (w, h, 100) /\ 0 < w /\ 0 < h.
Proof. apply (get_map_dim_m_positive 90 100 1); lra. Defined.

(** The Mercator ordinate of [latlonToPt] does not decrease with the
    latitude. *)
Lemma mercator_mono (lat1 lat2 : R) :
  -90 <= lat1 -> lat1 <= lat2 -> lat2 <= 90 ->
  let a1 := Rmin (Rmax (sin (radians lat1)) (- (1 - 1e-15))) (1 - 1e-15) in
  let a2 := Rmin (Rmax (sin (radians lat2)) (- (1 - 1e-15))) (1 - 1e-15) in
  0.5 * ln ((1 + a1) / (1 - a1)) <= 0.5 * ln ((1 + a2) / (1 - a2)).
Proof.
  intros H1 H12 H2. cbv zeta.
  pose proof PI_RGT_0 as HPI.
  assert (Hr : forall x, -90 <= x <= 90 ->
                 - (PI / 2) <= radians x <= PI / 2).
  { intros x Hx. unfold radians. split.
    - apply (Rmult_le_reg_r 180); [lra|].
      replace (x * PI / 180 * 180) with (x * PI) by field.
      replace (- (PI / 2) * 180) with (-90 * PI) by field.
      apply Rmult_le_compat_r; lra.
    - apply (Rmult_le_reg_r 180); [lra|].
      replace (x * PI / 180 * 180) with (x * PI) by field.
      replace (PI / 2 * 180) with (90 * PI) by field.
      apply Rmult_le_compat_r; lra. }
  assert (Hs : sin (radians lat1) <= sin (radians lat2)).
  { destruct (Hr lat1) as [? ?]; [lra|].
    destruct (Hr lat2) as [? ?]; [lra|].
    apply sin_incr_1; try assumption.
    unfold radians. apply Rmult_le_compat_r; [lra|].
    apply Rmult_le_compat_r; lra. }
  set (s1 := sin (radians lat1)) in *. set (s2 := sin (radians lat2)) in *.
  assert (Ha : Rmin (Rmax s1 (- (1 - 1e-15))) (1 - 1e-15)
               <= Rmin (Rmax s2 (- (1 - 1e-15))) (1 - 1e-15)).
  { apply Rle_min_compat_r, Rle_max_compat_r. exact Hs. }
  assert (Hb : forall s, - (1 - 1e-15)
                         <= Rmin (Rmax s (- (1 - 1e-15))) (1 - 1e-15)
                         <= 1 - 1e-15).
  { intros s. split.
    - apply Rmin_glb; [apply Rmax_r|lra].
    - apply Rmin_r. }
  pose proof (Hb s1) as Hb1. pose proof (Hb s2) as Hb2.
  set (a1 := Rmin (Rmax s1 _) _) in *. set (a2 := Rmin (Rmax s2 _) _) in *.
  clearbody a1 a2.
  assert (Hq : (1 + a1) / (1 - a1) <= (1 + a2) / (1 - a2)).
  { apply (Rmult_le_reg_r ((1 - a1) * (1 - a2))).
    - apply Rmult_lt_0_compat; lra.
    - replace ((1 + a1) / (1 - a1) * ((1 - a1) * (1 - a2)))
        with ((1 + a1) * (1 - a2)) by (field; lra).
      replace ((1 + a2) / (1 - a2) * ((1 - a1) * (1 - a2)))
        with ((1 + a2) * (1 - a1)) by (field; lra).
      lra. }
  assert (Hpos : 0 < (1 + a1) / (1 - a1)).
  { apply Rdiv_lt_0_compat; lra. }
  destruct Hq as [Hlt|Heq].
  - pose proof (ln_increasing _ _ Hpos Hlt). lra.
  - rewrite Heq. lra.
Qed.

(** X19: a box without extent.  When the bottom-right corner lies neither
    east nor south of the top-left one, [get_zoom_from_bounds] raises
    [ValueError], the domain error of [math.log2], never [OutOfBounds]. *)
Theorem get_zoom_from_bounds_empty_box
  (C : Consts) (top_left bottom_right : R * R) (zoom_bound : Z) :
  0 < tile_size C -> 0 <= pixel_per_degree C -> 0 <= pixel_per_radian C ->
  -90 <= fst top_left -> fst top_left <= fst bottom_right ->
  fst bottom_right <= 90 ->
  snd bottom_right <= snd top_left ->
  get_zoom_from_bounds C top_left bottom_right zoom_bound = Raise ValueError.
Proof.
  intros HS Hd Hr H1 H12 H2 Hlon.
  pose proof (mercator_mono _ _ H1 H12 H2) as Hm. cbv zeta in Hm.
  unfold get_zoom_from_bounds. cbv zeta.
  destruct (Req_dec_T (tile_size C) 0) as [E|_]; [lra|].
  assert (Hhp : Rmax (fst (half_pw C top_left bottom_right))
                  (snd (half_pw C top_left bottom_right)) <= 0).
  { unfold half_pw, latlonToPt. cbn [fst snd].
    set (L1 := 0.5 * ln ((1 + Rmin (Rmax (sin (radians (fst top_left))) _) _)
                         / _)) in *.
    set (L2 := 0.5 * ln ((1 + Rmin (Rmax (sin (radians (fst bottom_right))) _)
                              _) / _)) in *.
    clearbody L1 L2. apply Rmax_lub.
    - assert ((snd bottom_right - snd top_left) * pixel_per_degree C <= 0).
      { replace 0 with (0 * pixel_per_degree C) by ring.
        apply Rmult_le_compat_r; lra. }
      lra.
    - assert ((L1 - L2) * pixel_per_radian C <= 0).
      { replace 0 with (0 * pixel_per_radian C) by ring.
        apply Rmult_le_compat_r; lra. }
      lra. }
  destruct (Rle_dec _ 0) as [_|N]; [reflexivity|].
  exfalso. apply N.
  set (m := Rmax _ _) in *. clearbody m.
  unfold Rdiv. replace 0 with (0 * / tile_size C) by ring.
  apply Rmult_le_compat_r; [|assumption].
  left. now apply Rinv_0_lt_compat.
Qed.

Lemma get_zoom_from_bounds_empty_box_witness :
  get_zoom_from_bounds consts_ref (10, 20) (10, 20) 22 = Raise ValueError.
Proof.
  pose proof PI_RGT_0 as HPI.
  apply (get_zoom_from_bounds_empty_box consts_ref (10, 20) (10, 20) 22);
    simpl; try lra.
  left. apply Rdiv_lt_0_compat; lra.
Defined.

Lemma atan2_sqrt_range (a : R) :
  0 <= a <= 1 ->
  0 <= atan2 (sqrt a) (sqrt (1 - a)) <= PI / 2
  /\ (a = 0 -> atan2 (sqrt a) (sqrt (1 - a)) = 0).
Proof.
  intros Ha. pose proof PI_RGT_0 as HPI.
  pose proof (sqrt_pos a) as Hy. pose proof (sqrt_pos (1 - a)) as Hx.
  unfold atan2.
  destruct (Rlt_dec 0 (sqrt (1 - a))) as [Hx0|Hx0].
  - assert (Hq : 0 <= sqrt a / sqrt (1 - a)).
    { unfold Rdiv. apply Rmult_le_pos; [assumption|].
      left. now apply Rinv_0_lt_compat. }
    pose proof (atan_bound (sqrt a / sqrt (1 - a))) as Hb.
    split.
    + split; [|lra]. destruct Hq as [Hq|Hq].
      * pose proof (atan_increasing _ _ Hq) as Hi. rewrite atan_0 in Hi. lra.
      * rewrite <- Hq, atan_0. lra.
    + intros ->. rewrite sqrt_0. unfold Rdiv. rewrite Rmult_0_l. apply atan_0.
  - destruct (Rlt_dec (sqrt (1 - a)) 0) as [Hn|_]; [lra|].
    assert (E1 : a = 1).
    { assert (Ex : sqrt (1 - a) = 0) by lra.
      apply sqrt_eq_0 in Ex; lra. }
    split.
    + destruct (Rlt_dec 0 (sqrt a)); [lra|].
      destruct (Rlt_dec (sqrt a) 0); lra.
    + intros E0. lra.
Qed.

(** X21: [haversine_distance] does not depend on the order of the two
    points. *)
Theorem haversine_distance_sym (earth_radius lat1 lon1 lat2 lon2 : R) :
  haversine_distance earth_radius (lat1, lon1, lat2, lon2)
  = haversine_distance earth_radius (lat2, lon2, lat1, lon1).
Proof.
  unfold haversine_distance. cbv zeta.
  assert (Ea : sin ((lat2 * PI / 180 - lat1 * PI / 180) / 2) ^ 2
               + cos (lat1 * PI / 180) * cos (lat2 * PI / 180)
                 * sin ((lon2 * PI / 180 - lon1 * PI / 180) / 2) ^ 2
               = sin ((lat1 * PI / 180 - lat2 * PI / 180) / 2) ^ 2
                 + cos (lat2 * PI / 180) * cos (lat1 * PI / 180)
                   * sin ((lon1 * PI / 180 - lon2 * PI / 180) / 2) ^ 2).
  { replace ((lat1 * PI / 180 - lat2 * PI / 180) / 2)
      with (- ((lat2 * PI / 180 - lat1 * PI / 180) / 2)) by field.
    replace ((lon1 * PI / 180 - lon2 * PI / 180) / 2)
      with (- ((lon2 * PI / 180 - lon1 * PI / 180) / 2)) by field.
    rewrite !sin_neg. ring. }
  now rewrite Ea.
Qed.

(** X22: the distance [haversine_distance] gives from a point to itself is
    0, whatever the point and the radius; and whenever its result is a
    number, for a radius that is not negative, that number is not
    negative. *)
Theorem haversine_distance_self
  (earth_radius lat1 lon1 lat2 lon2 : R) :
  haversine_distance earth_radius (lat1, lon1, lat1, lon1) = Some 0
  /\ (0 <= earth_radius ->
      forall d,
        haversine_distance earth_radius (lat1, lon1, lat2, lon2) = Some d ->
        0 <= d).
Proof.
  split.
  - unfold haversine_distance. cbv zeta.
    replace ((lat1 * PI / 180 - lat1 * PI / 180) / 2) with 0 by field.
    replace ((lon1 * PI / 180 - lon1 * PI / 180) / 2) with 0 by field.
    rewrite sin_0.
    replace (0 ^ 2 + cos (lat1 * PI / 180) * cos (lat1 * PI / 180) * 0 ^ 2)
      with 0 by ring.
    destruct (Rlt_dec 0 0) as [N|_]; [lra|].
    destruct (Rlt_dec (1 - 0) 0) as [N|_]; [lra|].
    destruct (atan2_sqrt_range 0 ltac:(lra)) as [_ Hzero].
    rewrite (Hzero eq_refl). f_equal. ring.
  - intros HR d. unfold haversine_distance. cbv zeta.
    set (a := sin _ ^ 2 + _).
    destruct (Rlt_dec a 0) as [N|Ha0]; [discriminate|].
    destruct (Rlt_dec (1 - a) 0) as [N|Ha1]; [discriminate|].
    intros E. injection E as <-.
    destruct (atan2_sqrt_range a ltac:(lra)) as [[Hlo _] _].
    apply Rmult_le_pos; [|lra]. apply Rmult_le_pos; lra.
Qed.

End GeoMore.
